(** * Digital-forensic toolkit: the image / filesystem access layer

    A shallow embedding of [managers/evidence_utils.py] (class
    [ImageHandler]) and of the ZIP helpers of [modules/mainwindow.py],
    together with the properties of the access layer that the design
    document states about them.

    Conventions of the embedding
    - Python [int] is [Z]; [bytes] is [list byte]; [str] is [string]
      (a sequence of 8-bit characters); [str.lower()] is a parameter,
      class [Unicode].
    - A Python call that may raise returns [res A]; a method that also
      mutates [self] is a function [S -> res A * S].  An exception keeps
      the mutations made before it was raised, as in Python.
    - The external libraries (pytsk3, zipfile, python-registry, the
      codecs) are not re-implemented: an opened image is a record of the
      answers the library gives, and the parsers and codecs are classes
      an instance of which stands for the library. *)

From Stdlib Require Import ZArith Lia List Ascii String Strings.Byte Bool.
From stdpp Require Import base option gmap strings list fin_maps.

Local Open Scope string_scope.
Local Open Scope list_scope.
Local Open Scope Z_scope.

(** ** Python runtime: exceptions, results, state *)

Inductive exn : Type :=
| AttributeError
| TypeError
| ValueError (msg : string)
| KeyError
| IOError
| OverflowError
| UnicodeDecodeError
| BadZipFile
| RegistryParseException
| RegistryKeyNotFoundException
| RegistryValueNotFoundException
| RuntimeError.

Inductive res (A : Type) : Type :=
| Ok (a : A)
| Raise (e : exn).
Arguments Ok {A} a.
Arguments Raise {A} e.

Definition is_Ok {A} (r : res A) : bool :=
  match r with Ok _ => true | Raise _ => false end.

#[global] Instance res_ret : MRet res := fun A a => Ok a.
#[global] Instance res_bind : MBind res :=
  fun A B f r => match r with Ok a => f a | Raise e => Raise e end.

(** [try: r except Exception: h] for a pure computation. *)
Definition try_except {A} (r : res A) (h : exn -> res A) : res A :=
  match r with Ok a => Ok a | Raise e => h e end.

(** Attribute access on a value that may be [None]. *)
Definition attr {A} (o : option A) : res A :=
  match o with Some a => Ok a | None => Raise AttributeError end.

(** Stateful computations over a state [S]: the receiver of a method,
    or the receiver together with the host's temporary directory. *)
Definition M (S A : Type) : Type := S -> res A * S.

#[global] Instance M_ret S : MRet (M S) := fun A a s => (Ok a, s).
#[global] Instance M_bind S : MBind (M S) :=
  fun A B f m s =>
    match m s with
    | (Ok a, s') => f a s'
    | (Raise e, s') => (Raise e, s')
    end.

Definition raise {S A} (e : exn) : M S A := fun s => (Raise e, s).
Definition get {S} : M S S := fun s => (Ok s, s).
Definition modify {S} (f : S -> S) : M S unit := fun s => (Ok tt, f s).
Definition lift_res {S A} (r : res A) : M S A := fun s => (r, s).

(** [try: m except Exception: h]. *)
Definition try_catch {S A} (m : M S A) (h : exn -> M S A) : M S A :=
  fun s =>
    match m s with
    | (Ok a, s') => (Ok a, s')
    | (Raise e, s') => h e s'
    end.

(** ** Strings *)

Definition bytes : Type := list byte.

(** [str.isascii()] *)
Fixpoint isascii (s : string) : bool :=
  match s with
  | EmptyString => true
  | String c s' => (N_of_ascii c <? 128)%N && isascii s'
  end.

(** The letters [A]-[Z] folded to [a]-[z], every other character
    kept. *)
Definition lower_ascii (c : ascii) : ascii :=
  let n := N_of_ascii c in
  if ((65 <=? n) && (n <=? 90))%N then ascii_of_N (n + 32) else c.

Fixpoint ascii_lower (s : string) : string :=
  match s with
  | EmptyString => EmptyString
  | String c s' => String (lower_ascii c) (ascii_lower s')
  end.

(** [str.lower()].  Which characters have a lower-case form, and which
    one, is decided by the Unicode character database of the
    interpreter, which is not re-implemented: the method is a parameter
    of the model.  What is known of it is what it does to a string of
    ASCII characters, where only the letters [A]-[Z] change. *)
Class Unicode : Type := {
  lower : string -> string;
  lower_isascii : forall s, isascii s = true -> lower s = ascii_lower s }.

(** [s.rfind(c)] for a one-character needle: [-1] when absent.  The
    scan carries the index [i] of the head and the last hit [acc]. *)
Fixpoint rfind_from (i : Z) (acc : Z) (s : string) (c : ascii) : Z :=
  match s with
  | EmptyString => acc
  | String a s' => rfind_from (i + 1) (if Ascii.eqb a c then i else acc) s' c
  end.

Definition rfind (s : string) (c : ascii) : Z := rfind_from 0 (-1) s c.

(** [s[a:b]] for [0 <= a]. *)
Definition slice (s : string) (a b : Z) : string :=
  String.substring (Z.to_nat a) (Z.to_nat (b - a)) s.

Definition slice_from (s : string) (a : Z) : string :=
  slice s a (Z.of_nat (String.length s)).

(** [s.startswith(c)] for a one-character prefix. *)
Definition startswith_char (s : string) (c : ascii) : bool :=
  match s with
  | String a _ => Ascii.eqb a c
  | EmptyString => false
  end.

(** [needle in hay] on strings. *)
Fixpoint str_contains (needle hay : string) : bool :=
  String.prefix needle hay ||
  match hay with
  | EmptyString => false
  | String _ hay' => str_contains needle hay'
  end.

(** [x in xs] for a list of strings. *)
Definition str_in (x : string) (xs : list string) : bool :=
  existsb (String.eqb x) xs.

(** [os.path.splitext] (posixpath, through [genericpath._splitext] with
    [sep = "/"], no [altsep], [extsep = "."]).  The inner loop looks for
    a character other than the dot between the last separator and the
    last dot; [fuel] is the number of iterations it can make. *)
Fixpoint splitext_scan (fuel : nat) (p : string) (filenameIndex dotIndex : Z)
  : string * string :=
  match fuel with
  | O => (p, "")
  | S fuel' =>
      if filenameIndex <? dotIndex then
        if negb (String.eqb (slice p filenameIndex (filenameIndex + 1)) ".")
        then (slice p 0 dotIndex, slice_from p dotIndex)
        else splitext_scan fuel' p (filenameIndex + 1) dotIndex
      else (p, "")
  end.

Definition splitext (p : string) : string * string :=
  let sepIndex := rfind p "/" in
  let dotIndex := rfind p "." in
  if dotIndex >? sepIndex then
    splitext_scan (Z.to_nat (dotIndex - sepIndex)) p (sepIndex + 1) dotIndex
  else (p, "").

(** ** Plain paths *)

(** The character [c] does not occur in [s]. *)
Fixpoint lacks (c : ascii) (s : string) : Prop :=
  match s with
  | EmptyString => True
  | String a s' => a <> c /\ lacks c s'
  end.

Definition slen (s : string) : Z := Z.of_nat (String.length s).

(** A path [dir ++ name ++ "." ++ e] is plain when its directory part
    is empty or ends with the separator, its file name [String c stem]
    starts with a character other than the dot and holds no separator,
    and [e] holds neither dot nor separator. *)
Definition plain_path (dir : string) (c : ascii) (stem e : string) : Prop :=
  (dir = "" \/ exists d, dir = d +:+ "/") /\
  c <> "."%char /\ c <> "/"%char /\
  lacks "/" stem /\ lacks "." e /\ lacks "/" e.

(** ** [ImageHandler.get_image_type] *)

Definition ewf : list string := [".e01"; ".s01"; ".l01"; ".ex01"].
Definition raw : list string :=
  [".raw"; ".img"; ".dd"; ".iso"; ".ad1"; ".001"; ".dmg"; ".sparse";
   ".sparseimage"].

Definition get_image_type `{Unicode} (image_path : string) : res string :=
  let extension := lower (snd (splitext image_path)) in
  if str_in extension ewf then Ok "ewf"
  else if str_in extension raw then Ok "raw"
  else Raise (ValueError ("Unsupported image type: " +:+ extension)).

(** ** [datetime]: just enough of the standard library *)

Record datetime : Type := mk_datetime {
  dt_year : Z; dt_month : Z; dt_day : Z;
  dt_hour : Z; dt_minute : Z; dt_second : Z }.

(** Proleptic Gregorian date of the day number [days] counted from
    1970-01-01. *)
Definition civil_from_days (days : Z) : Z * Z * Z :=
  let z := days + 719468 in
  let era := z / 146097 in
  let doe := z - era * 146097 in
  let yoe := (doe - doe / 1460 + doe / 36524 - doe / 146096) / 365 in
  let doy := doe - (365 * yoe + yoe / 4 - yoe / 100) in
  let mp := (5 * doy + 2) / 153 in
  let d := doy - (153 * mp + 2) / 5 + 1 in
  let m := if mp <? 10 then mp + 3 else mp - 9 in
  let y := yoe + era * 400 + (if m <=? 2 then 1 else 0) in
  (y, m, d).

(** [datetime.datetime.utcfromtimestamp(t)] for an integer [t]: the
    years 1 to 9999 are representable, anything else raises. *)
Definition utcfromtimestamp (t : Z) : res datetime :=
  if (t <? -62135596800) || (253402300799 <? t)
  then Raise (ValueError "year is out of range")
  else
    let '(y, m, d) := civil_from_days (t / 86400) in
    let s := t mod 86400 in
    Ok (mk_datetime y m d (s / 3600) (s mod 3600 / 60) (s mod 60)).

Definition is_leap (y : Z) : bool :=
  ((y mod 4 =? 0) && negb (y mod 100 =? 0)) || (y mod 400 =? 0).

Definition days_in_month (y m : Z) : Z :=
  if m =? 2 then (if is_leap y then 29 else 28)
  else if (m =? 4) || (m =? 6) || (m =? 9) || (m =? 11) then 30 else 31.

(** The constructor [datetime(y, m, d, H, M, S)] validates its fields. *)
Definition datetime_new (t : Z * Z * Z * Z * Z * Z) : res datetime :=
  let '(y, m, d, hh, mm, ss) := t in
  if (1 <=? y) && (y <=? 9999) && (1 <=? m) && (m <=? 12) &&
     (1 <=? d) && (d <=? days_in_month y m) &&
     (0 <=? hh) && (hh <=? 23) && (0 <=? mm) && (mm <=? 59) &&
     (0 <=? ss) && (ss <=? 59)
  then Ok (mk_datetime y m d hh mm ss)
  else Raise (ValueError "field out of range").

Definition digit (n : Z) : ascii := ascii_of_N (48 + Z.to_N (n mod 10)).

Definition pad2 (n : Z) : string :=
  String (digit (n / 10)) (String (digit n) "").

Definition pad4 (n : Z) : string :=
  String (digit (n / 1000)) (String (digit (n / 100)) (pad2 n)).

(** [dt.strftime('%Y-%m-%d %H:%M:%S')]; the year is written with four
    digits (what every platform does from the year 1000 on). *)
Definition strftime (dt : datetime) : string :=
  pad4 (dt_year dt) +:+ "-" +:+ pad2 (dt_month dt) +:+ "-" +:+
  pad2 (dt_day dt) +:+ " " +:+ pad2 (dt_hour dt) +:+ ":" +:+
  pad2 (dt_minute dt) +:+ ":" +:+ pad2 (dt_second dt).

(** ** pytsk3: what the library answers for an opened image *)

Inductive TSK_FS_META_TYPE : Type :=
| TSK_FS_META_TYPE_UNDEF
| TSK_FS_META_TYPE_REG
| TSK_FS_META_TYPE_DIR
| TSK_FS_META_TYPE_LNK
| TSK_FS_META_TYPE_VIRT.

Definition meta_type_eqb (a b : TSK_FS_META_TYPE) : bool :=
  match a, b with
  | TSK_FS_META_TYPE_UNDEF, TSK_FS_META_TYPE_UNDEF
  | TSK_FS_META_TYPE_REG, TSK_FS_META_TYPE_REG
  | TSK_FS_META_TYPE_DIR, TSK_FS_META_TYPE_DIR
  | TSK_FS_META_TYPE_LNK, TSK_FS_META_TYPE_LNK
  | TSK_FS_META_TYPE_VIRT, TSK_FS_META_TYPE_VIRT => true
  | _, _ => false
  end.

Inductive TSK_FS_TYPE : Type :=
| TSK_FS_TYPE_NTFS | TSK_FS_TYPE_FAT12 | TSK_FS_TYPE_FAT16
| TSK_FS_TYPE_FAT32 | TSK_FS_TYPE_EXFAT | TSK_FS_TYPE_EXT2
| TSK_FS_TYPE_EXT3 | TSK_FS_TYPE_EXT4 | TSK_FS_TYPE_ISO9660
| TSK_FS_TYPE_HFS | TSK_FS_TYPE_APFS | TSK_FS_TYPE_OTHER (code : Z).

(** [entry.info.meta]: the timestamps and the size are optional so that
    an absent value can be told from zero. *)
Record TSK_FS_META : Type := mk_meta {
  meta_type : TSK_FS_META_TYPE;
  meta_addr : Z;
  meta_size : option Z;
  meta_atime : option Z;
  meta_mtime : option Z;
  meta_crtime : option Z;
  meta_ctime : option Z }.

(** A directory entry as the library hands it out: evaluating
    [entry.info.name.name] gives the raw name or raises (the name block
    is missing, the library reports an error); evaluating
    [entry.info.meta] gives the meta block, [None], or raises. *)
Record TSK_FS_FILE : Type := mk_entry {
  info_name : res bytes;
  info_meta : res (option TSK_FS_META) }.

(** An opened file: its meta block and [read_random(offset, size)]. *)
Record File : Type := mk_file {
  file_meta : option TSK_FS_META;
  read_random : Z -> Z -> res bytes }.

(** A mounted filesystem.  Iterating an opened directory yields its
    entries in order. *)
Record FS_Info : Type := mk_fs {
  ftype : TSK_FS_TYPE;
  open_dir_path : string -> res (list TSK_FS_FILE);
  open_dir_inode : Z -> res (list TSK_FS_FILE);
  open_meta : Z -> res File;
  fs_open : string -> res File }.

Record Partition : Type := mk_partition {
  part_addr : Z; part_desc : bytes; part_start : Z; part_len : Z }.

(** An opened container: [pytsk3.Volume_Info(img)], and
    [pytsk3.FS_Info(img, offset=o)] for a byte offset [o]. *)
Record Img_Info : Type := mk_img {
  Volume_Info : res (list Partition);
  FS_Info_at : Z -> res FS_Info;
  img_read : Z -> Z -> res (option bytes) }.

(** ** Constants of [evidence_utils] *)

Definition SECTOR_SIZE : Z := 512.
Definition READ_BUFFER_SIZE : Z := 1024 * 1024.
Definition LARGE_FILE_THRESHOLD : Z := 10 * 1024 * 1024.
Definition CHUNK_SIZE : Z := 8 * 1024 * 1024.

(** ** The entries produced by the traversal layer *)

(** The dictionary built by [get_directory_contents]. *)
Record DirEntry : Type := mk_dir_entry {
  de_name : option string;
  de_is_directory : bool;
  de_inode_number : option Z;
  de_size : Z;
  de_accessed : string;
  de_modified : string;
  de_created : string;
  de_changed : string }.

(** The dictionary built by [get_file_metadata]. *)
Record FileInfo : Type := mk_file_info {
  fi_name : string;
  fi_path : string;
  fi_size : option Z;
  fi_accessed : string;
  fi_modified : string;
  fi_created : string;
  fi_changed : string;
  fi_inode_item : Z }.

(** ** [ImageHandler] *)

Record ImageHandler : Type := mk_handler {
  image_path : string;
  img_info : Img_Info;
  volume_info : option (list Partition);
  _volume_info_loaded : bool;
  fs_info_cache : gmap Z FS_Info;
  file_metadata_cache : gmap Z FileInfo;
  directory_cache : gmap (Z * option Z) (list DirEntry);
  fs_info : option FS_Info;
  is_wiped_image : bool }.

Definition set_volume_info (v : option (list Partition)) (h : ImageHandler) :=
  mk_handler (image_path h) (img_info h) v (_volume_info_loaded h)
    (fs_info_cache h) (file_metadata_cache h) (directory_cache h)
    (fs_info h) (is_wiped_image h).

Definition set_volume_info_loaded (b : bool) (h : ImageHandler) :=
  mk_handler (image_path h) (img_info h) (volume_info h) b
    (fs_info_cache h) (file_metadata_cache h) (directory_cache h)
    (fs_info h) (is_wiped_image h).

Definition set_fs_info_cache (c : gmap Z FS_Info) (h : ImageHandler) :=
  mk_handler (image_path h) (img_info h) (volume_info h) (_volume_info_loaded h)
    c (file_metadata_cache h) (directory_cache h)
    (fs_info h) (is_wiped_image h).

Definition set_file_metadata_cache (c : gmap Z FileInfo) (h : ImageHandler) :=
  mk_handler (image_path h) (img_info h) (volume_info h) (_volume_info_loaded h)
    (fs_info_cache h) c (directory_cache h)
    (fs_info h) (is_wiped_image h).

Definition set_directory_cache
    (c : gmap (Z * option Z) (list DirEntry)) (h : ImageHandler) :=
  mk_handler (image_path h) (img_info h) (volume_info h) (_volume_info_loaded h)
    (fs_info_cache h) (file_metadata_cache h) c
    (fs_info h) (is_wiped_image h).

Definition set_fs_info (f : option FS_Info) (h : ImageHandler) :=
  mk_handler (image_path h) (img_info h) (volume_info h) (_volume_info_loaded h)
    (fs_info_cache h) (file_metadata_cache h) (directory_cache h)
    f (is_wiped_image h).

Definition set_is_wiped_image (b : bool) (h : ImageHandler) :=
  mk_handler (image_path h) (img_info h) (volume_info h) (_volume_info_loaded h)
    (fs_info_cache h) (file_metadata_cache h) (directory_cache h)
    (fs_info h) b.

(** [__init__] with [_load_basic_image_info]: the extension is
    classified first; [opened] is what opening the container gives. *)
Definition ImageHandler_init `{Unicode} (path : string) (opened : res Img_Info)
  : res ImageHandler :=
  _ ← get_image_type path;
  img ← opened;
  Ok (mk_handler path img None false ∅ ∅ ∅ None false).

(** [_ensure_volume_info_loaded] *)
Definition _ensure_volume_info_loaded : M ImageHandler unit :=
  fun self =>
    if _volume_info_loaded self then (Ok tt, self)
    else
      let self1 :=
        match Volume_Info (img_info self) with
        | Ok v => set_volume_info (Some v) self
        | Raise _ =>
            let self' := set_volume_info None self in
            match FS_Info_at (img_info self') 0 with
            | Ok fs => set_fs_info (Some fs) self'
            | Raise _ => set_is_wiped_image true (set_fs_info None self')
            end
        end in
      (Ok tt, set_volume_info_loaded true self1).

Definition is_wiped (self : ImageHandler) : bool := is_wiped_image self.

(** The loop of [get_partitions]: entries without description are
    skipped ([not partition.desc]). *)
Fixpoint collect_partitions (ps : list Partition)
  : list (Z * bytes * Z * Z) :=
  match ps with
  | [] => []
  | p :: ps' =>
      match part_desc p with
      | [] => collect_partitions ps'
      | _ :: _ =>
          (part_addr p, part_desc p, part_start p, part_len p)
            :: collect_partitions ps'
      end
  end.

Definition get_partitions : M ImageHandler (list (Z * bytes * Z * Z)) :=
  _ ← _ensure_volume_info_loaded;
  self ← get;
  match volume_info self with
  | Some v => mret (collect_partitions v)
  | None => if is_wiped self then mret [] else mret []
  end.

(** [get_fs_info]: a mounted filesystem is memoised under its start
    sector; a failed mount returns [None] and caches nothing. *)
Definition get_fs_info (start_offset : Z) : M ImageHandler (option FS_Info) :=
  fun self =>
    match fs_info_cache self !! start_offset with
    | Some fs => (Ok (Some fs), self)
    | None =>
        match FS_Info_at (img_info self) (start_offset * 512) with
        | Ok fs =>
            (Ok (Some fs),
             set_fs_info_cache
               (<[start_offset := fs]> (fs_info_cache self)) self)
        | Raise _ => (Ok None, self)
        end
    end.

Definition has_filesystem (start_offset : Z) : M ImageHandler bool :=
  fs ← get_fs_info start_offset;
  mret (match fs with Some _ => true | None => false end).

Definition fs_type_name (t : TSK_FS_TYPE) : string :=
  match t with
  | TSK_FS_TYPE_NTFS => "NTFS"
  | TSK_FS_TYPE_FAT12 => "FAT12"
  | TSK_FS_TYPE_FAT16 => "FAT16"
  | TSK_FS_TYPE_FAT32 => "FAT32"
  | TSK_FS_TYPE_EXFAT => "ExFAT"
  | TSK_FS_TYPE_EXT2 => "Ext2"
  | TSK_FS_TYPE_EXT3 => "Ext3"
  | TSK_FS_TYPE_EXT4 => "Ext4"
  | TSK_FS_TYPE_ISO9660 => "ISO9660"
  | TSK_FS_TYPE_HFS => "HFS"
  | TSK_FS_TYPE_APFS => "APFS"
  | TSK_FS_TYPE_OTHER _ => "Unknown"
  end.

Definition get_fs_type (start_offset : Z) : M ImageHandler string :=
  try_catch
    (fs ← get_fs_info start_offset;
     match fs with
     | None => mret "N/A"
     | Some fs_info => mret (fs_type_name (ftype fs_info))
     end)
    (fun _ => mret "N/A").

(** ** The codecs *)

(** [bytes.decode('utf-8', errors='ignore')], which never raises, and
    [bytes.decode('utf-8')], which raises on an invalid sequence. *)
Class Codec : Type := {
  decode_ignore : bytes -> string;
  decode_strict : bytes -> res string }.

Fixpoint bytes_eqb (a b : bytes) : bool :=
  match a, b with
  | [], [] => true
  | x :: a', y :: b' => Byte.eqb x y && bytes_eqb a' b'
  | _, _ => false
  end.

(** [name in [b".", b".."]] *)
Definition name_is_dot (name : bytes) : bool :=
  bytes_eqb name [x2e] || bytes_eqb name [x2e; x2e].

(** Truth value of an optional integer ([None] and [0] are false). *)
Definition truthy (n : option Z) : bool :=
  match n with Some k => negb (k =? 0) | None => false end.

(** ** [ImageHandler.get_directory_contents] *)

(** The local helper [safe_datetime] of [get_directory_contents]. *)
Definition safe_datetime (timestamp : option Z) : string :=
  match timestamp with
  | None => "N/A"
  | Some t =>
      if t =? 0 then "N/A"
      else
        match utcfromtimestamp t with
        | Ok dt => strftime dt +:+ " UTC"
        | Raise _ => "N/A"
        end
  end.

(** [safe_datetime(entry.info.meta.X) if hasattr(entry.info.meta, 'X')
    else "N/A"]: the attribute exists exactly when the meta block does. *)
Definition meta_time (meta : option TSK_FS_META)
    (field : TSK_FS_META -> option Z) : string :=
  match meta with
  | Some m => safe_datetime (field m)
  | None => "N/A"
  end.

(** The body of the per-entry [try]: [Ok None] for a synthetic entry,
    [Ok (Some d)] for the dictionary appended to [entries]. *)
Definition listing_entry `{Codec} (entry : TSK_FS_FILE)
  : res (option DirEntry) :=
  name ← info_name entry;
  if negb (name_is_dot name) then
    meta ← info_meta entry;
    let is_directory :=
      match meta with
      | Some m => meta_type_eqb (meta_type m) TSK_FS_META_TYPE_DIR
      | None => false
      end in
    Ok (Some
      {| de_name := Some (decode_ignore name);
         de_is_directory := is_directory;
         de_inode_number := meta_addr <$> meta;
         de_size := match meta with
                    | Some m =>
                        match meta_size m with Some sz => sz | None => 0 end
                    | None => 0
                    end;
         de_accessed := meta_time meta meta_atime;
         de_modified := meta_time meta meta_mtime;
         de_created := meta_time meta meta_crtime;
         de_changed := meta_time meta meta_ctime |})
  else Ok None.

(** The [for entry in directory] loop: an entry whose body raises is
    skipped ([except Exception: continue]). *)
Fixpoint list_entries `{Codec} (directory : list TSK_FS_FILE)
    (entries : list DirEntry) : list DirEntry :=
  match directory with
  | [] => entries
  | entry :: rest =>
      match listing_entry entry with
      | Ok (Some d) => list_entries rest (entries ++ [d])%list
      | Ok None => list_entries rest entries
      | Raise _ => list_entries rest entries
      end
  end.

(** [fs.open_dir(inode=inode_number) if inode_number else
    fs.open_dir(path="/")] *)
Definition open_directory (fs : FS_Info) (inode_number : option Z)
  : res (list TSK_FS_FILE) :=
  match inode_number with
  | Some n =>
      if truthy (Some n) then open_dir_inode fs n else open_dir_path fs "/"
  | None => open_dir_path fs "/"
  end.

Definition get_directory_contents `{Codec} (start_offset : Z)
    (inode_number : option Z) : M ImageHandler (list DirEntry) :=
  let cache_key := (start_offset, inode_number) in
  self ← get;
  match directory_cache self !! cache_key with
  | Some cached => mret cached
  | None =>
      fs ← get_fs_info start_offset;
      match fs with
      | Some fs =>
          try_catch
            (directory ← lift_res (open_directory fs inode_number);
             let entries := list_entries directory [] in
             _ ← modify (fun self =>
                   set_directory_cache
                     (<[cache_key := entries]> (directory_cache self)) self);
             mret entries)
            (fun _ => mret [])
      | None => mret []
      end
  end.

(** [read_unallocated_space]: at least one sector is requested, even
    for an inverted range; nothing read is [None]. *)
Definition read_unallocated_space (start_offset end_offset : Z)
    (self : ImageHandler) : option bytes :=
  let start_byte_offset := start_offset * SECTOR_SIZE in
  let end_byte_offset :=
    Z.max (end_offset * SECTOR_SIZE) (start_byte_offset + SECTOR_SIZE - 1) in
  let size_in_bytes := end_byte_offset - start_byte_offset + 1 in
  let size_in_bytes :=
    if size_in_bytes <=? 0 then SECTOR_SIZE else size_in_bytes in
  match img_read (img_info self) start_byte_offset size_in_bytes with
  | Ok (Some (b :: data)) => Some (b :: data)
  | _ => None
  end.

(** [clear_cache]: the mounted filesystems are kept. *)
Definition clear_cache : M ImageHandler unit :=
  _ ← modify (set_directory_cache ∅);
  modify (set_file_metadata_cache ∅).

(** ** [ImageHandler.get_file_content] *)

Definition len (b : bytes) : Z := Z.of_nat (length b).

(** The [size] bytes of [data] from [offset] on, fewer at the end. *)
Definition byte_range (data : bytes) (offset size : Z) : bytes :=
  firstn (Z.to_nat size) (skipn (Z.to_nat offset) data).

(** The underlying reads of a file return the requested bytes of its
    content [data]. *)
Definition reads_return_requested (file_obj : File) (data : bytes) : Prop :=
  forall offset size,
    0 <= offset -> 0 <= size ->
    read_random file_obj offset size = Ok (byte_range data offset size).

(** The reference read: the whole file in one call. *)
Definition single_shot_read (file_obj : File) (file_size : Z) : res bytes :=
  read_random file_obj 0 file_size.

(** The [while remaining > 0] loop shared by [get_file_content] and
    [get_registry_hive].  Every iteration that does not leave the loop
    lowers [remaining] by at least one, so [Z.to_nat remaining]
    iterations are enough; with that fuel the [O] case is reached only
    when [remaining <= 0]. *)
Fixpoint read_chunks (fuel : nat) (file_obj : File) (content : bytes)
    (remaining current_offset : Z) : res bytes :=
  match fuel with
  | O => Ok content
  | S fuel' =>
      if remaining >? 0 then
        let chunk_size := Z.min remaining CHUNK_SIZE in
        chunk ← read_random file_obj current_offset chunk_size;
        match chunk with
        | [] => Ok content
        | _ :: _ =>
            read_chunks fuel' file_obj (content ++ chunk)%list
              (remaining - len chunk) (current_offset + len chunk)
        end
      else Ok content
  end.

(** The part of [get_file_content] inside [try]. *)
Definition read_content (fs : FS_Info) (inode_number : Z)
  : res (option bytes * option TSK_FS_META) :=
  file_obj ← open_meta fs inode_number;
  metadata ← attr (file_meta file_obj);
  match meta_size metadata with
  | None => Raise TypeError
  | Some file_size =>
      if file_size =? 0 then Ok (None, None)
      else if file_size >? LARGE_FILE_THRESHOLD then
        content ← read_chunks (Z.to_nat file_size) file_obj [] file_size 0;
        Ok (Some content, Some metadata)
      else
        content ← read_random file_obj 0 file_size;
        Ok (Some content, Some metadata)
  end.

Definition get_file_content (inode_number offset : Z)
  : M ImageHandler (option bytes * option TSK_FS_META) :=
  fs ← get_fs_info offset;
  match fs with
  | None => mret (None, None)
  | Some fs =>
      lift_res (try_except (read_content fs inode_number)
                  (fun _ => Ok (None, None)))
  end.

(** The states in which the [while] loop of [get_file_content] starts
    an iteration: [content], [remaining] and [current_offset].  The
    loop is entered with nothing read; an iteration whose read returns
    a chunk that is not empty leads to the next one. *)
Inductive loop_state (file_obj : File) (file_size : Z)
  : bytes -> Z -> Z -> Prop :=
| loop_enter : loop_state file_obj file_size [] file_size 0
| loop_iterate (content : bytes) (remaining current_offset : Z)
    (chunk : bytes) :
    loop_state file_obj file_size content remaining current_offset ->
    remaining > 0 ->
    read_random file_obj current_offset (Z.min remaining CHUNK_SIZE)
      = Ok chunk ->
    chunk <> [] ->
    loop_state file_obj file_size (content ++ chunk)%list
      (remaining - len chunk) (current_offset + len chunk).

(** ** The recursive search *)

(** [os.path.join(a, b)] (posixpath). *)
Definition path_join (a b : string) : string :=
  if startswith_char b "/" then b
  else if (String.eqb a "") ||
          (String.eqb (slice_from a (Z.of_nat (String.length a) - 1)) "/")
       then a +:+ b
       else a +:+ "/" +:+ b.

(** The local helper [safe_datetime] of [get_file_metadata]: only
    [None] is tested before the conversion. *)
Definition safe_datetime_metadata (timestamp : option Z) : string :=
  match timestamp with
  | None => "N/A"
  | Some t =>
      match utcfromtimestamp t with
      | Ok dt => strftime dt
      | Raise _ => "N/A"
      end
  end.

Definition get_file_metadata `{Codec} (entry : TSK_FS_FILE)
    (parent_path : string) : res FileInfo :=
  name ← info_name entry;
  file_name ← decode_strict name;
  meta ← info_meta entry;
  meta ← attr meta;
  Ok {| fi_name := file_name;
        fi_path := path_join parent_path file_name;
        fi_size := meta_size meta;
        fi_accessed := safe_datetime_metadata (meta_atime meta);
        fi_modified := safe_datetime_metadata (meta_mtime meta);
        fi_created := safe_datetime_metadata (meta_crtime meta);
        fi_changed := safe_datetime_metadata (meta_ctime meta);
        fi_inode_item := meta_addr meta |}.

(** The value of [query_matches] computed for each entry: a non-empty
    [search_query] selects the free-text mode, otherwise the extension
    list decides ([None] is the absent argument). *)
Definition query_matches `{Unicode} (search_query : option string)
    (extensions : option (list string)) (file_name : string) : bool :=
  let file_extension := lower (snd (splitext file_name)) in
  match search_query with
  | Some (String c q as search_query) =>
      if startswith_char search_query "."
      then String.eqb file_extension (lower search_query)
      else str_contains (lower search_query) (lower file_name)
  | _ =>
      match extensions with
      | None => true
      | Some extensions =>
          str_in file_extension extensions || str_in "" extensions
      end
  end.

Definition meta_has_type (meta : option TSK_FS_META) (t : TSK_FS_META_TYPE)
  : bool :=
  match meta with
  | Some m => meta_type_eqb (meta_type m) t
  | None => false
  end.

(** The body of the per-entry [try] of [recursive_file_search]; [rec]
    is the recursive call on a sub-directory.  The result is the new
    [files_list]. *)
Definition search_entry `{Unicode} `{Codec}
    (rec : list TSK_FS_FILE -> string -> list FileInfo -> res (list FileInfo))
    (fs_info : FS_Info) (parent_path : string)
    (extensions : option (list string)) (search_query : option string)
    (files_list : list FileInfo) (entry : TSK_FS_FILE) : res (list FileInfo) :=
  name ← info_name entry;
  if name_is_dot name then Ok files_list
  else
    let file_name := decode_ignore name in
    let matches := query_matches search_query extensions file_name in
    meta ← info_meta entry;
    if meta_has_type meta TSK_FS_META_TYPE_DIR then
      Ok (match
            (m ← attr meta;
             sub_directory ← open_dir_inode fs_info (meta_addr m);
             rec sub_directory (path_join parent_path file_name) files_list)
          with
          | Ok files_list' => files_list'
          | Raise _ => files_list
          end)
    else if meta_has_type meta TSK_FS_META_TYPE_REG && matches then
      file_info ← get_file_metadata entry parent_path;
      Ok (files_list ++ [file_info])%list
    else Ok files_list.

(** [recursive_file_search].  [fuel] is the depth the interpreter
    allows: one level deeper the call raises (RecursionError), which the
    caller's [except] turns into skipping that sub-directory. *)
Fixpoint recursive_file_search `{Unicode} `{Codec}
    (fuel : nat) (fs_info : FS_Info)
    (extensions : option (list string)) (search_query : option string)
    (directory : list TSK_FS_FILE) (parent_path : string)
    (files_list : list FileInfo) : res (list FileInfo) :=
  match fuel with
  | O => Raise RuntimeError
  | S fuel' =>
      Ok (fold_left
            (fun files_list entry =>
               match search_entry
                       (recursive_file_search fuel' fs_info extensions search_query)
                       fs_info parent_path extensions search_query
                       files_list entry with
               | Ok files_list' => files_list'
               | Raise _ => files_list
               end)
            directory files_list)
  end.

(** ** [ImageHandler.get_registry_hive] and [get_windows_version] *)

Definition get_registry_hive (fs_info : FS_Info) (hive_path : string)
  : option bytes :=
  match
    (registry_file ← fs_open fs_info hive_path;
     meta ← attr (file_meta registry_file);
     match meta_size meta with
     | None => Raise TypeError
     | Some file_size =>
         if file_size >? LARGE_FILE_THRESHOLD
         then read_chunks (Z.to_nat file_size) registry_file [] file_size 0
         else read_random registry_file 0 file_size
     end)
  with
  | Ok hive_data => Some hive_data
  | Raise _ => None
  end.

(** The registry-parsing library: [Registry.Registry(path)] parses the
    bytes stored at [path]; [reg.open(key_path)] and
    [key.value(name).value()] may raise. *)
Record RegistryKey : Type := mk_key {
  key_value : string -> res string }.

Record RegistryHive : Type := mk_hive {
  reg_open : string -> res RegistryKey }.

Class RegistryLib : Type := {
  Registry_Registry : bytes -> res RegistryHive }.

(** The host's temporary directory: the files it holds, by name, and
    the next unused name. *)
Record HostState : Type := mk_host {
  hs_handler : ImageHandler;
  hs_tmp : gmap positive bytes;
  hs_next : positive }.

Definition on_handler {A} (m : M ImageHandler A) : M HostState A :=
  fun hs =>
    let '(r, h) := m (hs_handler hs) in
    (r, mk_host h (hs_tmp hs) (hs_next hs)).

(** [with tempfile.NamedTemporaryFile(delete=False) as f:
       f.write(data); path = f.name] *)
Definition NamedTemporaryFile_write (data : bytes)
  : M HostState (option positive) :=
  fun hs =>
    let path := hs_next hs in
    (Ok (Some path),
     mk_host (hs_handler hs) (<[path := data]> (hs_tmp hs)) (Pos.succ path)).

Definition os_path_exists (path : positive) : M HostState bool :=
  fun hs => (Ok (bool_decide (is_Some (hs_tmp hs !! path))), hs).

Definition os_remove (path : positive) : M HostState unit :=
  fun hs =>
    (Ok tt, mk_host (hs_handler hs) (delete path (hs_tmp hs)) (hs_next hs)).

Definition read_tmp (path : positive) : M HostState bytes :=
  fun hs =>
    match hs_tmp hs !! path with
    | Some data => (Ok data, hs)
    | None => (Raise IOError, hs)
    end.

(** The local helper [get_reg_value]: only a missing value is caught. *)
Definition get_reg_value (reg_key : RegistryKey) (value_name : string)
  : res string :=
  match key_value reg_key value_name with
  | Ok v => Ok v
  | Raise RegistryValueNotFoundException => Ok "N/A"
  | Raise e => Raise e
  end.

Definition nl : string := String (ascii_of_nat 10) "".

(** The [if temp_hive_path:] branch: parse the hive and format the
    identity string. *)
Definition parse_os_version `{RegistryLib} (hive : bytes) : res string :=
  reg ← Registry_Registry hive;
  key ← reg_open reg "Microsoft\Windows NT\CurrentVersion";
  product_name ← get_reg_value key "ProductName";
  current_version ← get_reg_value key "CurrentVersion";
  current_build ← get_reg_value key "CurrentBuild";
  registered_owner ← get_reg_value key "RegisteredOwner";
  csd_version ← get_reg_value key "CSDVersion";
  product_id ← get_reg_value key "ProductId";
  Ok (product_name +:+ " Version " +:+ current_version +:+ nl +:+
      "Build " +:+ current_build +:+ " " +:+ csd_version +:+ nl +:+
      "Owner: " +:+ registered_owner +:+ nl +:+
      "Product ID: " +:+ product_id).

Definition get_windows_version `{RegistryLib} (start_offset : Z)
  : M HostState (option string) :=
  fs_info ← on_handler (get_fs_info start_offset);
  match fs_info with
  | None => mret None
  | Some fs_info =>
      fs_type ← on_handler (get_fs_type start_offset);
      if negb (String.eqb fs_type "NTFS")
      then (mret None : M HostState (option string))
      else
        match get_registry_hive fs_info "/Windows/System32/config/SOFTWARE" with
        | None | Some [] => mret None
        | Some software_hive_data =>
            try_catch
              (temp_hive_path ← NamedTemporaryFile_write software_hive_data;
               os_version ←
                 match temp_hive_path with
                 | Some path =>
                     hive ← read_tmp path;
                     lift_res (parse_os_version hive)
                 | None => (mret "Failed to create temporary hive file"
                              : M HostState string)
                 end;
               _ ← match temp_hive_path with
                   | Some path =>
                       present ← os_path_exists path;
                       if (present : bool) then os_remove path
                       else (mret tt : M HostState unit)
                   | None => (mret tt : M HostState unit)
                   end;
               mret (Some os_version))
              (fun _ => mret (Some "Error in parsing OS version"))
        end
  end.

(** ** The ZIP helpers of [MainWindow] *)

(** A member of an archive as [zipfile] presents it: the stored path,
    the declared size, the timestamp tuple, and what extracting the
    member gives (its stored bytes, or an error). *)
Record ZipInfo : Type := mk_zipinfo {
  zi_filename : string;
  zi_file_size : Z;
  zi_date_time : option (Z * Z * Z * Z * Z * Z);
  zi_data : res bytes }.

(** [zipfile.ZipFile(io.BytesIO(content), 'r')]: the members in stored
    order, or [BadZipFile]. *)
Class ZipLib : Type := {
  ZipFile : bytes -> res (list ZipInfo) }.

(** [zip_file.read(name)]: the archive's name table keeps the last
    member stored under a name; a missing name raises [KeyError]. *)
Fixpoint getinfo (members : list ZipInfo) (name : string) : option ZipInfo :=
  match members with
  | [] => None
  | m :: rest =>
      match getinfo rest name with
      | Some m' => Some m'
      | None => if String.eqb (zi_filename m) name then Some m else None
      end
  end.

Definition zip_read (members : list ZipInfo) (name : string) : res bytes :=
  match getinfo members name with
  | Some m => zi_data m
  | None => Raise KeyError
  end.

(** [s.endswith('/')] and [s.rstrip('/')]. *)
Fixpoint endswith_slash (s : string) : bool :=
  match s with
  | EmptyString => false
  | String c EmptyString => Ascii.eqb c "/"
  | String _ s' => endswith_slash s'
  end.

Fixpoint rstrip_slash (s : string) : string :=
  match s with
  | EmptyString => EmptyString
  | String c s' =>
      match rstrip_slash s' with
      | EmptyString =>
          if Ascii.eqb c "/" then EmptyString else String c EmptyString
      | t => String c t
      end
  end.

(** The dictionary built for each member by [_get_zip_contents]. *)
Record ZipEntry : Type := mk_zip_entry {
  ze_name : string;
  ze_path : string;
  ze_size : Z;
  ze_is_directory : bool;
  ze_inode_number : option Z;
  ze_created : string;
  ze_accessed : string;
  ze_modified : string;
  ze_changed : string;
  ze_zip_path : string;
  ze_zip_parent_inode : Z;
  ze_zip_parent_offset : Z }.

Definition zip_timestamp (date_time : option (Z * Z * Z * Z * Z * Z))
  : string :=
  match date_time with
  | Some t =>
      match datetime_new t with
      | Ok dt => strftime dt
      | Raise _ => "N/A"
      end
  | None => "N/A"
  end.

(** The body of the loop over [zip_file.infolist()]. *)
Definition zip_entry (inode_number start_offset : Z) (zip_info : ZipInfo)
  : ZipEntry :=
  let created := zip_timestamp (zi_date_time zip_info) in
  {| ze_name := rstrip_slash (zi_filename zip_info);
     ze_path := zi_filename zip_info;
     ze_size := zi_file_size zip_info;
     ze_is_directory := endswith_slash (zi_filename zip_info);
     ze_inode_number := None;
     ze_created := created;
     ze_accessed := created;
     ze_modified := created;
     ze_changed := created;
     ze_zip_path := zi_filename zip_info;
     ze_zip_parent_inode := inode_number;
     ze_zip_parent_offset := start_offset |}.

(** [not file_content] for the first component of [get_file_content]. *)
Definition no_content (file_content : option bytes) : bool :=
  match file_content with
  | Some (_ :: _) => false
  | _ => true
  end.

Definition content_of (file_content : option bytes) : bytes :=
  match file_content with Some b => b | None => [] end.

(** [file_content[:2] == b'PK'] *)
Definition has_pk_signature (file_content : bytes) : bool :=
  bytes_eqb (firstn 2 file_content) [x50; x4b].

Definition _get_zip_contents `{ZipLib} (inode_number start_offset : Z)
  : M ImageHandler (option (list ZipEntry)) :=
  try_catch
    (r ← get_file_content inode_number start_offset;
     let file_content := fst r in
     if no_content file_content then mret None
     else if negb (has_pk_signature (content_of file_content)) then mret None
     else
       zip_file ← lift_res (ZipFile (content_of file_content));
       mret (Some (map (zip_entry inode_number start_offset) zip_file)))
    (fun _ => mret None).

Definition _extract_zip_entry `{ZipLib}
    (zip_parent_inode zip_parent_offset : Z) (zip_path : string)
  : M ImageHandler (option bytes) :=
  try_catch
    (r ← get_file_content zip_parent_inode zip_parent_offset;
     let file_content := fst r in
     if no_content file_content then mret None
     else
       zip_file ← lift_res (ZipFile (content_of file_content));
       entry_content ← lift_res (zip_read zip_file zip_path);
       mret (Some entry_content))
    (fun _ => mret None).

(** ** Concrete libraries used in the examples *)

(** A codec for seven-bit names: bytes above 127 are invalid. *)
Definition ascii_of_byte_opt (b : byte) : option ascii :=
  let n := Byte.to_N b in
  if (n <? 128)%N then Some (ascii_of_N n) else None.

Fixpoint ascii_decode_ignore (b : bytes) : string :=
  match b with
  | [] => EmptyString
  | x :: b' =>
      match ascii_of_byte_opt x with
      | Some c => String c (ascii_decode_ignore b')
      | None => ascii_decode_ignore b'
      end
  end.

Fixpoint ascii_decode_strict (b : bytes) : res string :=
  match b with
  | [] => Ok EmptyString
  | x :: b' =>
      match ascii_of_byte_opt x with
      | Some c => s ← ascii_decode_strict b'; Ok (String c s)
      | None => Raise UnicodeDecodeError
      end
  end.

Definition ascii_codec : Codec :=
  {| decode_ignore := ascii_decode_ignore;
     decode_strict := ascii_decode_strict |}.

(** The lower-casing of the examples, whose names are ASCII: no other
    character than [A]-[Z] has a lower-case form. *)
Definition ascii_case : Unicode :=
  {| lower := ascii_lower;
     lower_isascii := fun _ _ => eq_refl |}.

(** The bytes of a seven-bit string. *)
Definition encode (s : string) : bytes := list_byte_of_string s.

(** ** The volume catalog as a caller observes it *)

(** The handler [__init__] builds around an opened container. *)
Definition new_handler (path : string) (img : Img_Info) : ImageHandler :=
  mk_handler path img None false ∅ ∅ ∅ None false.

(** After [get_partitions()]: the returned list, [is_wiped()], and
    whether the direct probe left a filesystem in [self.fs_info]. *)
Record Catalog : Type := mk_catalog {
  volumes : list (Z * bytes * Z * Z);
  wiped : bool;
  bare_filesystem : bool }.

Definition discover (path : string) (img : Img_Info) : res Catalog :=
  let '(r, self) := get_partitions (new_handler path img) in
  vols ← r;
  Ok (mk_catalog vols (is_wiped self)
        (match fs_info self with Some _ => true | None => false end)).

(** A table has something usable when an entry bears a description. *)
Definition has_description (p : Partition) : bool :=
  match part_desc p with [] => false | _ :: _ => true end.

(** The three tiers as the design document words them: the probe is
    also expected after a table that parses but yields nothing usable. *)
Definition three_tier_as_stated (path : string) (img : Img_Info) : Prop :=
  exists c, discover path img = Ok c /\
    match Volume_Info img with
    | Ok v =>
        if existsb has_description v
        then wiped c = false /\ volumes c <> []
        else
          match FS_Info_at img 0 with
          | Ok _ => wiped c = false /\ bare_filesystem c = true /\ volumes c = []
          | Raise _ => wiped c = true /\ volumes c = []
          end
    | Raise _ =>
        match FS_Info_at img 0 with
        | Ok _ => wiped c = false /\ bare_filesystem c = true /\ volumes c = []
        | Raise _ => wiped c = true /\ volumes c = []
        end
    end.

(** ** A small evidence image used in the examples *)

Definition example_meta (t : TSK_FS_META_TYPE) (addr : Z) (size : Z)
    (time : option Z) : TSK_FS_META :=
  mk_meta t addr (Some size) time time time time.

(** The meta block of a regular file. *)
Definition example_reg (addr size : Z) (time : option Z) : TSK_FS_META :=
  example_meta TSK_FS_META_TYPE_REG addr size time.

(** A directory's meta block, stamped 2023-11-14 22:13:20 UTC. *)
Definition example_dir (addr : Z) : TSK_FS_META :=
  example_meta TSK_FS_META_TYPE_DIR addr 0 (Some 1700000000).

Definition example_entry (name : string) (m : option TSK_FS_META)
  : TSK_FS_FILE :=
  mk_entry (Ok (encode name)) (Ok m).

(** An entry whose name block is missing: [entry.info.name.name] raises. *)
Definition broken_entry : TSK_FS_FILE :=
  mk_entry (Raise AttributeError) (Ok None).

(** A file whose reads return the requested range of [data]. *)
Definition file_of (m : option TSK_FS_META) (data : bytes) : File :=
  mk_file m (fun offset size => Ok (byte_range data offset size)).

Definition example_root : list TSK_FS_FILE :=
  [ example_entry "." (Some (example_dir 5));
    example_entry ".." (Some (example_dir 5));
    example_entry "report.TXT" (Some (example_reg 64 5 (Some 1700000000)));
    broken_entry;
    example_entry "empty" (Some (example_reg 66 0 (Some 0)));
    example_entry "docs" (Some (example_meta TSK_FS_META_TYPE_DIR 65 0 None)) ].

Definition example_docs : list TSK_FS_FILE :=
  [ example_entry "photo.jpg" (Some (example_reg 70 3 (Some 0)));
    example_entry "README" (Some (example_reg 71 2 (Some 86400))) ].

(** A directory whose only entry beside the synthetic ones is broken. *)
Definition example_damaged : list TSK_FS_FILE :=
  [ example_entry "." (Some (example_dir 80));
    example_entry ".." (Some (example_dir 5));
    broken_entry ].

Definition example_fs : FS_Info :=
  mk_fs TSK_FS_TYPE_NTFS
    (fun path => if String.eqb path "/" then Ok example_root else Raise IOError)
    (fun inode =>
       if inode =? 5 then Ok example_root
       else if inode =? 65 then Ok example_docs
       else if inode =? 80 then Ok example_damaged
       else Raise IOError)
    (fun inode =>
       if inode =? 64
       then Ok (file_of (Some (example_reg 64 5 (Some 1700000000)))
                  (encode "hello"))
       else if inode =? 66
       then Ok (file_of (Some (example_reg 66 0 (Some 0))) [])
       else Raise IOError)
    (fun path => Raise IOError).

Definition no_read : Z -> Z -> res (option bytes) := fun _ _ => Raise IOError.

(** A partitioned image: an undescribed slot and one NTFS volume. *)
Definition example_img : Img_Info :=
  mk_img
    (Ok [ mk_partition 0 [] 0 1;
          mk_partition 2 (encode "NTFS / exFAT (0x07)") 2048 204800 ])
    (fun offset => if offset =? 2048 * 512 then Ok example_fs else Raise IOError)
    no_read.

(** No volume table, a filesystem at offset 0. *)
Definition bare_img : Img_Info :=
  mk_img (Raise IOError)
    (fun offset => if offset =? 0 then Ok example_fs else Raise IOError)
    no_read.

(** A file one byte above the large-file threshold, alone on a bare
    filesystem. *)
Definition big_data : bytes :=
  repeat x00 (Z.to_nat (LARGE_FILE_THRESHOLD + 1)).

Definition big_meta : TSK_FS_META :=
  example_reg 64 (LARGE_FILE_THRESHOLD + 1) (Some 1700000000).

Definition big_file : File := file_of (Some big_meta) big_data.

Definition big_fs : FS_Info :=
  mk_fs TSK_FS_TYPE_NTFS
    (fun _ => Raise IOError) (fun _ => Raise IOError)
    (fun inode => if inode =? 64 then Ok big_file else Raise IOError)
    (fun _ => Raise IOError).

Definition big_img : Img_Info :=
  mk_img (Raise IOError) (fun _ => Ok big_fs) no_read.

(** A file of the same size whose first read returns one byte and
    whose every other read fails. *)
Definition faulty_file : File :=
  mk_file (Some big_meta)
    (fun offset size => if offset =? 0 then Ok [x00] else Raise IOError).

Definition faulty_fs : FS_Info :=
  mk_fs TSK_FS_TYPE_NTFS
    (fun _ => Raise IOError) (fun _ => Raise IOError)
    (fun inode => if inode =? 64 then Ok faulty_file else Raise IOError)
    (fun _ => Raise IOError).

Definition faulty_img : Img_Info :=
  mk_img (Raise IOError) (fun _ => Ok faulty_fs) no_read.

(** Neither a volume table nor a filesystem. *)
Definition wiped_img : Img_Info :=
  mk_img (Raise IOError) (fun _ => Raise IOError) no_read.

(** A volume table that parses but has no entry, over a filesystem at
    offset 0. *)
Definition empty_table_img : Img_Info :=
  mk_img (Ok [])
    (fun offset => if offset =? 0 then Ok example_fs else Raise IOError)
    no_read.

(** A volume table that parses with a single undescribed slot, and no
    filesystem anywhere. *)
Definition blank_table_img : Img_Info :=
  mk_img (Ok [mk_partition 0 [] 0 2048]) (fun _ => Raise IOError) no_read.

(** ** The states a handler goes through *)

(** The methods that touch the state of an [ImageHandler]. *)
Inductive call : Type :=
| Call_ensure_volume_info_loaded
| Call_get_partitions
| Call_get_fs_info (start_offset : Z)
| Call_has_filesystem (start_offset : Z)
| Call_get_fs_type (start_offset : Z)
| Call_get_directory_contents (start_offset : Z) (inode_number : option Z)
| Call_get_file_content (inode_number offset : Z)
| Call_clear_cache.

(** The handler after a call. *)
Definition after `{Codec} (c : call) (self : ImageHandler) : ImageHandler :=
  match c with
  | Call_ensure_volume_info_loaded => snd (_ensure_volume_info_loaded self)
  | Call_get_partitions => snd (get_partitions self)
  | Call_get_fs_info o => snd (get_fs_info o self)
  | Call_has_filesystem o => snd (has_filesystem o self)
  | Call_get_fs_type o => snd (get_fs_type o self)
  | Call_get_directory_contents o i => snd (get_directory_contents o i self)
  | Call_get_file_content i o => snd (get_file_content i o self)
  | Call_clear_cache => snd (clear_cache self)
  end.

(** The handlers reachable from the one [__init__] builds. *)
Inductive reachable `{Codec} (path : string) (img : Img_Info)
  : ImageHandler -> Prop :=
| reachable_init : reachable path img (new_handler path img)
| reachable_call (c : call) (self : ImageHandler) :
    reachable path img self -> reachable path img (after c self).

(** Both caches hold what the library answered: a memoised filesystem
    is the mount at its offset, and a cached listing is the listing of
    a directory that opened. *)
Definition cache_sound `{Codec} (img : Img_Info) (self : ImageHandler) : Prop :=
  img_info self = img /\
  (forall o fs, fs_info_cache self !! o = Some fs ->
     FS_Info_at img (o * 512) = Ok fs) /\
  (forall o i entries, directory_cache self !! (o, i) = Some entries ->
     exists fs directory,
       FS_Info_at img (o * 512) = Ok fs /\
       open_directory fs i = Ok directory /\
       entries = list_entries directory []).

(** Mounting at [start_offset] or opening the directory fails. *)
Definition open_fails (img : Img_Info) (start_offset : Z)
    (inode_number : option Z) : Prop :=
  match FS_Info_at img (start_offset * 512) with
  | Raise _ => True
  | Ok fs => is_Ok (open_directory fs inode_number) = false
  end.

(** ** Rows of a listing *)

(** The row [get_directory_contents] appends for an entry, if any. *)
Definition entry_row `{Codec} (entry : TSK_FS_FILE) : option DirEntry :=
  match listing_entry entry with
  | Ok (Some d) => Some d
  | _ => None
  end.

(** The synthetic entries [.] and [..]. *)
Definition is_synthetic (entry : TSK_FS_FILE) : bool :=
  match info_name entry with
  | Ok name => name_is_dot name
  | Raise _ => false
  end.

(** Metadata extraction raises for the entry. *)
Definition entry_raises `{Codec} (entry : TSK_FS_FILE) : bool :=
  negb (is_Ok (listing_entry entry)).

(** Fault isolation as the design document words it: with exactly one
    raising entry [k] in a directory that opens, the listing is made of
    the rows of the other entries, synthetic ones left out, and is
    never empty. *)
Definition fault_isolation_as_stated `{Codec} (img : Img_Info)
    (self : ImageHandler) (start_offset : Z) (inode_number : option Z) : Prop :=
  forall fs before k rest,
    FS_Info_at img (start_offset * 512) = Ok fs ->
    open_directory fs inode_number = Ok (before ++ k :: rest) ->
    entry_raises k = true ->
    (forall x, In x (before ++ rest) -> entry_raises x = false) ->
    exists entries,
      fst (get_directory_contents start_offset inode_number self) = Ok entries /\
      entries = omap entry_row (before ++ rest) /\
      entries <> [].

(** ** The search filter as the design document words it *)

(** Mode (a) as stated: with an allow-list and no query, a file matches
    iff its lower-cased extension is a member of the list. *)
Definition allow_list_as_stated `{Unicode} (extensions : list string)
    (file_name : string) : Prop :=
  query_matches None (Some extensions) file_name = true <->
  In (lower (snd (splitext file_name))) extensions.

(** ** An example archive and an example registry *)

Definition example_zip_blob : bytes :=
  [x50; x4b; x03; x04] ++ encode "a.txt|dir/|dir/b.txt".

Definition example_members : list ZipInfo :=
  [ mk_zipinfo "a.txt" 5 (Some (2024, 1, 31, 12, 0, 0)) (Ok (encode "alpha"));
    mk_zipinfo "dir/" 0 (Some (1980, 0, 0, 0, 0, 0)) (Ok []);
    mk_zipinfo "dir/b.txt" 4 (Some (2024, 2, 29, 23, 59, 58)) (Ok (encode "beta")) ].

(** A [zipfile] that knows one archive. *)
Definition example_zip_lib : ZipLib :=
  {| ZipFile := fun content =>
       if bytes_eqb content example_zip_blob then Ok example_members
       else Raise BadZipFile |}.

(** A filesystem holding the archive (inode 72), a file that only
    starts like one (inode 73) and a text file (inode 64). *)
Definition archive_fs : FS_Info :=
  mk_fs TSK_FS_TYPE_EXT4
    (fun _ => Raise IOError) (fun _ => Raise IOError)
    (fun inode =>
       if inode =? 72
       then Ok (file_of (Some (example_reg 72
                                 (len example_zip_blob) (Some 1700000000)))
                  example_zip_blob)
       else if inode =? 73
       then Ok (file_of (Some (example_reg 73 6 (Some 1700000000)))
                  (encode "PKjunk"))
       else if inode =? 64
       then Ok (file_of (Some (example_reg 64 5 (Some 1700000000)))
                  (encode "hello"))
       else Raise IOError)
    (fun _ => Raise IOError).

Definition archive_img : Img_Info :=
  mk_img (Raise IOError)
    (fun offset => if offset =? 0 then Ok archive_fs else Raise IOError)
    no_read.

Definition example_key : RegistryKey :=
  mk_key (fun value_name =>
            if String.eqb value_name "ProductName" then Ok "Windows 10 Pro"
            else if String.eqb value_name "CurrentVersion" then Ok "6.3"
            else if String.eqb value_name "CurrentBuild" then Ok "19045"
            else if String.eqb value_name "RegisteredOwner" then Ok "analyst"
            else if String.eqb value_name "ProductId" then Ok "00330-80000"
            else Raise RegistryValueNotFoundException).

Definition example_hive : RegistryHive :=
  mk_hive (fun key_path =>
             if String.eqb key_path "Microsoft\Windows NT\CurrentVersion"
             then Ok example_key
             else Raise RegistryKeyNotFoundException).

(** A registry parser that accepts one hive. *)
Definition example_registry_lib : RegistryLib :=
  {| Registry_Registry := fun data =>
       if bytes_eqb data (encode "regf:software") then Ok example_hive
       else Raise RegistryParseException |}.

(** An NTFS volume whose SOFTWARE hive holds [hive]. *)
Definition windows_fs (hive : bytes) : FS_Info :=
  mk_fs TSK_FS_TYPE_NTFS
    (fun _ => Raise IOError) (fun _ => Raise IOError) (fun _ => Raise IOError)
    (fun path =>
       if String.eqb path "/Windows/System32/config/SOFTWARE"
       then Ok (file_of (Some (example_reg 300
                                 (len hive) (Some 1700000000))) hive)
       else Raise IOError).

Definition windows_img (hive : bytes) : Img_Info :=
  mk_img (Raise IOError)
    (fun offset => if offset =? 0 then Ok (windows_fs hive) else Raise IOError)
    no_read.

(** A host with an empty temporary directory. *)
Definition windows_host (hive : bytes) : HostState :=
  mk_host (new_handler "win.dd" (windows_img hive)) ∅ 1%positive.

(** * Further functions of the access layer *)

(** ** [ImageHandler.check_partition_contents] and [load_image] *)

(** [check_partition_contents]: whether iterating the root directory
    yields anything at all, the synthetic entries included. *)
Definition check_partition_contents (partition_start_offset : Z)
  : M ImageHandler bool :=
  fs ← get_fs_info partition_start_offset;
  match fs with
  | Some fs =>
      match open_dir_path fs "/" with
      | Ok (_ :: _) => mret true
      | Ok [] => mret false
      | Raise _ => mret false
      end
  | None => mret false
  end.

(** [load_image]: the container is open since [__init__], so that only
    the volume information is left to load. *)
Definition load_image : M ImageHandler unit := _ensure_volume_info_loaded.

(** ** What sound handlers answer *)

(** The listing of a directory as the image determines it. *)
Definition listing_of `{Codec} (img : Img_Info) (start_offset : Z)
    (inode_number : option Z) : list DirEntry :=
  match FS_Info_at img (start_offset * 512) with
  | Ok fs =>
      match open_directory fs inode_number with
      | Ok directory => omap entry_row directory
      | Raise _ => []
      end
  | Raise _ => []
  end.

(** The volume information held by a handler is what the image gave
    when it was loaded, and nothing before that. *)
Definition volume_sound (img : Img_Info) (self : ImageHandler) : Prop :=
  img_info self = img /\
  if _volume_info_loaded self then
    match Volume_Info img with
    | Ok v =>
        volume_info self = Some v /\ fs_info self = None /\
        is_wiped_image self = false
    | Raise _ =>
        volume_info self = None /\
        match FS_Info_at img 0 with
        | Ok fs => fs_info self = Some fs /\ is_wiped_image self = false
        | Raise _ => fs_info self = None /\ is_wiped_image self = true
        end
    end
  else
    volume_info self = None /\ fs_info self = None /\
    is_wiped_image self = false.

(** The volumes of an image as [get_partitions] reports them. *)
Definition partitions_of (img : Img_Info) : list (Z * bytes * Z * Z) :=
  match Volume_Info img with
  | Ok v => collect_partitions v
  | Raise _ => []
  end.

(** ** The walk over a directory without sub-directories *)

(** The record the walk adds for an entry of such a directory. *)
Definition walk_row `{Unicode} `{Codec} (parent_path : string)
    (extensions : option (list string)) (search_query : option string)
    (entry : TSK_FS_FILE) : option FileInfo :=
  match info_name entry, info_meta entry with
  | Ok name, Ok meta =>
      if negb (name_is_dot name)
         && meta_has_type meta TSK_FS_META_TYPE_REG
         && query_matches search_query extensions (decode_ignore name)
      then match get_file_metadata entry parent_path with
           | Ok file_info => Some file_info
           | Raise _ => None
           end
      else None
  | _, _ => None
  end.

(** No entry of the directory is a sub-directory. *)
Definition is_subdirectory (entry : TSK_FS_FILE) : bool :=
  match info_name entry, info_meta entry with
  | Ok name, Ok meta =>
      negb (name_is_dot name) && meta_has_type meta TSK_FS_META_TYPE_DIR
  | _, _ => false
  end.

(** ** Registry values with their placeholder *)

(** The text [get_windows_version] shows for a value: its data, or
    "N/A" when the key has no such value. *)
Definition value_or_na (reg_key : RegistryKey) (value_name : string) : string :=
  match key_value reg_key value_name with
  | Ok v => v
  | Raise _ => "N/A"
  end.

(** The names looked up under the CurrentVersion key. *)
Definition identity_values : list string :=
  ["ProductName"; "CurrentVersion"; "CurrentBuild"; "RegisteredOwner";
   "CSDVersion"; "ProductId"].


(** ** [EWFImgInfo]: reads over a segmented container *)

(** The pyewf handle: the media of the container and the position of
    its single read cursor.  [seek] refuses a negative offset; [read]
    returns the bytes at the cursor, fewer at the end of the media, and
    moves the cursor past them. *)
Record EwfHandle : Type := mk_ewf_handle {
  ewf_media : bytes;
  ewf_position : Z }.

(** [EWFImgInfo]: the handle and the cached offset of the last seek. *)
Record EWFImgInfo : Type := mk_ewf_img {
  _ewf_handle : EwfHandle;
  _last_offset : Z }.

(** [EWFImgInfo.__init__] over a freshly opened handle. *)
Definition EWFImgInfo_init (media : bytes) : EWFImgInfo :=
  mk_ewf_img (mk_ewf_handle media 0) (-1).

Definition ewf_seek (offset : Z) : M EWFImgInfo unit :=
  fun self =>
    if offset <? 0 then (Raise IOError, self)
    else (Ok tt,
          mk_ewf_img (mk_ewf_handle (ewf_media (_ewf_handle self)) offset)
            (_last_offset self)).

Definition ewf_handle_read (size : Z) : M EWFImgInfo bytes :=
  fun self =>
    let h := _ewf_handle self in
    let data := byte_range (ewf_media h) (ewf_position h) size in
    (Ok data,
     mk_ewf_img (mk_ewf_handle (ewf_media h) (ewf_position h + len data))
       (_last_offset self)).

Definition set_last_offset (offset : Z) : M EWFImgInfo unit :=
  fun self => (Ok tt, mk_ewf_img (_ewf_handle self) offset).

(** The [while remaining > 0] loop of [EWFImgInfo.read]; it returns the
    data and the offset reached.  As in [read_chunks],
    [Z.to_nat remaining] iterations are enough. *)
Fixpoint ewf_read_chunks (fuel : nat) (data : bytes)
    (remaining current_offset : Z) : M EWFImgInfo (bytes * Z) :=
  match fuel with
  | O => mret (data, current_offset)
  | S fuel' =>
      if remaining >? 0 then
        let chunk_size := Z.min remaining READ_BUFFER_SIZE in
        _ ← ewf_seek current_offset;
        chunk ← ewf_handle_read chunk_size;
        match chunk with
        | [] => mret (data, current_offset)
        | _ :: _ =>
            ewf_read_chunks fuel' (data ++ chunk)
              (remaining - len chunk) (current_offset + len chunk)
        end
      else mret (data, current_offset)
  end.

(** [EWFImgInfo.read(offset, size)] *)
Definition EWFImgInfo_read (offset size : Z) : M EWFImgInfo bytes :=
  self ← get;
  _ ← (if negb (_last_offset self =? offset)
       then _ ← ewf_seek offset; set_last_offset offset
       else (mret tt : M EWFImgInfo unit));
  if size >? READ_BUFFER_SIZE then
    r ← ewf_read_chunks (Z.to_nat size) [] size offset;
    _ ← set_last_offset (snd r);
    mret (fst r)
  else
    data ← ewf_handle_read size;
    _ ← set_last_offset
          (match data with _ :: _ => offset + len data | [] => offset end);
    mret data.

(** [EWFImgInfo.get_size] *)
Definition EWFImgInfo_get_size (self : EWFImgInfo) : Z :=
  len (ewf_media (_ewf_handle self)).

(** A run of reads, one after the other, on the same object. *)
Fixpoint EWFImgInfo_reads (requests : list (Z * Z)) : M EWFImgInfo (list bytes) :=
  match requests with
  | [] => mret []
  | (offset, size) :: rest =>
      data ← EWFImgInfo_read offset size;
      others ← EWFImgInfo_reads rest;
      mret (data :: others)
  end.

(** The cached offset is that of the cursor, or the initial [-1]. *)
Definition ewf_cursor_cached (self : EWFImgInfo) : Prop :=
  _last_offset self = -1 \/
  _last_offset self = ewf_position (_ewf_handle self).


(** ** [ImageHandler.calculate_hashes] *)

(** hashlib: a hash object is fed with [update] and read with
    [hexdigest]; feeding chunks one after the other is feeding their
    concatenation, and feeding nothing changes nothing. *)
Class HashLib : Type := {
  hash_object : Type;
  hashlib_md5 : hash_object;
  hashlib_sha1 : hash_object;
  hashlib_sha256 : hash_object;
  update : hash_object -> bytes -> hash_object;
  hexdigest : hash_object -> string;
  update_app : forall h a b, update (update h a) b = update h (a ++ b)%list;
  update_nil : forall h, update h [] = h }.

(** What [pyewf] gives for the segments of a path: the media and the
    hash values stored in the container. *)
Record EwfFile : Type := mk_ewf_file {
  ef_media : bytes;
  get_hash_value : string -> res (option string) }.

(** The dictionary [calculate_hashes] returns. *)
Record Hashes : Type := mk_hashes {
  computed_md5 : string;
  computed_sha1 : string;
  computed_sha256 : string;
  hashes_size : Z;
  hashes_path : string;
  stored_md5 : option string;
  stored_sha1 : option string }.

(** The reading loop, the same for both kinds of image: [read] returns
    the next [READ_BUFFER_SIZE] bytes from the position on, fewer at the
    end, and the loop ends with the first empty chunk.  Every chunk that
    is not empty moves the position, so [length media + 1] iterations
    are enough. *)
Fixpoint hash_chunks `{HashLib} (fuel : nat) (media : bytes) (position : Z)
    (hash_md5 hash_sha1 hash_sha256 : hash_object) (size : Z)
  : hash_object * hash_object * hash_object * Z :=
  match fuel with
  | O => (hash_md5, hash_sha1, hash_sha256, size)
  | S fuel' =>
      match byte_range media position READ_BUFFER_SIZE with
      | [] => (hash_md5, hash_sha1, hash_sha256, size)
      | (_ :: _) as chunk =>
          hash_chunks fuel' media (position + len chunk)
            (update hash_md5 chunk) (update hash_sha1 chunk)
            (update hash_sha256 chunk) (size + len chunk)
      end
  end.

(** The [try] around the two stored values: the first lookup that
    raises leaves the values not yet assigned at [None]. *)
Definition stored_hashes (ewf_handle : EwfFile)
  : option string * option string :=
  match get_hash_value ewf_handle "MD5" with
  | Raise _ => (None, None)
  | Ok stored_md5 =>
      match get_hash_value ewf_handle "SHA1" with
      | Raise _ => (stored_md5, None)
      | Ok stored_sha1 => (stored_md5, stored_sha1)
      end
  end.

(** [calculate_hashes]; [ewf_opened] is what opening the segments of
    [image_path] with pyewf gives, [raw_opened] the content of the file
    at [image_path], or the error of [open]. *)
Definition calculate_hashes `{Unicode} `{HashLib} (ewf_opened : res EwfFile)
    (raw_opened : res bytes) (self : ImageHandler) : res Hashes :=
  image_type ← get_image_type (image_path self);
  '(stored, (hash_md5, hash_sha1, hash_sha256, size)) ←
    (if String.eqb image_type "ewf" then
       ewf_handle ← ewf_opened;
       Ok (stored_hashes ewf_handle,
           hash_chunks (S (length (ef_media ewf_handle)))
             (ef_media ewf_handle) 0
             hashlib_md5 hashlib_sha1 hashlib_sha256 0)
     else if String.eqb image_type "raw" then
       f ← raw_opened;
       Ok ((None, None),
           hash_chunks (S (length f)) f 0
             hashlib_md5 hashlib_sha1 hashlib_sha256 0)
     else
       Ok ((None, None), (hashlib_md5, hashlib_sha1, hashlib_sha256, 0)));
  Ok {| computed_md5 := hexdigest hash_md5;
        computed_sha1 := hexdigest hash_sha1;
        computed_sha256 := hexdigest hash_sha256;
        hashes_size := size;
        hashes_path := image_path self;
        stored_md5 := fst stored;
        stored_sha1 := snd stored |}.

(** A checksum with the interface of a hash, for the examples. *)
Definition checksum_update (h : Z) (data : bytes) : Z :=
  fold_left (fun acc b => (acc * 31 + Z.of_N (Byte.to_N b)) mod 65521) data h.

Definition example_hashlib : HashLib :=
  {| hash_object := Z;
     hashlib_md5 := 1;
     hashlib_sha1 := 2;
     hashlib_sha256 := 3;
     update := checksum_update;
     hexdigest := fun h => pad4 (h mod 10000);
     update_app := fun h a b => eq_sym (fold_left_app _ a b h);
     update_nil := fun h => eq_refl |}.

(** A two-segment container with a stored MD5 and no stored SHA1. *)
Definition example_ewf_file : EwfFile :=
  {| ef_media := encode "EVF segment";
     get_hash_value := fun name =>
       if String.eqb name "MD5" then Ok (Some "0f343b0931126a20f133d67c2b018a3b")
       else Raise KeyError |}.


(** ** [MainWindow._is_zip_file] *)

(** [s.endswith(suffix)] *)
Fixpoint endswith (s suffix : string) : bool :=
  String.eqb s suffix ||
  match s with
  | EmptyString => false
  | String _ s' => endswith s' suffix
  end.

(** The extensions [_is_zip_file] accepts without reading the file. *)
Definition archive_extensions : list string :=
  [".zip"; ".jar"; ".war"; ".ear"; ".apk"].

(** [_is_zip_file]: the extension first, then the first bytes of the
    content; whatever the reading raises is swallowed. *)
Definition _is_zip_file `{Unicode}
    (entry_name : string) (inode_number start_offset : Z)
  : M ImageHandler bool :=
  if existsb (endswith (lower entry_name)) archive_extensions then mret true
  else
    try_catch
      (r ← get_file_content inode_number start_offset;
       let file_content := fst r in
       if negb (no_content file_content)
          && (len (content_of file_content) >=? 4)
       then
         if has_pk_signature (content_of file_content) then mret true
         else mret false
       else mret false)
      (fun _ => mret false).

(** ** [MainWindow.export_file] *)

(** The host's disk as the export sees it: the files by path, and the
    paths [open(path, 'wb')] refuses. *)
Record ExportHost : Type := mk_export_host {
  eh_handler : ImageHandler;
  eh_files : gmap string bytes;
  eh_refused : string -> bool }.

Definition on_image_handler {A} (m : M ImageHandler A) : M ExportHost A :=
  fun hs =>
    let '(r, h) := m (eh_handler hs) in
    (r, mk_export_host h (eh_files hs) (eh_refused hs)).

(** [with open(file_path, 'wb') as f: f.write(data)] *)
Definition open_wb_write (file_path : string) (data : bytes)
  : M ExportHost unit :=
  fun hs =>
    if eh_refused hs file_path then (Raise IOError, hs)
    else (Ok tt,
          mk_export_host (eh_handler hs)
            (<[file_path := data]> (eh_files hs)) (eh_refused hs)).

Definition export_file (inode_number offset : Z) (dest_dir file_name : string)
  : M ExportHost unit :=
  r ← on_image_handler (get_file_content inode_number offset);
  let file_content := fst r in
  if negb (no_content file_content) then
    let file_path := path_join dest_dir file_name in
    open_wb_write file_path (content_of file_content)
  else mret tt.


(** ** [MainWindow._load_partitions_worker] *)

(** An element of ['partitions'] in the dictionary the worker returns. *)
Record PartitionRow : Type := mk_partition_row {
  pr_addr : Z;
  pr_desc : string;
  pr_start : Z;
  pr_end : Z;
  pr_length : Z;
  pr_readable_size : option string }.

(** The dictionary itself: the regular one, or the one built in
    [except] around the error. *)
Inductive WorkerResult : Type :=
| worker_result (has_partitions has_filesystem : bool)
    (partitions : list PartitionRow)
| worker_error (e : exn).

(** The loop over the partitions.  [get_readable_size] is passed in:
    the text of a size comes out of floating-point formatting, which is
    not modelled here. *)
Fixpoint partition_rows `{Codec} (get_readable_size : Z -> res (option string))
    (partitions : list (Z * bytes * Z * Z)) (partition_data : list PartitionRow)
  : res (list PartitionRow) :=
  match partitions with
  | [] => Ok partition_data
  | (addr, desc, start, length) :: rest =>
      let end_ := start + length - 1 in
      let size_in_bytes := length * SECTOR_SIZE in
      readable_size ← get_readable_size size_in_bytes;
      desc_str ← decode_strict desc;
      partition_rows get_readable_size rest
        (partition_data ++
           [ {| pr_addr := addr;
                pr_desc := desc_str;
                pr_start := start;
                pr_end := end_;
                pr_length := length;
                pr_readable_size := readable_size |} ])%list
  end.

Definition _load_partitions_worker `{Codec}
    (get_readable_size : Z -> res (option string))
  : M ImageHandler WorkerResult :=
  try_catch
    (partitions ← get_partitions;
     match partitions with
     | [] =>
         has_fs ← has_filesystem 0;
         mret (worker_result false has_fs [])
     | _ :: _ =>
         partition_data ←
           lift_res (partition_rows get_readable_size partitions []);
         mret (worker_result true false partition_data)
     end)
    (fun e => mret (worker_error e)).

(** What the row of a volume holds. *)
Definition row_of `{Codec} (get_readable_size : Z -> res (option string))
    (p : Z * bytes * Z * Z) (row : PartitionRow) : Prop :=
  let '(addr, desc, start, length) := p in
  pr_addr row = addr /\ pr_start row = start /\
  pr_end row = start + length - 1 /\ pr_length row = length /\
  decode_strict desc = Ok (pr_desc row) /\
  get_readable_size (length * SECTOR_SIZE) = Ok (pr_readable_size row).

(** The text of a size in the examples. *)
Definition example_readable_size (size_in_bytes : Z) : res (option string) :=
  Ok (if size_in_bytes <? 1024 ^ 5 then Some "size" else None).


(** ** [ImageHandler.list_files] and [search_files] *)

(** [partition.flags], which the entries of [Volume_Info] above do not
    carry, and the flag of an allocated volume. *)
Class VolumeFlags : Type := {
  part_flags : Partition -> Z }.

Definition TSK_VS_PART_FLAG_ALLOC : Z := 1.

(** [open_image]: the container is opened anew; [reopened] is what that
    gives. *)
Definition open_image `{Unicode} (reopened : res Img_Info) (self : ImageHandler)
  : res Img_Info :=
  _ ← get_image_type (image_path self);
  reopened.

(** [try: m except IOError: h]: any other exception goes through. *)
Definition except_IOError {S A} (m : M S A) (h : M S A) : M S A :=
  fun s =>
    match m s with
    | (Raise IOError, s') => h s'
    | r => r
    end.

(** [process_partition] and [process_partition_search] differ in the
    arguments they hand to the walk; the state is [files_list], which
    the walk extends in place. *)
Definition process_partition_with `{Unicode} `{Codec}
    (fuel : nat) (img_info : Img_Info)
    (offset : Z) (extensions : option (list string))
    (search_query : option string) : M (list FileInfo) unit :=
  except_IOError
    (fun files_list =>
       match
         (fs_info ← FS_Info_at img_info offset;
          root ← open_dir_path fs_info "/";
          recursive_file_search fuel fs_info extensions search_query
            root "/" files_list)
       with
       | Ok files_list' => (Ok tt, files_list')
       | Raise e => (Raise e, files_list)
       end)
    (mret tt).

Definition process_partition `{Unicode} `{Codec}
    (fuel : nat) (img_info : Img_Info)
    (offset : Z) (extensions : option (list string))
  : M (list FileInfo) unit :=
  process_partition_with fuel img_info offset extensions None.

Definition process_partition_search `{Unicode} `{Codec} (fuel : nat)
    (img_info : Img_Info) (offset : Z) (search_query : option string)
  : M (list FileInfo) unit :=
  process_partition_with fuel img_info offset None search_query.

(** [for partition in volume_info: if partition.flags == ...] *)
Fixpoint for_partitions `{VolumeFlags} (process : Z -> M (list FileInfo) unit)
    (volume_info : list Partition) : M (list FileInfo) unit :=
  match volume_info with
  | [] => mret tt
  | partition :: rest =>
      _ ← (if part_flags partition =? TSK_VS_PART_FLAG_ALLOC
           then process (part_start partition * SECTOR_SIZE)
           else mret tt);
      for_partitions process rest
  end.

(** The body shared by [list_files] and [search_files]; [fuel] is the
    depth left to the walk. *)
Definition files_of_image `{Unicode} `{VolumeFlags}
    (process : Img_Info -> Z -> M (list FileInfo) unit)
    (reopened : res Img_Info) (self : ImageHandler) : res (list FileInfo) :=
  img_info ← open_image reopened self;
  let '(r, files_list) :=
    except_IOError
      (volume_info ← lift_res (Volume_Info img_info);
       for_partitions (process img_info) volume_info)
      (process img_info 0) [] in
  _ ← r;
  Ok files_list.

Definition list_files `{Unicode} `{Codec} `{VolumeFlags} (fuel : nat)
    (reopened : res Img_Info) (extensions : option (list string))
    (self : ImageHandler) : res (list FileInfo) :=
  files_of_image
    (fun img_info offset => process_partition fuel img_info offset extensions)
    reopened self.

Definition search_files `{Unicode} `{Codec} `{VolumeFlags} (fuel : nat)
    (reopened : res Img_Info) (search_query : option string)
    (self : ImageHandler) : res (list FileInfo) :=
  files_of_image
    (fun img_info offset =>
       process_partition_search fuel img_info offset search_query)
    reopened self.

(** The files the walk finds on the filesystem at a byte offset, none
    when it does not mount or its root does not open. *)
Definition partition_files `{Unicode} `{Codec}
    (fuel : nat) (img : Img_Info) (offset : Z)
    (extensions : option (list string)) (search_query : option string)
  : list FileInfo :=
  match FS_Info_at img offset with
  | Ok fs_info =>
      match open_dir_path fs_info "/" with
      | Ok root =>
          match recursive_file_search fuel fs_info extensions search_query
                  root "/" [] with
          | Ok found => found
          | Raise _ => []
          end
      | Raise _ => []
      end
  | Raise _ => []
  end.

(** The library reports its failures on an image as [IOError]. *)
Definition fails_with_IOError (img : Img_Info) : Prop :=
  (forall e, Volume_Info img = Raise e -> e = IOError) /\
  (forall offset e, FS_Info_at img offset = Raise e -> e = IOError) /\
  (forall offset fs_info e,
     FS_Info_at img offset = Ok fs_info ->
     open_dir_path fs_info "/" = Raise e -> e = IOError).

(** The allocated volumes of a table. *)
Definition allocated `{VolumeFlags} (volume_info : list Partition)
  : list Partition :=
  List.filter (fun p => part_flags p =? TSK_VS_PART_FLAG_ALLOC) volume_info.

(** Flags for the examples: the slots of address 0 are not allocated. *)
Definition example_flags : VolumeFlags :=
  {| part_flags := fun p => if part_addr p =? 0 then 2 else 1 |}.


(** ** [MindMapWorker._traverse_directory] *)

(** An element of [nodes_data]. *)
Record NodeData : Type := mk_node_data {
  nd_name : string;
  nd_path : string;
  nd_is_directory : bool;
  nd_size : Z;
  nd_parent_path : string }.

(** The worker: its handler and the nodes collected so far.  The
    bounds, the start offset and the flag [cancelled], which the
    traversal reads and never writes, are arguments of the functions
    below. *)
Record MindMapWorker : Type := mk_worker {
  w_image_handler : ImageHandler;
  w_nodes_data : list NodeData }.

Definition on_worker_handler {A} (m : M ImageHandler A) : M MindMapWorker A :=
  fun w =>
    let '(r, h) := m (w_image_handler w) in
    (r, mk_worker h (w_nodes_data w)).

Definition nodes_data_append (node : NodeData) : M MindMapWorker unit :=
  fun w =>
    (Ok tt, mk_worker (w_image_handler w) (w_nodes_data w ++ [node])%list).

(** [entries[:n]] *)
Definition slice_to {A} (entries : list A) (n : Z) : list A :=
  if n <? 0 then firstn (Z.to_nat (Z.of_nat (length entries) + n)) entries
  else firstn (Z.to_nat n) entries.

(** The body of the per-entry [try]; [rec] is the recursive call on a
    sub-directory.  The result tells whether [child_count] is
    incremented. *)
Definition traverse_entry
    (rec : string -> string -> option Z -> M MindMapWorker unit)
    (path : string) (entry : DirEntry) : M MindMapWorker bool :=
  match de_name entry with
  | None | Some EmptyString => mret false
  | Some name =>
      let is_directory := de_is_directory entry in
      let size := de_size entry in
      let entry_inode := de_inode_number entry in
      let full_path :=
        if String.eqb path "/" then "/" +:+ name
        else path +:+ "/" +:+ name in
      _ ← nodes_data_append
            (mk_node_data name full_path is_directory size path);
      _ ← (if is_directory && truthy entry_inode
           then rec full_path path entry_inode
           else mret tt);
      mret true
  end.

(** The [for entry in entries] loop. *)
Fixpoint traverse_entries
    (rec : string -> string -> option Z -> M MindMapWorker unit)
    (max_children : Z) (cancelled : bool) (path : string)
    (entries : list DirEntry) (child_count : Z) : M MindMapWorker unit :=
  match entries with
  | [] => mret tt
  | entry :: rest =>
      if cancelled || (child_count >=? max_children) then mret tt
      else
        counted ← try_catch (traverse_entry rec path entry)
                    (fun _ => mret false);
        traverse_entries rec max_children cancelled path rest
          (if (counted : bool) then child_count + 1 else child_count)
  end.

(** [_traverse_directory].  Every call goes one level deeper, so that
    the [max_depth - current_depth] levels left bound the recursion:
    with that fuel the [O] case is reached only when
    [current_depth >= max_depth], where the function returns. *)
Fixpoint _traverse_directory `{Codec} (fuel : nat)
    (max_depth max_children : Z) (cancelled : bool) (start_offset : Z)
    (path : string) (parent_path : option string) (current_depth : Z)
    (parent_inode : option Z) : M MindMapWorker unit :=
  match fuel with
  | O => mret tt
  | S fuel' =>
      if cancelled || (current_depth >=? max_depth) then mret tt
      else
        try_catch
          (entries ← on_worker_handler
                       (get_directory_contents start_offset parent_inode);
           match entries with
           | [] => mret tt
           | _ :: _ =>
               traverse_entries
                 (fun full_path path entry_inode =>
                    _traverse_directory fuel' max_depth max_children
                      cancelled start_offset full_path (Some path)
                      (current_depth + 1) entry_inode)
                 max_children cancelled path
                 (slice_to entries max_children) 0
           end)
          (fun _ => mret tt)
  end.

(** The traversal [run] starts. *)
Definition traverse_image `{Codec} (max_depth max_children start_offset : Z)
    (cancelled : bool) : M MindMapWorker unit :=
  _traverse_directory (Z.to_nat max_depth) max_depth max_children cancelled
    start_offset "/" None 0 None.

(** The number of nodes of a tree of [levels] levels in which every
    node has [children] children, the root not counted. *)
Fixpoint node_bound (levels children : nat) : nat :=
  match levels with
  | O => O
  | S levels' => (children * S (node_bound levels' children))%nat
  end.

(** A worker has gained at most [n] nodes, and lost none. *)
Definition grows_by (n : nat) (w w' : MindMapWorker) : Prop :=
  exists added,
    w_nodes_data w' = (w_nodes_data w ++ added)%list /\
    (length added <= n)%nat.


(** * Properties *)

Example get_image_type_E01 :
  @get_image_type ascii_case "/cases/disk.E01" = Ok "ewf".
Proof. reflexivity. Qed.
Example get_image_type_dd :
  @get_image_type ascii_case "evidence/usb.tar.dd" = Ok "raw".
Proof. reflexivity. Qed.
Example get_image_type_hidden :
  @get_image_type ascii_case "/cases/.raw"
  = Raise (ValueError "Unsupported image type: ").
Proof. reflexivity. Qed.
Example get_image_type_dir_dot :
  @get_image_type ascii_case "/cases.img/disk"
  = Raise (ValueError "Unsupported image type: ").
Proof. reflexivity. Qed.


(** ** Generic facts about the runtime *)

Lemma str_in_In (x : string) (xs : list string) :
  str_in x xs = true <-> In x xs.
Proof.
  unfold str_in. rewrite existsb_exists. split.
  - intros (y & Hy & Heq). apply String.eqb_eq in Heq. now subst.
  - intros Hin. exists x. split; [exact Hin | apply String.eqb_refl].
Qed.

Lemma str_in_not_In (x : string) (xs : list string) :
  str_in x xs = false <-> ~ In x xs.
Proof.
  rewrite <- str_in_In. destruct (str_in x xs); split; congruence.
Qed.

Lemma ewf_raw_disjoint (e : string) : In e ewf -> In e raw -> False.
Proof.
  unfold ewf, raw. cbn [In]. intros Hewf Hraw.
  repeat (destruct Hewf as [<- | Hewf];
          [repeat (destruct Hraw as [Hraw | Hraw]; try discriminate Hraw);
           exact Hraw |]).
  exact Hewf.
Qed.

Lemma append_cons (c : ascii) (a b : string) :
  String c a +:+ b = String c (a +:+ b).
Proof. reflexivity. Qed.

Lemma append_nil (b : string) : "" +:+ b = b.
Proof. reflexivity. Qed.

(** ** [os.path.splitext] on a path with a plain file name *)

(** Likewise for the scan of [splitext]: once the index has reached the
    dot, fuel is not looked at. *)
Lemma splitext_scan_enough_fuel (p : string) (dotIndex : Z) (fuel1 fuel2 : nat) :
  forall filenameIndex : Z,
    (Z.to_nat (dotIndex - filenameIndex) <= fuel1)%nat ->
    (Z.to_nat (dotIndex - filenameIndex) <= fuel2)%nat ->
    splitext_scan fuel1 p filenameIndex dotIndex =
    splitext_scan fuel2 p filenameIndex dotIndex.
Proof.
  revert fuel2. induction fuel1 as [| fuel1 IH]; intros fuel2 i H1 H2.
  - destruct fuel2 as [| fuel2]; [reflexivity |]. cbn [splitext_scan].
    destruct (i <? dotIndex) eqn:Hlt; [| reflexivity].
    apply Z.ltb_lt in Hlt. lia.
  - cbn [splitext_scan]. destruct (i <? dotIndex) eqn:Hlt.
    + apply Z.ltb_lt in Hlt. destruct fuel2 as [| fuel2]; [lia |].
      cbn [splitext_scan]. rewrite (proj2 (Z.ltb_lt i dotIndex)) by lia.
      destruct (negb _); [reflexivity |]. apply IH; lia.
    + destruct fuel2 as [| fuel2]; [reflexivity |]. cbn [splitext_scan].
      now rewrite Hlt.
Qed.

Lemma slen_cons (c : ascii) (s : string) : slen (String c s) = 1 + slen s.
Proof. unfold slen. cbn [String.length]. lia. Qed.

Lemma slen_nonneg (s : string) : 0 <= slen s.
Proof. unfold slen. lia. Qed.

Lemma rfind_from_app (a b : string) (c : ascii) (i acc : Z) :
  rfind_from i acc (a +:+ b) c =
  rfind_from (i + slen a) (rfind_from i acc a c) b c.
Proof.
  revert i acc. induction a as [| x a IH]; intros i acc.
  - rewrite append_nil. cbn. f_equal. unfold slen. cbn. lia.
  - rewrite append_cons. cbn [rfind_from]. rewrite IH, slen_cons.
    f_equal. lia.
Qed.

Lemma rfind_from_lacks (s : string) (c : ascii) (i acc : Z) :
  lacks c s -> rfind_from i acc s c = acc.
Proof.
  revert i acc. induction s as [| x s IH]; intros i acc; cbn; [reflexivity |].
  intros [Hx Hs]. rewrite IH by exact Hs.
  destruct (Ascii.eqb_spec x c); [contradiction | reflexivity].
Qed.

Lemma substring_app_l (a b : string) :
  String.substring 0 (String.length a) (a +:+ b) = a.
Proof.
  induction a as [| x a IH].
  - rewrite append_nil. destruct b; reflexivity.
  - rewrite append_cons. cbn. now rewrite IH.
Qed.

Lemma substring_app_r (a b : string) (n : nat) :
  String.substring (String.length a + n) (String.length b - n) (a +:+ b) =
  String.substring n (String.length b - n) b.
Proof.
  induction a as [| x a IH].
  - now rewrite append_nil.
  - rewrite append_cons. cbn. exact IH.
Qed.

Lemma substring_whole (b : string) :
  String.substring 0 (String.length b) b = b.
Proof. induction b as [| x b IH]; cbn; [reflexivity | now rewrite IH]. Qed.

Lemma substring_head (a : string) (c : ascii) (b : string) :
  String.substring (String.length a) 1 (a +:+ String c b) = String c "".
Proof.
  induction a as [| x a IH].
  - rewrite append_nil. cbn. destruct b; reflexivity.
  - rewrite append_cons. cbn. exact IH.
Qed.

Lemma length_append (a b : string) :
  String.length (a +:+ b) = (String.length a + String.length b)%nat.
Proof.
  induction a as [| x a IH]; [reflexivity |].
  rewrite append_cons. cbn. now rewrite IH.
Qed.

Lemma append_assoc (a b c : string) : a +:+ b +:+ c = (a +:+ b) +:+ c.
Proof.
  induction a as [| x a IH]; [reflexivity |].
  rewrite !append_cons. now rewrite IH.
Qed.

(** A path [dir ++ name ++ "." ++ e] whose directory part is empty or
    ends with the separator, whose file name starts with a character
    other than the dot and holds no separator, and whose last component
    [e] holds neither dot nor separator, splits before that dot. *)
Lemma splitext_plain (dir : string) (c : ascii) (stem e : string) :
  (dir = "" \/ exists d, dir = d +:+ "/") ->
  c <> "."%char -> c <> "/"%char ->
  lacks "/" stem -> lacks "." e -> lacks "/" e ->
  splitext (dir +:+ String c stem +:+ String "." e)
  = (dir +:+ String c stem, String "." e).
Proof.
  intros Hdir Hcdot Hcsep Hstem Hedot Hesep.
  set (p := dir +:+ String c stem +:+ String "." e).
  assert (Hsep : rfind p "/" = slen dir - 1).
  { unfold rfind, p. rewrite rfind_from_app.
    rewrite (rfind_from_lacks (String c stem +:+ String "." e)).
    - destruct Hdir as [-> | (d & ->)]; [reflexivity |].
      rewrite rfind_from_app. cbn [rfind_from].
      unfold slen. rewrite length_append. cbn. lia.
    - rewrite append_cons. split; [exact Hcsep |].
      clear - Hstem Hesep. induction stem as [| x stem IH].
      + rewrite append_nil. split; [discriminate | exact Hesep].
      + rewrite append_cons. destruct Hstem as [Hx Hstem]. split; auto. }
  assert (Hdot : rfind p "." = slen dir + 1 + slen stem).
  { unfold rfind, p. rewrite append_assoc. rewrite rfind_from_app.
    cbn [rfind_from]. rewrite rfind_from_lacks by exact Hedot.
    unfold slen. rewrite length_append. cbn. lia. }
  unfold splitext. fold p. rewrite Hsep, Hdot.
  pose proof (slen_nonneg dir) as Hd. pose proof (slen_nonneg stem) as Hs.
  destruct (slen dir + 1 + slen stem >? slen dir - 1) eqn:Hgt;
    [| rewrite Z.gtb_ltb in Hgt; apply Z.ltb_ge in Hgt; lia].
  replace (Z.to_nat (slen dir + 1 + slen stem - (slen dir - 1)))
    with (S (Z.to_nat (1 + slen stem))) by lia.
  cbn [splitext_scan].
  replace (slen dir - 1 + 1) with (slen dir) by lia.
  destruct (slen dir <? slen dir + 1 + slen stem) eqn:Hlt;
    [| apply Z.ltb_ge in Hlt; lia].
  assert (Hhead : slice p (slen dir) (slen dir + 1) = String c "").
  { unfold slice, p, slen. rewrite Nat2Z.id.
    replace (Z.to_nat (Z.of_nat (String.length dir) + 1
                       - Z.of_nat (String.length dir))) with 1%nat by lia.
    rewrite append_cons. apply substring_head. }
  rewrite Hhead.
  destruct (String.eqb_spec (String c "") ".") as [Heq | _];
    [injection Heq as Heq; contradiction |].
  cbn [negb]. f_equal.
  - unfold slice, p. rewrite append_assoc.
    replace (Z.to_nat (slen dir + 1 + slen stem - 0))
      with (String.length (dir +:+ String c stem))
      by (rewrite length_append; unfold slen; cbn; lia).
    apply substring_app_l.
  - unfold slice_from, slice, p. rewrite append_assoc.
    replace (Z.to_nat (slen dir + 1 + slen stem))
      with (String.length (dir +:+ String c stem) + 0)%nat
      by (rewrite length_append; unfold slen; cbn; lia).
    replace (Z.to_nat (Z.of_nat (String.length
               ((dir +:+ String c stem) +:+ String "." e))
             - (slen dir + 1 + slen stem)))
      with (String.length (String "." e) - 0)%nat
      by (rewrite !length_append; unfold slen; cbn; lia).
    rewrite substring_app_r. rewrite Nat.sub_0_r. apply substring_whole.
Qed.

(** ** Extension classification *)

(** C5. Classification is a total function of the path alone (no file
    content is among its arguments) and, on the lower-cased extension
    of the path, answers "ewf" for the four segmented-evidence
    extensions, "raw" for the nine linear-raw extensions, and raises
    [ValueError] naming the extension for every other one; hence two
    paths whose extensions agree up to case are classified alike.  For
    a plain path [dir ++ name ++ "." ++ e] the extension so classified
    is ["." ++ e], lower-cased. *)
Theorem get_image_type_classification `{Unicode} (image_path : string) :
  let extension := lower (snd (splitext image_path)) in
  (In extension [".e01"; ".s01"; ".l01"; ".ex01"] <->
     get_image_type image_path = Ok "ewf") /\
  (In extension [".raw"; ".img"; ".dd"; ".iso"; ".ad1"; ".001"; ".dmg";
                 ".sparse"; ".sparseimage"] <->
     get_image_type image_path = Ok "raw") /\
  (~ In extension ewf /\ ~ In extension raw <->
     get_image_type image_path =
       Raise (ValueError ("Unsupported image type: " +:+ extension))) /\
  (forall other : string,
     lower (snd (splitext other)) = extension ->
     get_image_type other = get_image_type image_path) /\
  (forall dir c stem e,
     plain_path dir c stem e ->
     image_path = dir +:+ String c stem +:+ String "." e ->
     extension = lower (String "." e)).
Proof.
  intros extension. fold ewf raw. unfold get_image_type. fold extension.
  pose proof (str_in_In extension ewf) as He.
  pose proof (str_in_In extension raw) as Hr.
  pose proof (ewf_raw_disjoint extension) as Hd.
  split; [| split; [| split; [| split]]].
  - destruct (str_in extension ewf); [| destruct (str_in extension raw)];
      intuition congruence.
  - destruct (str_in extension ewf); [| destruct (str_in extension raw)];
      intuition congruence.
  - destruct (str_in extension ewf); [| destruct (str_in extension raw)];
      intuition congruence.
  - intros other Hother. now rewrite Hother.
  - intros dir c stem e (Hdir & Hcdot & Hcsep & Hstem & Hedot & Hesep) Hpath.
    subst extension. rewrite Hpath.
    now rewrite (splitext_plain dir c stem e Hdir Hcdot Hcsep Hstem Hedot Hesep).
Qed.

Lemma get_image_type_classification_witness :
  @get_image_type ascii_case "/cases/disk.E01" = Ok "ewf" /\
  @get_image_type ascii_case "/cases/usb.img" = Ok "raw" /\
  @get_image_type ascii_case "/cases/notes.txt"
    = Raise (ValueError "Unsupported image type: .txt") /\
  @lower ascii_case (snd (splitext "/cases/disk.E01")) = ".e01".
Proof.
  destruct (@get_image_type_classification ascii_case "/cases/disk.E01")
    as (Hewf & _ & _ & _ & Hplain).
  destruct (@get_image_type_classification ascii_case "/cases/usb.img")
    as (_ & Hraw & _ & _ & _).
  destruct (@get_image_type_classification ascii_case "/cases/notes.txt")
    as (_ & _ & Hother & _ & _).
  split; [| split; [| split]].
  - apply Hewf. cbn. auto.
  - apply Hraw. vm_compute. auto.
  - apply Hother. vm_compute. split; intros Hin;
      repeat (destruct Hin as [Hin | Hin]; [discriminate Hin |]); exact Hin.
  - apply (Hplain "/cases/" "d"%char "isk" "E01"); [| reflexivity].
    unfold plain_path. cbn [lacks].
    repeat split; try discriminate. right. now exists "/cases".
Defined.


(** Letter case of the extension does not matter on plain paths. *)
Example get_image_type_plain_E01 `{Unicode} (dir stem : string) :
  (dir = "" \/ exists d, dir = d +:+ "/") -> lacks "/" stem ->
  get_image_type (dir +:+ String "d" stem +:+ ".E01") = Ok "ewf" /\
  get_image_type (dir +:+ String "d" stem +:+ ".e01") = Ok "ewf" /\
  get_image_type (dir +:+ String "d" stem +:+ ".Dd") = Ok "raw" /\
  get_image_type (dir +:+ String "d" stem +:+ ".vmdk")
    = Raise (ValueError "Unsupported image type: .vmdk").
Proof.
  intros Hdir Hstem. unfold get_image_type.
  rewrite !splitext_plain; cbn [lacks]; repeat split;
    try discriminate; auto.
  all: now rewrite lower_isascii.
Qed.

(** ** Volume classification *)

(** Unfold the monadic plumbing and compute. *)
Ltac py_run :=
  repeat (unfold mbind, mret, M_bind, M_ret, res_bind, res_ret, get, modify,
            raise, lift_res, try_catch, try_except, attr in *; cbn in * ).

Lemma collect_partitions_nonempty (v : list Partition) :
  collect_partitions v <> [] <-> exists p, In p v /\ part_desc p <> [].
Proof.
  induction v as [| p v IH]; cbn [collect_partitions].
  - split; [congruence | intros (p & [] & _)].
  - destruct (part_desc p) eqn:Hd.
    + rewrite IH. split.
      * intros (q & Hq & Hne). exists q. split; [now right | exact Hne].
      * intros (q & [<- | Hq] & Hne); [congruence | eauto].
    + split; [| congruence]. intros _. exists p. split; [now left |].
      rewrite Hd. congruence.
Qed.

Lemma collect_partitions_In (v : list Partition) (t : Z * bytes * Z * Z) :
  In t (collect_partitions v) <->
  exists p, In p v /\ part_desc p <> [] /\
            t = (part_addr p, part_desc p, part_start p, part_len p).
Proof.
  induction v as [| p v IH]; cbn [collect_partitions].
  - split; [intros [] | intros (p & [] & _)].
  - destruct (part_desc p) eqn:Hd.
    + rewrite IH. split.
      * intros (q & Hq & Hne & ->). exists q. split; [now right | split; auto].
      * intros (q & [<- | Hq] & Hne & ->); [congruence | eauto].
    + cbn [In]. rewrite IH. split.
      * intros [<- | (q & Hq & Hne & ->)].
        -- exists p. rewrite Hd. split; [now left | split; congruence].
        -- exists q. split; [now right | split; auto].
      * intros (q & [<- | Hq] & Hne & ->); [left; now rewrite Hd | right; eauto].
Qed.

(** C1 (as amended). Classification never raises and is exhaustive on
    the outcome of the volume-table parse: if the parse succeeds the
    catalog reports wiped = false and the entries bearing a
    description, a non-empty list exactly when there is such an entry,
    and no filesystem probe is made; if the parse fails and the probe at
    offset 0 succeeds it reports wiped = false, bare_filesystem = true
    and no volume; if both fail it reports wiped = true and no volume. *)
Theorem three_tier_classification (path : string) (img : Img_Info) :
  exists c, discover path img = Ok c /\
    match Volume_Info img with
    | Ok v =>
        wiped c = false /\ bare_filesystem c = false /\
        volumes c = collect_partitions v /\
        (volumes c <> [] <-> exists p, In p v /\ part_desc p <> [])
    | Raise _ =>
        match FS_Info_at img 0 with
        | Ok _ => wiped c = false /\ bare_filesystem c = true /\ volumes c = []
        | Raise _ => wiped c = true /\ bare_filesystem c = false /\ volumes c = []
        end
    end.
Proof.
  unfold discover, get_partitions, _ensure_volume_info_loaded, new_handler.
  py_run. destruct (Volume_Info img) as [v | e]; py_run.
  - eexists. split; [reflexivity |]. cbn.
    split; [reflexivity | split; [reflexivity | split; [reflexivity |]]].
    apply collect_partitions_nonempty.
  - destruct (FS_Info_at img 0) as [fs | e']; py_run;
      eexists; (split; [reflexivity |]); cbn; auto.
Qed.

(** C1 (counterexample). On a container whose volume table parses but
    yields nothing usable and that holds no filesystem, the catalog
    reports wiped = false, where the statement expects wiped = true. *)
Lemma three_tier_as_stated_fails :
  ~ three_tier_as_stated "disk.dd" blank_table_img.
Proof.
  unfold three_tier_as_stated. intros (c & Hc & Hcase).
  py_run. injection Hc as <-. cbn in Hcase.
  destruct Hcase as (Hwiped & _). discriminate Hwiped.
Qed.

(** The same table over a filesystem that mounts at offset 0: no probe
    is made, [fs_info] stays unset. *)
Lemma three_tier_no_probe_after_parse :
  discover "disk.dd" empty_table_img = Ok (mk_catalog [] false false) /\
  is_Ok (FS_Info_at empty_table_img 0) = true.
Proof. split; reflexivity. Qed.


(** ** File content extraction *)

Lemma get_fs_info_total (start_offset : Z) (self : ImageHandler) :
  exists o self', get_fs_info start_offset self = (Ok o, self').
Proof.
  unfold get_fs_info.
  destruct (fs_info_cache self !! start_offset); [eauto |].
  destruct (FS_Info_at _ _); eauto.
Qed.

(** What [get_file_content] returns, in terms of the mount result. *)
Lemma get_file_content_result (inode_number offset : Z) (self : ImageHandler) :
  fst (get_file_content inode_number offset self) =
  match fst (get_fs_info offset self) with
  | Ok (Some fs) =>
      try_except (read_content fs inode_number) (fun _ => Ok (None, None))
  | Ok None => Ok (None, None)
  | Raise e => Raise e
  end.
Proof.
  unfold get_file_content. py_run.
  destruct (get_fs_info offset self) as [[[fs |] | e] self']; reflexivity.
Qed.

Lemma CHUNK_SIZE_pos : 0 < CHUNK_SIZE.
Proof. reflexivity. Qed.

Lemma len_app (a b : bytes) : len (a ++ b) = len a + len b.
Proof. unfold len. rewrite length_app. lia. Qed.

Lemma len_nonneg (a : bytes) : 0 <= len a.
Proof. unfold len. lia. Qed.

Lemma len_byte_range (data : bytes) (offset size : Z) :
  0 <= offset -> 0 <= size ->
  len (byte_range data offset size) = Z.min size (Z.max 0 (len data - offset)).
Proof.
  intros Ho Hs. unfold len, byte_range.
  rewrite length_firstn, length_skipn. lia.
Qed.

Lemma firstn_extend (data : bytes) (a b : nat) :
  (firstn a data ++ firstn b (skipn a data) = firstn (a + b) data)%list.
Proof.
  revert data. induction a as [| a IH]; intros data.
  - reflexivity.
  - destruct data as [| x data]; cbn.
    + now rewrite firstn_nil.
    + now rewrite IH.
Qed.

(** The loop invariant: [content] is the prefix of [data] read so far
    and [remaining] what is left of the [file_size] bytes asked for.
    The loop ends with the first [file_size] bytes of [data], or with
    all of [data] when it is shorter. *)
Lemma read_chunks_range (file_obj : File) (data : bytes) (file_size : Z) :
  reads_return_requested file_obj data ->
  forall (fuel : nat) (content : bytes) (remaining current_offset : Z),
    0 <= current_offset -> 0 <= remaining ->
    remaining = file_size - current_offset ->
    content = firstn (Z.to_nat current_offset) data ->
    (Z.to_nat remaining <= fuel)%nat ->
    read_chunks fuel file_obj content remaining current_offset
      = Ok (byte_range data 0 file_size).
Proof.
  intros Hreads fuel.
  change (byte_range data 0 file_size) with (firstn (Z.to_nat file_size) data).
  induction fuel as [| fuel IH];
    intros content remaining off Hoff Hrem0 Hrem Hcontent Hfuel.
  - cbn. f_equal. subst content. f_equal. lia.
  - cbn [read_chunks]. destruct (remaining >? 0) eqn:Hpos.
    + rewrite Z.gtb_ltb in Hpos. apply Z.ltb_lt in Hpos.
      pose proof CHUNK_SIZE_pos as Hchunk.
      set (m := Z.min remaining CHUNK_SIZE).
      assert (Hm : 0 < m <= remaining) by (unfold m; lia).
      rewrite Hreads by lia. unfold mbind, res_bind.
      pose proof (len_byte_range data off m Hoff ltac:(lia)) as Hlen.
      destruct (byte_range data off m) as [| b chunk] eqn:Hrange.
      * unfold len in Hlen at 1. cbn [length] in Hlen.
        f_equal. subst content. unfold len in Hlen.
        rewrite !firstn_all2 by lia. reflexivity.
      * rewrite <- Hrange in *.
        assert (Hpos' : 0 < len (byte_range data off m)).
        { rewrite Hrange. unfold len. cbn [length]. lia. }
        apply IH; try lia.
        subst content. rewrite Hlen. unfold byte_range. rewrite firstn_extend.
        destruct (Z.le_gt_cases m (len data - off)) as [Hfull | Hshort].
        -- f_equal. lia.
        -- unfold len in Hshort |- *. rewrite !firstn_all2 by lia. reflexivity.
    + rewrite Z.gtb_ltb in Hpos. apply Z.ltb_ge in Hpos.
      f_equal. subst content. f_equal. lia.
Qed.

(** Fuel beyond [Z.to_nat remaining] changes nothing: the loop has
    ended by then. *)
Lemma read_chunks_enough_fuel (file_obj : File) (fuel1 fuel2 : nat) :
  forall (content : bytes) (remaining current_offset : Z),
    (Z.to_nat remaining <= fuel1)%nat ->
    (Z.to_nat remaining <= fuel2)%nat ->
    read_chunks fuel1 file_obj content remaining current_offset =
    read_chunks fuel2 file_obj content remaining current_offset.
Proof.
  revert fuel2. induction fuel1 as [| fuel1 IH];
    intros fuel2 content remaining off H1 H2.
  - destruct fuel2 as [| fuel2]; [reflexivity |]. cbn [read_chunks].
    destruct (remaining >? 0) eqn:Hpos; [| reflexivity].
    rewrite Z.gtb_ltb in Hpos. apply Z.ltb_lt in Hpos. lia.
  - cbn [read_chunks]. destruct (remaining >? 0) eqn:Hpos.
    + rewrite Z.gtb_ltb in Hpos. apply Z.ltb_lt in Hpos.
      destruct fuel2 as [| fuel2]; [lia |]. cbn [read_chunks].
      rewrite (proj2 (Z.gtb_lt remaining 0)) by lia.
      destruct (read_random file_obj off (Z.min remaining CHUNK_SIZE))
        as [[| b chunk] | e]; cbn; try reflexivity.
      apply IH; unfold len; cbn [length]; lia.
    + destruct fuel2 as [| fuel2]; [reflexivity |]. cbn [read_chunks].
      now rewrite Hpos.
Qed.

(** If no read raises, the loop does not raise. *)
Lemma read_chunks_no_error (file_obj : File) :
  (forall offset size, is_Ok (read_random file_obj offset size) = true) ->
  forall (fuel : nat) (content : bytes) (remaining current_offset : Z),
    is_Ok (read_chunks fuel file_obj content remaining current_offset) = true.
Proof.
  intros Hreads fuel. induction fuel as [| fuel IH]; intros; cbn [read_chunks].
  - reflexivity.
  - destruct (remaining >? 0); [| reflexivity].
    specialize (Hreads current_offset (Z.min remaining CHUNK_SIZE)).
    destruct (read_random _ _ _) as [[| b chunk] | e]; cbn in *;
      [reflexivity | apply IH | discriminate].
Qed.

(** From any state the loop passes through, the run from the start is
    the run from that state. *)
Lemma read_chunks_from_loop_state (file_obj : File) (file_size : Z)
    (content : bytes) (remaining current_offset : Z) :
  loop_state file_obj file_size content remaining current_offset ->
  exists fuel,
    (Z.to_nat remaining <= fuel)%nat /\
    read_chunks (Z.to_nat file_size) file_obj [] file_size 0
    = read_chunks fuel file_obj content remaining current_offset.
Proof.
  induction 1 as [| content remaining off chunk _ (fuel & Hfuel & IH)
                      Hpos Hread Hchunk].
  - exists (Z.to_nat file_size). split; [lia | reflexivity].
  - destruct fuel as [| fuel]; [lia |]. exists fuel.
    assert (Hlen : 0 < len chunk).
    { destruct chunk; [congruence | unfold len; cbn [length]; lia]. }
    split; [lia |]. rewrite IH. cbn [read_chunks].
    rewrite (proj2 (Z.gtb_lt remaining 0)) by lia.
    rewrite Hread. destruct chunk; [congruence | reflexivity].
Qed.

(** A read that raises in any iteration ends the loop with that
    error. *)
Lemma read_chunks_read_error (file_obj : File) (file_size : Z)
    (content : bytes) (remaining current_offset : Z) (e : exn) :
  loop_state file_obj file_size content remaining current_offset ->
  remaining > 0 ->
  read_random file_obj current_offset (Z.min remaining CHUNK_SIZE) = Raise e ->
  read_chunks (Z.to_nat file_size) file_obj [] file_size 0 = Raise e.
Proof.
  intros Hstate Hpos Hread.
  destruct (read_chunks_from_loop_state _ _ _ _ _ Hstate)
    as (fuel & Hfuel & ->).
  destruct fuel as [| fuel]; [lia |]. cbn [read_chunks].
  rewrite (proj2 (Z.gtb_lt remaining 0)) by lia.
  now rewrite Hread.
Qed.


(** C3. [get_file_content] never raises.  It returns (None, None) when
    the filesystem does not mount, when the inode cannot be opened,
    when the file has no meta block, when its size is zero, and when
    any read of the content raises: the single read of a file of at
    most LARGE_FILE_THRESHOLD bytes, or the read of any iteration of
    the chunk loop of a larger file, whatever was read before it; for
    a file of size at least 1 whose reads all succeed it returns a byte
    sequence together with the file's meta block. *)
Theorem get_file_content_sentinels
    (inode_number offset : Z) (self : ImageHandler) :
  let result := fst (get_file_content inode_number offset self) in
  (exists r, result = Ok r) /\
  (fst (get_fs_info offset self) = Ok None -> result = Ok (None, None)) /\
  (forall fs, fst (get_fs_info offset self) = Ok (Some fs) ->
     (forall e, open_meta fs inode_number = Raise e ->
        result = Ok (None, None)) /\
     (forall e, read_content fs inode_number = Raise e ->
        result = Ok (None, None)) /\
     (forall file_obj, open_meta fs inode_number = Ok file_obj ->
        (file_meta file_obj = None -> result = Ok (None, None)) /\
        (forall meta, file_meta file_obj = Some meta ->
           (meta_size meta = Some 0 -> result = Ok (None, None)) /\
           (forall file_size e,
              meta_size meta = Some file_size ->
              1 <= file_size <= LARGE_FILE_THRESHOLD ->
              read_random file_obj 0 file_size = Raise e ->
              result = Ok (None, None)) /\
           (forall file_size content remaining current_offset e,
              meta_size meta = Some file_size ->
              LARGE_FILE_THRESHOLD < file_size ->
              loop_state file_obj file_size content remaining current_offset ->
              remaining > 0 ->
              read_random file_obj current_offset
                (Z.min remaining CHUNK_SIZE) = Raise e ->
              result = Ok (None, None)) /\
           (forall file_size,
              meta_size meta = Some file_size ->
              1 <= file_size ->
              (forall o n, is_Ok (read_random file_obj o n) = true) ->
              exists content, result = Ok (Some content, Some meta))))).
Proof.
  intros result. subst result. rewrite get_file_content_result.
  destruct (get_fs_info_total offset self) as (o & self' & Hfs).
  rewrite Hfs. cbn [fst].
  split; [| split].
  - destruct o as [fs |]; [| eauto].
    unfold try_except. destruct (read_content fs inode_number); eauto.
  - now intros [= ->].
  - intros fs [= ->]. unfold try_except, read_content.
    split; [| split].
    + intros e ->. reflexivity.
    + intros e. unfold read_content. intros ->. reflexivity.
    + intros file_obj ->. py_run. split.
      * intros ->. reflexivity.
      * intros meta ->. py_run. split; [| split; [| split]].
        -- intros ->. reflexivity.
        -- intros file_size e -> Hsize Hread.
           destruct (file_size =? 0) eqn:Hz; [apply Z.eqb_eq in Hz; lia |].
           destruct (file_size >? LARGE_FILE_THRESHOLD) eqn:Hbig;
             [rewrite Z.gtb_ltb in Hbig; apply Z.ltb_lt in Hbig; lia |].
           now rewrite Hread.
        -- intros file_size content remaining off e -> Hsize Hstate Hpos Hread.
           assert (Hthreshold : 0 < LARGE_FILE_THRESHOLD) by reflexivity.
           destruct (file_size =? 0) eqn:Hz; [apply Z.eqb_eq in Hz; lia |].
           rewrite (proj2 (Z.gtb_lt file_size LARGE_FILE_THRESHOLD)) by lia.
           now rewrite (read_chunks_read_error _ _ _ _ _ e Hstate Hpos Hread).
        -- intros file_size -> Hsize Hreads.
           destruct (file_size =? 0) eqn:Hz; [apply Z.eqb_eq in Hz; lia |].
           destruct (file_size >? LARGE_FILE_THRESHOLD) eqn:Hbig.
           ++ pose proof (read_chunks_no_error file_obj Hreads
                            (Z.to_nat file_size) [] file_size 0) as Hok.
              destruct (read_chunks _ _ _ _ _) as [content | e];
                [eauto | discriminate].
           ++ specialize (Hreads 0 file_size).
              destruct (read_random file_obj 0 file_size) as [content | e];
                [eauto | discriminate].
Qed.

Lemma get_file_content_sentinels_witness :
  let self := new_handler "disk.dd" example_img in
  fst (get_file_content 66 2048 self) = Ok (None, None) /\
  fst (get_file_content 99 2048 self) = Ok (None, None) /\
  fst (get_file_content 64 7 self) = Ok (None, None) /\
  fst (get_file_content 64 0 (new_handler "faulty.dd" faulty_img))
    = Ok (None, None) /\
  exists content,
    fst (get_file_content 64 2048 self)
    = Ok (Some content,
          Some (example_reg 64 5 (Some 1700000000))).
Proof.
  intros self.
  destruct (get_file_content_sentinels 66 2048 self) as (_ & _ & Hzero).
  destruct (get_file_content_sentinels 99 2048 self) as (_ & _ & Hmissing).
  destruct (get_file_content_sentinels 64 7 self) as (_ & Hnofs & _).
  destruct (get_file_content_sentinels 64 0
              (new_handler "faulty.dd" faulty_img)) as (_ & _ & Hfaulty).
  destruct (get_file_content_sentinels 64 2048 self) as (_ & _ & Hfile).
  split; [| split; [| split; [| split]]].
  - destruct (Hzero example_fs eq_refl) as (_ & _ & Hopen).
    destruct (Hopen _ eq_refl) as (_ & Hmeta).
    destruct (Hmeta _ eq_refl) as (Hsize & _). now apply Hsize.
  - destruct (Hmissing example_fs eq_refl) as (Hopen & _).
    now apply (Hopen IOError).
  - now apply Hnofs.
  - destruct (Hfaulty faulty_fs eq_refl) as (_ & _ & Hopen).
    destruct (Hopen faulty_file eq_refl) as (_ & Hmeta).
    destruct (Hmeta big_meta eq_refl) as (_ & _ & Hloop & _).
    apply (Hloop (LARGE_FILE_THRESHOLD + 1) ([] ++ [x00])%list
             (LARGE_FILE_THRESHOLD + 1 - len [x00]) (0 + len [x00]) IOError);
      [reflexivity | reflexivity | | reflexivity | reflexivity].
    apply (loop_iterate faulty_file (LARGE_FILE_THRESHOLD + 1)
             [] (LARGE_FILE_THRESHOLD + 1) 0 [x00]);
      [apply loop_enter | reflexivity | reflexivity | discriminate].
  - destruct (Hfile example_fs eq_refl) as (_ & _ & Hopen).
    destruct (Hopen _ eq_refl) as (_ & Hmeta).
    destruct (Hmeta _ eq_refl) as (_ & _ & _ & Hread).
    apply (Hread 5); [reflexivity | lia | reflexivity].
Defined.


(** C4. For a file of more than LARGE_FILE_THRESHOLD bytes whose reads
    return the requested bytes, [get_file_content] goes through the
    chunk loop and returns exactly what the reference single-shot read
    of the same range returns; when the size in the meta block is the
    real size of the content, that is the whole content, of that
    length. *)
Theorem chunked_read_equals_single_shot
    (inode_number offset : Z) (self : ImageHandler)
    (fs : FS_Info) (file_obj : File) (meta : TSK_FS_META)
    (data : bytes) (file_size : Z) :
  fst (get_fs_info offset self) = Ok (Some fs) ->
  open_meta fs inode_number = Ok file_obj ->
  file_meta file_obj = Some meta ->
  meta_size meta = Some file_size ->
  file_size > LARGE_FILE_THRESHOLD ->
  reads_return_requested file_obj data ->
  exists content,
    fst (get_file_content inode_number offset self) = Ok (Some content, Some meta) /\
    read_chunks (Z.to_nat file_size) file_obj [] file_size 0 = Ok content /\
    single_shot_read file_obj file_size = Ok content /\
    len content = Z.min file_size (len data) /\
    (file_size = len data -> content = data /\ len content = file_size).
Proof.
  intros Hfs Hopen Hmeta Hsize Hbig Hreads.
  assert (Hthreshold : 0 < LARGE_FILE_THRESHOLD) by reflexivity.
  assert (Hloop : read_chunks (Z.to_nat file_size) file_obj [] file_size 0
                  = Ok (byte_range data 0 file_size)).
  { apply (read_chunks_range file_obj data file_size Hreads); cbn; try lia.
    reflexivity. }
  exists (byte_range data 0 file_size).
  split; [| split; [exact Hloop | split; [| split]]].
  - rewrite get_file_content_result, Hfs. unfold try_except, read_content.
    rewrite Hopen. py_run. rewrite Hmeta. py_run. rewrite Hsize.
    destruct (file_size =? 0) eqn:Hz; [apply Z.eqb_eq in Hz; lia |].
    destruct (file_size >? LARGE_FILE_THRESHOLD) eqn:Hgt;
      [| rewrite Z.gtb_ltb in Hgt; apply Z.ltb_ge in Hgt; lia].
    now rewrite Hloop.
  - unfold single_shot_read. now rewrite Hreads by lia.
  - rewrite len_byte_range by lia. pose proof (len_nonneg data). lia.
  - intros Hreal. split.
    + change (byte_range data 0 file_size)
        with (firstn (Z.to_nat file_size) data).
      apply firstn_all2. unfold len in Hreal. lia.
    + rewrite len_byte_range by lia. lia.
Qed.

Lemma chunked_read_witness :
  exists content,
    fst (get_file_content 64 0 (new_handler "big.dd" big_img))
      = Ok (Some content, Some big_meta) /\
    read_chunks (Z.to_nat (LARGE_FILE_THRESHOLD + 1)) big_file []
      (LARGE_FILE_THRESHOLD + 1) 0 = Ok content /\
    single_shot_read big_file (LARGE_FILE_THRESHOLD + 1) = Ok content /\
    len content = Z.min (LARGE_FILE_THRESHOLD + 1) (len big_data) /\
    (LARGE_FILE_THRESHOLD + 1 = len big_data ->
     content = big_data /\ len content = LARGE_FILE_THRESHOLD + 1).
Proof.
  apply (chunked_read_equals_single_shot 64 0 (new_handler "big.dd" big_img)
           big_fs big_file big_meta big_data (LARGE_FILE_THRESHOLD + 1)).
  - reflexivity.
  - reflexivity.
  - reflexivity.
  - reflexivity.
  - apply Z.lt_gt, Z.lt_succ_diag_r.
  - intros o n _ _. reflexivity.
Defined.

(** The example file has exactly LARGE_FILE_THRESHOLD + 1 bytes. *)
Lemma len_big_data : len big_data = LARGE_FILE_THRESHOLD + 1.
Proof.
  unfold big_data, len. rewrite repeat_length. apply Z2Nat.id. discriminate.
Qed.

Example get_file_content_small :
  fst (get_file_content 64 2048 (new_handler "disk.dd" example_img))
  = Ok (Some (encode "hello"),
        Some (example_reg 64 5 (Some 1700000000))).
Proof. reflexivity. Qed.

Example get_file_content_empty_file :
  fst (get_file_content 66 2048 (new_handler "disk.dd" example_img))
  = Ok (None, None).
Proof. reflexivity. Qed.

Example get_file_content_missing_inode :
  fst (get_file_content 99 2048 (new_handler "disk.dd" example_img))
  = Ok (None, None).
Proof. reflexivity. Qed.


(** ** The caches *)

(** What [get_fs_info] does to a handler whose caches are sound. *)
Lemma get_fs_info_sound `{Codec} (img : Img_Info) (self : ImageHandler)
    (start_offset : Z) :
  cache_sound img self ->
  exists self',
    get_fs_info start_offset self =
      (Ok (match FS_Info_at img (start_offset * 512) with
           | Ok fs => Some fs
           | Raise _ => None
           end), self') /\
    directory_cache self' = directory_cache self /\
    cache_sound img self'.
Proof.
  intros (Himg & Hfs & Hdir). unfold get_fs_info.
  destruct (fs_info_cache self !! start_offset) as [fs |] eqn:Hcache.
  - exists self. rewrite (Hfs _ _ Hcache). repeat split; auto.
  - rewrite Himg. destruct (FS_Info_at img (start_offset * 512)) as [fs | e] eqn:Hmount.
    + eexists. split; [reflexivity |]. split; [reflexivity |].
      split; [exact Himg | split]; cbn.
      * intros o fs'. destruct (decide (start_offset = o)) as [<- | Hne].
        -- rewrite lookup_insert_eq. now intros [= <-].
        -- rewrite lookup_insert_ne by exact Hne. apply Hfs.
      * exact Hdir.
    + exists self. repeat split; auto.
Qed.

(** The three outcomes of a listing on a handler whose caches are
    sound. *)
Lemma get_directory_contents_sound `{Codec} (img : Img_Info)
    (self : ImageHandler) (start_offset : Z) (inode_number : option Z) :
  cache_sound img self ->
  exists self',
    cache_sound img self' /\
    match FS_Info_at img (start_offset * 512) with
    | Raise _ =>
        get_directory_contents start_offset inode_number self = (Ok [], self') /\
        directory_cache self' = directory_cache self /\
        directory_cache self' !! (start_offset, inode_number) = None
    | Ok fs =>
        match open_directory fs inode_number with
        | Raise _ =>
            get_directory_contents start_offset inode_number self = (Ok [], self') /\
            directory_cache self' = directory_cache self /\
            directory_cache self' !! (start_offset, inode_number) = None
        | Ok directory =>
            get_directory_contents start_offset inode_number self
              = (Ok (list_entries directory []), self') /\
            directory_cache self' =
              <[(start_offset, inode_number) := list_entries directory []]>
                (directory_cache self)
        end
    end.
Proof.
  intros Hsound. pose proof Hsound as (Himg & Hfs & Hdir).
  unfold get_directory_contents. py_run.
  destruct (directory_cache self !! (start_offset, inode_number))
    as [cached |] eqn:Hcached.
  - destruct (Hdir _ _ _ Hcached) as (fs & directory & -> & -> & ->).
    exists self. split; [exact Hsound |]. split; [reflexivity |].
    symmetry. now apply insert_id.
  - destruct (get_fs_info_sound img self start_offset Hsound)
      as (self1 & Hget & Hsame & Hsound1).
    rewrite Hget.
    destruct (FS_Info_at img (start_offset * 512)) as [fs | e] eqn:Hmount.
    + destruct (open_directory fs inode_number) as [directory | e] eqn:Hopen; cbn.
      * eexists. split; [| split; [reflexivity | cbn; now rewrite Hsame]].
        destruct Hsound1 as (Himg1 & Hfs1 & Hdir1).
        split; [exact Himg1 | split; [exact Hfs1 |]]. cbn.
        intros o i entries.
        destruct (decide ((start_offset, inode_number) = (o, i))) as [[= <- <-] | Hne].
        -- rewrite lookup_insert_eq. intros [= <-]. eauto.
        -- rewrite lookup_insert_ne by exact Hne. apply Hdir1.
      * exists self1. rewrite Hsame. auto.
    + cbn. exists self1. rewrite Hsame. auto.
Qed.

Lemma new_handler_sound `{Codec} (path : string) (img : Img_Info) :
  cache_sound img (new_handler path img).
Proof.
  split; [reflexivity | split]; cbn.
  - intros o fs. now rewrite lookup_empty.
  - intros o i entries. now rewrite lookup_empty.
Qed.

Lemma after_sound `{Codec} (img : Img_Info) (c : call) (self : ImageHandler) :
  cache_sound img self -> cache_sound img (after c self).
Proof.
  intros Hsound. pose proof Hsound as (Himg & Hfs & Hdir).
  destruct c as [| | o | o | o | o i | i o |]; cbn [after].
  - unfold _ensure_volume_info_loaded.
    destruct (_volume_info_loaded self); [exact Hsound |].
    destruct (Volume_Info (img_info self)); [exact Hsound |].
    destruct (FS_Info_at _ 0); exact Hsound.
  - unfold get_partitions, _ensure_volume_info_loaded. py_run.
    destruct (_volume_info_loaded self); cbn.
    + destruct (volume_info self); [| destruct (is_wiped self)]; exact Hsound.
    + destruct (Volume_Info (img_info self)); cbn; [exact Hsound |].
      destruct (FS_Info_at _ 0);
        unfold set_volume_info_loaded, set_fs_info, set_volume_info,
          set_is_wiped_image; cbn;
        try destruct (is_wiped_image self); exact Hsound.
  - destruct (get_fs_info_sound img self o Hsound) as (self' & -> & _ & Hs).
    exact Hs.
  - unfold has_filesystem. py_run.
    destruct (get_fs_info_sound img self o Hsound) as (self' & -> & _ & Hs).
    exact Hs.
  - unfold get_fs_type. py_run.
    destruct (get_fs_info_sound img self o Hsound) as (self' & -> & _ & Hs).
    destruct (FS_Info_at img (o * 512)); exact Hs.
  - destruct (get_directory_contents_sound img self o i Hsound)
      as (self' & Hs & Hcase).
    destruct (FS_Info_at img (o * 512)) as [fs | e];
      [destruct (open_directory fs i) |];
      destruct Hcase as (-> & _); exact Hs.
  - unfold get_file_content. py_run.
    destruct (get_fs_info_sound img self o Hsound) as (self' & -> & _ & Hs).
    destruct (FS_Info_at img (o * 512)); exact Hs.
  - unfold clear_cache. py_run. split; [exact Himg | split; [exact Hfs |]].
    intros o i entries Hcached. cbn in Hcached.
    rewrite ?lookup_empty in Hcached. discriminate Hcached.
Qed.

Lemma reachable_sound `{Codec} (path : string) (img : Img_Info)
    (self : ImageHandler) :
  reachable path img self -> cache_sound img self.
Proof.
  induction 1 as [| c self Hreach IH].
  - apply new_handler_sound.
  - now apply after_sound.
Qed.

(** C10. On every reachable handler: if mounting the filesystem or
    opening the directory fails, the listing call returns the empty
    list, leaves the directory cache as it was and holds nothing under
    the key afterwards, so that the next call with that key attempts the
    open again (and fails again, the image being the same); and every
    listing the cache holds is the listing of a directory that mounted
    and opened. *)
Theorem directory_cache_only_successful_opens `{Codec}
    (path : string) (img : Img_Info) (self : ImageHandler) :
  reachable path img self ->
  (forall start_offset inode_number,
     open_fails img start_offset inode_number ->
     exists self',
       get_directory_contents start_offset inode_number self = (Ok [], self') /\
       directory_cache self' = directory_cache self /\
       directory_cache self' !! (start_offset, inode_number) = None /\
       reachable path img self' /\
       fst (get_directory_contents start_offset inode_number self') = Ok []) /\
  (forall start_offset inode_number entries,
     directory_cache self !! (start_offset, inode_number) = Some entries ->
     exists fs directory,
       FS_Info_at img (start_offset * 512) = Ok fs /\
       open_directory fs inode_number = Ok directory /\
       entries = list_entries directory []).
Proof.
  intros Hreach. pose proof (reachable_sound path img self Hreach) as Hsound.
  split.
  - intros o i Hfails. unfold open_fails in Hfails.
    destruct (get_directory_contents_sound img self o i Hsound)
      as (self' & Hsound' & Hcase).
    destruct (get_directory_contents_sound img self' o i Hsound')
      as (self'' & _ & Hcase').
    exists self'.
    assert (Hstep : self' = after (Call_get_directory_contents o i) self
                    -> reachable path img self').
    { intros ->. now constructor. }
    destruct (FS_Info_at img (o * 512)) as [fs | e].
    + destruct (open_directory fs i) as [directory | e]; [discriminate Hfails |].
      destruct Hcase as (Hcall & Hsame & Hnone).
      destruct Hcase' as (Hcall' & _).
      rewrite Hcall'. repeat split; auto.
      apply Hstep. cbn. now rewrite Hcall.
    + destruct Hcase as (Hcall & Hsame & Hnone).
      destruct Hcase' as (Hcall' & _).
      rewrite Hcall'. repeat split; auto.
      apply Hstep. cbn. now rewrite Hcall.
  - apply Hsound.
Qed.


Lemma directory_cache_witness :
  let self := @after ascii_codec (Call_get_directory_contents 2048 None)
                (new_handler "disk.dd" example_img) in
  (exists self',
     @get_directory_contents ascii_codec 2048 (Some 99) self = (Ok [], self') /\
     directory_cache self' = directory_cache self /\
     directory_cache self' !! (2048, Some 99) = None /\
     @reachable ascii_codec "disk.dd" example_img self' /\
     fst (@get_directory_contents ascii_codec 2048 (Some 99) self') = Ok []) /\
  (exists fs directory,
     FS_Info_at example_img (2048 * 512) = Ok fs /\
     open_directory fs None = Ok directory /\
     @list_entries ascii_codec example_root [] = @list_entries ascii_codec directory []).
Proof.
  intros self.
  pose proof (@directory_cache_only_successful_opens ascii_codec
                "disk.dd" example_img self
                (@reachable_call ascii_codec _ _ _ _
                   (@reachable_init ascii_codec _ _))) as [Hfail Hcached].
  split.
  - apply Hfail. reflexivity.
  - apply Hcached. vm_compute. reflexivity.
Defined.

(** ** Fault isolation in the listing *)

Lemma list_entries_rows `{Codec} (directory : list TSK_FS_FILE)
    (entries : list DirEntry) :
  list_entries directory entries = entries ++ omap entry_row directory.
Proof.
  revert entries. induction directory as [| entry rest IH]; intros entries.
  - cbn. now rewrite app_nil_r.
  - cbn [list_entries omap list_omap].
    assert (Hrow : entry_row entry =
                   match listing_entry entry with
                   | Ok (Some d) => Some d
                   | _ => None
                   end) by reflexivity.
    rewrite Hrow.
    destruct (listing_entry entry) as [[d |] | e]; rewrite IH.
    + now rewrite <- app_assoc.
    + reflexivity.
    + reflexivity.
Qed.

(** An entry whose name and meta block can be fetched never raises:
    an undecodable name, a missing meta block and an unrepresentable
    timestamp are all absorbed into the row. *)
Lemma listing_entry_tolerant `{Codec} (entry : TSK_FS_FILE)
    (name : bytes) (meta : option TSK_FS_META) :
  info_name entry = Ok name -> info_meta entry = Ok meta ->
  entry_raises entry = false.
Proof.
  intros Hn Hm. unfold entry_raises, listing_entry. rewrite Hn, Hm. py_run.
  now destruct (name_is_dot name).
Qed.

Lemma entry_row_quiet `{Codec} (x : TSK_FS_FILE) :
  entry_raises x = false ->
  entry_row x = None <-> is_synthetic x = true.
Proof.
  unfold entry_raises, entry_row, is_synthetic, listing_entry.
  destruct (info_name x) as [name | e]; py_run; [| discriminate].
  destruct (name_is_dot name); cbn.
  - intros _. split; reflexivity.
  - destruct (info_meta x) as [meta | e]; cbn; [| discriminate].
    intros _. split; discriminate.
Qed.

Lemma rows_length `{Codec} (l : list TSK_FS_FILE) :
  (forall x, In x l -> entry_raises x = false) ->
  (length (omap entry_row l) + length (List.filter is_synthetic l) = length l)%nat.
Proof.
  induction l as [| x l IH]; intros Hquiet; [reflexivity |].
  assert (Hx : entry_raises x = false) by (apply Hquiet; now left).
  assert (Hl : forall y, In y l -> entry_raises y = false)
    by (intros y Hy; apply Hquiet; now right).
  specialize (IH Hl). pose proof (entry_row_quiet x Hx) as Hrow.
  cbn [omap list_omap List.filter].
  destruct (entry_row x) as [d |] eqn:Hd.
  - destruct (is_synthetic x) eqn:Hs.
    + destruct Hrow as [_ Hrow]. specialize (Hrow eq_refl). discriminate.
    + cbn [length]. lia.
  - destruct Hrow as [Hrow _]. rewrite (Hrow eq_refl). cbn [length]. lia.
Qed.

Lemma rows_nonempty `{Codec} (l : list TSK_FS_FILE) :
  (forall x, In x l -> entry_raises x = false) ->
  omap entry_row l <> [] <-> exists x, In x l /\ is_synthetic x = false.
Proof.
  induction l as [| x l IH]; intros Hquiet.
  - cbn. split; [congruence | intros (x & [] & _)].
  - assert (Hx : entry_raises x = false) by (apply Hquiet; now left).
    assert (Hl : forall y, In y l -> entry_raises y = false)
      by (intros y Hy; apply Hquiet; now right).
    specialize (IH Hl). pose proof (entry_row_quiet x Hx) as Hrow.
    cbn [omap list_omap]. destruct (entry_row x) as [d |] eqn:Hd.
    + split; [| congruence]. intros _. exists x. split; [now left |].
      destruct (is_synthetic x); [| reflexivity].
      destruct Hrow as [_ Hrow]. specialize (Hrow eq_refl). discriminate.
    + rewrite IH. destruct Hrow as [Hrow _]. specialize (Hrow eq_refl).
      split.
      * intros (y & Hy & Hs). exists y. split; [now right | exact Hs].
      * intros (y & [<- | Hy] & Hs); [congruence | eauto].
Qed.

(** C2 (as amended). In a directory of N entries that opens, in which
    exactly one entry k raises during metadata extraction, the listing
    never raises and returns exactly the rows of the N-1 other entries,
    in order, the synthetic [.] and [..] left out; it is non-empty
    exactly when one of the other entries is not synthetic. *)
Theorem listing_fault_isolation `{Codec}
    (path : string) (img : Img_Info) (self : ImageHandler)
    (start_offset : Z) (inode_number : option Z) (fs : FS_Info)
    (before : list TSK_FS_FILE) (k : TSK_FS_FILE) (rest : list TSK_FS_FILE) :
  reachable path img self ->
  FS_Info_at img (start_offset * 512) = Ok fs ->
  open_directory fs inode_number = Ok (before ++ k :: rest) ->
  entry_raises k = true ->
  (forall x, In x (before ++ rest) -> entry_raises x = false) ->
  exists entries,
    fst (get_directory_contents start_offset inode_number self) = Ok entries /\
    entries = omap entry_row (before ++ rest) /\
    (length entries + length (List.filter is_synthetic (before ++ rest))
       = length (before ++ k :: rest) - 1)%nat /\
    (entries <> [] <->
       exists x, In x (before ++ rest) /\ is_synthetic x = false).
Proof.
  intros Hreach Hmount Hopen Hk Hquiet.
  pose proof (reachable_sound path img self Hreach) as Hsound.
  destruct (get_directory_contents_sound img self start_offset inode_number Hsound)
    as (self' & _ & Hcase).
  rewrite Hmount, Hopen in Hcase. destruct Hcase as (Hcall & _).
  exists (omap entry_row (before ++ rest)).
  split; [| split; [reflexivity | split]].
  - rewrite Hcall. cbn [fst]. f_equal.
    rewrite list_entries_rows. cbn [app].
    assert (Hrow : entry_row k = None).
    { unfold entry_raises in Hk. unfold entry_row.
      destruct (listing_entry k); [discriminate Hk | reflexivity]. }
    rewrite !omap_app. cbn [omap list_omap]. now rewrite Hrow.
  - rewrite (rows_length _ Hquiet). rewrite !length_app. cbn [length]. lia.
  - apply rows_nonempty, Hquiet.
Qed.

Lemma listing_fault_isolation_witness :
  exists entries,
    fst (@get_directory_contents ascii_codec 2048 None
           (new_handler "disk.dd" example_img)) = Ok entries /\
    entries = @omap list _ _ _ (@entry_row ascii_codec)
                (firstn 3 example_root ++ skipn 4 example_root) /\
    (length entries
       + length (List.filter is_synthetic (firstn 3 example_root ++ skipn 4 example_root))
       = length (firstn 3 example_root ++ broken_entry :: skipn 4 example_root) - 1)%nat /\
    (entries <> [] <->
       exists x, In x (firstn 3 example_root ++ skipn 4 example_root)
                 /\ is_synthetic x = false).
Proof.
  apply (@listing_fault_isolation ascii_codec "disk.dd" example_img
           (new_handler "disk.dd" example_img) 2048 None example_fs
           (firstn 3 example_root) broken_entry (skipn 4 example_root)).
  - apply (@reachable_init ascii_codec).
  - reflexivity.
  - reflexivity.
  - reflexivity.
  - intros x Hx. cbn in Hx.
    repeat (destruct Hx as [<- | Hx]; [reflexivity |]). destruct Hx.
Defined.

(** C2 (counterexample). A directory holding [.], [..] and one broken
    entry lists as the empty list. *)
Lemma fault_isolation_as_stated_fails :
  ~ @fault_isolation_as_stated ascii_codec example_img
      (new_handler "disk.dd" example_img) 2048 (Some 80).
Proof.
  intros Hclaim.
  destruct (Hclaim example_fs (firstn 2 example_damaged) broken_entry []
              eq_refl eq_refl eq_refl) as (entries & _ & Hrows & Hne).
  - intros x Hx. cbn in Hx.
    repeat (destruct Hx as [<- | Hx]; [reflexivity |]). destruct Hx.
  - apply Hne. rewrite Hrows. reflexivity.
Qed.


(** ** Timestamps *)

(** The listing renders an absent or zero timestamp, and every
    timestamp of an entry without meta block, as "N/A". *)
Lemma listing_timestamps_normalised `{Codec}
    (entry : TSK_FS_FILE) (d : DirEntry) :
  listing_entry entry = Ok (Some d) ->
  exists meta, info_meta entry = Ok meta /\
    de_accessed d = meta_time meta meta_atime /\
    de_modified d = meta_time meta meta_mtime /\
    de_created d = meta_time meta meta_crtime /\
    de_changed d = meta_time meta meta_ctime /\
    forall field : TSK_FS_META -> option Z,
      match meta with
      | None => True
      | Some m => field m = None \/ field m = Some 0
      end ->
      meta_time meta field = "N/A".
Proof.
  unfold listing_entry. py_run.
  destruct (info_name entry) as [name | e]; [| discriminate].
  destruct (name_is_dot name); cbn; [discriminate |].
  destruct (info_meta entry) as [meta | e]; cbn; [| discriminate].
  intros [= <-]. exists meta. cbn. repeat split; try reflexivity.
  intros field Hfield. destruct meta as [m |]; [| reflexivity].
  cbn. destruct Hfield as [-> | ->]; reflexivity.
Qed.

(** The helper of [get_file_metadata] renders an absent timestamp as
    "N/A" as well. *)
Lemma safe_datetime_metadata_absent : safe_datetime_metadata None = "N/A".
Proof. reflexivity. Qed.

(** C6 (failing input). The recursive walk over the example image
    reaches two regular files whose timestamps are all zero, [/empty]
    and [/docs/photo.jpg]: their records carry the text of the epoch,
    where the listing of the same entry carries "N/A". *)
Theorem walk_renders_epoch_zero :
  safe_datetime_metadata (Some 0) = "1970-01-01 00:00:00" /\
  safe_datetime (Some 0) = "N/A" /\
  (fi ← @recursive_file_search ascii_case ascii_codec 10 example_fs None None
          example_root "/" [];
   Ok (map (fun f => (fi_path f, fi_modified f)) fi))
  = Ok [ ("/report.TXT", "2023-11-14 22:13:20");
         ("/empty", "1970-01-01 00:00:00");
         ("/docs/photo.jpg", "1970-01-01 00:00:00");
         ("/docs/README", "1970-01-02 00:00:00") ] /\
  (d ← fst (@get_directory_contents ascii_codec 2048 None
              (new_handler "disk.dd" example_img));
   Ok (map (fun e => (de_name e, de_modified e)) d))
  = Ok [ (Some "report.TXT", "2023-11-14 22:13:20 UTC");
         (Some "empty", "N/A");
         (Some "docs", "N/A") ].
Proof. repeat split; vm_compute; reflexivity. Qed.

(** ** The search filter *)

Lemma prefix_spec (a b : string) :
  String.prefix a b = true <-> exists post, b = a +:+ post.
Proof.
  revert b. induction a as [| c a IH]; intros b.
  - split; [intros _; now exists b | intros _; destruct b; reflexivity].
  - destruct b as [| c' b]; cbn.
    + split; [discriminate | intros (post & Hpost); discriminate].
    + destruct (ascii_dec c c') as [<- | Hne].
      * rewrite IH. split.
        -- intros (post & ->). now exists post.
        -- intros (post & Hpost). rewrite append_cons in Hpost.
           injection Hpost as ->. now exists post.
      * split; [discriminate |].
        intros (post & Hpost). rewrite append_cons in Hpost. congruence.
Qed.

Lemma str_contains_unfold (needle hay : string) :
  str_contains needle hay =
  String.prefix needle hay ||
  match hay with
  | EmptyString => false
  | String _ hay' => str_contains needle hay'
  end.
Proof. destruct hay; reflexivity. Qed.

Lemma str_contains_spec (needle hay : string) :
  str_contains needle hay = true <->
  exists pre post, hay = pre +:+ needle +:+ post.
Proof.
  induction hay as [| c hay IH]; rewrite str_contains_unfold, orb_true_iff.
  - rewrite prefix_spec. split.
    + intros [(post & Hpost) | Hfalse]; [| discriminate].
      exists "", post. exact Hpost.
    + intros (pre & post & Hhay). left.
      destruct pre; [now exists post | discriminate].
  - rewrite IH, prefix_spec. split.
    + intros [(post & Hpost) | (pre & post & ->)].
      * exists "", post. exact Hpost.
      * exists (String c pre), post. reflexivity.
    + intros (pre & post & Hhay). destruct pre as [| c' pre].
      * left. now exists post.
      * right. rewrite append_cons in Hhay.
        injection Hhay as _ ->. now exists pre, post.
Qed.

(** C7 (as amended). Without a query ([None] or the empty string) and
    with an allow-list, a file matches iff its lower-cased extension is
    a member of the list or the list has the empty string as a member
    (which therefore lets every file match); with a non-empty query, a
    query with a leading dot matches iff the lower-cased extension is
    the lower-cased query, and any other query matches iff its
    lower-cased text occurs in the lower-cased file name, so that two
    queries that [str.lower] makes equal select the same files; a
    non-empty query makes the allow-list irrelevant.  Lower-casing is
    that of the interpreter, whatever the characters of the names and
    of the query. *)
Theorem query_matches_semantics `{Unicode} (file_name : string) :
  let file_extension := lower (snd (splitext file_name)) in
  (forall extensions,
     query_matches None (Some extensions) file_name = true <->
     In file_extension extensions \/ In "" extensions) /\
  (forall extensions,
     query_matches (Some "") extensions file_name =
     query_matches None extensions file_name) /\
  (forall q extensions,
     startswith_char q "." = true ->
     (query_matches (Some q) extensions file_name = true <->
      file_extension = lower q)) /\
  (forall q extensions,
     q <> "" -> startswith_char q "." = false ->
     (query_matches (Some q) extensions file_name = true <->
      exists pre post, lower file_name = pre +:+ lower q +:+ post)) /\
  (forall q q' extensions,
     q <> "" -> q' <> "" ->
     startswith_char q "." = startswith_char q' "." ->
     lower q = lower q' ->
     query_matches (Some q) extensions file_name =
     query_matches (Some q') extensions file_name) /\
  (forall q extensions extensions',
     q <> "" ->
     query_matches (Some q) extensions file_name =
     query_matches (Some q) extensions' file_name).
Proof.
  intros file_extension. unfold query_matches. fold file_extension.
  split; [| split; [| split; [| split; [| split]]]].
  - intros extensions. rewrite orb_true_iff, !str_in_In. reflexivity.
  - reflexivity.
  - intros [| c q] extensions Hdot; [discriminate |].
    rewrite Hdot. apply String.eqb_eq.
  - intros [| c q] extensions Hne Hdot; [congruence |].
    rewrite Hdot. apply str_contains_spec.
  - intros [| c q] [| c' q'] extensions Hne Hne' Hdot Hlower; try congruence.
    now rewrite Hdot, Hlower.
  - intros [| c q] extensions extensions' Hne; [congruence | reflexivity].
Qed.

Lemma query_matches_semantics_witness :
  @query_matches ascii_case None (Some [".txt"; ".pdf"]) "Report.TXT" = true /\
  @query_matches ascii_case None (Some [""]) "photo.jpg" = true /\
  @query_matches ascii_case (Some ".JPG") (Some [".txt"]) "photo.jpg" = true /\
  @query_matches ascii_case (Some "port") None "Report.TXT" = true /\
  @query_matches ascii_case (Some "PORT") None "Report.TXT" = true.
Proof.
  destruct (@query_matches_semantics ascii_case "Report.TXT")
    as (Hlist & _ & _ & Htext & Hcase & _).
  destruct (@query_matches_semantics ascii_case "photo.jpg")
    as (Hwild & _ & Hext & _ & _ & _).
  assert (Hport : @query_matches ascii_case (Some "port") None "Report.TXT"
                  = true).
  { apply Htext; [discriminate | reflexivity |].
    exists "re", ".txt". reflexivity. }
  split; [| split; [| split; [| split]]].
  - apply Hlist. left. cbn. auto.
  - apply Hwild. right. cbn. auto.
  - apply Hext; reflexivity.
  - exact Hport.
  - rewrite (Hcase "PORT" "port" None); [exact Hport | | | |];
      (discriminate || reflexivity).
Defined.


(** C7 (counterexample). With the allow-list [""; ".txt"] the file
    [photo.jpg] matches although [.jpg] is not a member. *)
Lemma allow_list_as_stated_fails :
  ~ @allow_list_as_stated ascii_case [""; ".txt"] "photo.jpg".
Proof.
  unfold allow_list_as_stated. intros [Hmatch _].
  specialize (Hmatch eq_refl). cbn in Hmatch.
  destruct Hmatch as [Hm | [Hm | []]]; discriminate Hm.
Qed.

(** The names of that example are ASCII, so it does not depend on the
    lower-casing: whatever [str.lower] does elsewhere, the list
    [""; ".txt"] lets [photo.jpg] through. *)
Lemma allow_list_wildcard_any_lowering `{Unicode} :
  query_matches None (Some [""; ".txt"]) "photo.jpg" = true /\
  ~ In (lower (snd (splitext "photo.jpg"))) [""; ".txt"].
Proof.
  split; [unfold query_matches; apply orb_true_r |].
  change (snd (splitext "photo.jpg")) with ".jpg".
  rewrite lower_isascii by reflexivity.
  intros [Hm | [Hm | []]]; discriminate Hm.
Qed.

(** The filter is what decides whether the walk records a regular
    file. *)
Lemma search_entry_regular_file `{Unicode} `{Codec}
    (rec : list TSK_FS_FILE -> string -> list FileInfo -> res (list FileInfo))
    (fs_info : FS_Info) (parent_path : string)
    (extensions : option (list string)) (search_query : option string)
    (files_list : list FileInfo) (entry : TSK_FS_FILE)
    (name : bytes) (meta : TSK_FS_META) :
  info_name entry = Ok name ->
  name_is_dot name = false ->
  info_meta entry = Ok (Some meta) ->
  meta_type meta = TSK_FS_META_TYPE_REG ->
  search_entry rec fs_info parent_path extensions search_query files_list entry
  = if query_matches search_query extensions (decode_ignore name)
    then file_info ← get_file_metadata entry parent_path;
         Ok (files_list ++ [file_info])
    else Ok files_list.
Proof.
  intros Hname Hdot Hmeta Htype. unfold search_entry.
  rewrite Hname. py_run. rewrite Hdot, Hmeta. cbn. rewrite Htype. cbn.
  reflexivity.
Qed.


(** ** Archives *)

Lemma endswith_slash_spec (s : string) :
  endswith_slash s = true <-> exists p, s = p +:+ "/".
Proof.
  induction s as [| c s IH].
  - cbn. split; [discriminate |]. intros ([| c p] & Hp); discriminate Hp.
  - destruct s as [| c' s].
    + cbn [endswith_slash]. split.
      * intros Hc. apply Ascii.eqb_eq in Hc. subst c. now exists "".
      * intros ([| c0 [| c1 p]] & Hp); try discriminate Hp.
        injection Hp as ->. reflexivity.
    + change (endswith_slash (String c (String c' s)))
        with (endswith_slash (String c' s)).
      rewrite IH. split.
      * intros (p & ->). now exists (String c p).
      * intros ([| c0 p] & Hp); [discriminate Hp |].
        rewrite append_cons in Hp. injection Hp as _ ->. now exists p.
Qed.

Lemma rstrip_slash_unfold (c : ascii) (s : string) :
  rstrip_slash (String c s) =
  match rstrip_slash s with
  | EmptyString => if Ascii.eqb c "/" then EmptyString else String c EmptyString
  | t => String c t
  end.
Proof. reflexivity. Qed.

(** [rstrip_slash] removes a run of trailing separators, and all of it. *)
Lemma rstrip_slash_spec (s : string) :
  endswith_slash (rstrip_slash s) = false /\
  exists n, s = rstrip_slash s +:+ string_of_list_ascii (repeat "/"%char n).
Proof.
  induction s as [| c s (IHend & n & IHs)].
  - split; [reflexivity | now exists O].
  - rewrite rstrip_slash_unfold.
    destruct (rstrip_slash s) as [| c' t] eqn:Hstrip.
    + destruct (Ascii.eqb c "/") eqn:Hc.
      * apply Ascii.eqb_eq in Hc. subst c. split; [reflexivity |].
        exists (S n). rewrite IHs at 1. reflexivity.
      * split; [cbn; exact Hc |]. exists n. rewrite IHs at 1. reflexivity.
    + split; [exact IHend |]. exists n. rewrite IHs at 1. reflexivity.
Qed.

Lemma getinfo_Some (members : list ZipInfo) (name : string) (m : ZipInfo) :
  getinfo members name = Some m -> In m members /\ zi_filename m = name.
Proof.
  induction members as [| m0 rest IH]; cbn; [discriminate |].
  destruct (getinfo rest name) as [m' |].
  - intros [= <-]. destruct (IH eq_refl) as [Hin Hname]. auto.
  - destruct (String.eqb (zi_filename m0) name) eqn:Heq; [| discriminate].
    intros [= <-]. apply String.eqb_eq in Heq. auto.
Qed.

Lemma getinfo_None (members : list ZipInfo) (name : string) :
  ~ In name (map zi_filename members) -> getinfo members name = None.
Proof.
  induction members as [| m0 rest IH]; cbn; [reflexivity |].
  intros Hnot. rewrite IH by tauto.
  destruct (String.eqb (zi_filename m0) name) eqn:Heq; [| reflexivity].
  apply String.eqb_eq in Heq. tauto.
Qed.

(** With distinct stored paths, a member is found under its own path. *)
Lemma getinfo_NoDup (members : list ZipInfo) (m : ZipInfo) :
  List.NoDup (map zi_filename members) -> In m members ->
  getinfo members (zi_filename m) = Some m.
Proof.
  induction members as [| m0 rest IH]; cbn; [intros _ [] |].
  intros Hnodup Hin. apply List.NoDup_cons_iff in Hnodup as [Hfresh Hnodup].
  destruct Hin as [<- | Hin].
  - rewrite getinfo_None by exact Hfresh. now rewrite String.eqb_refl.
  - now rewrite (IH Hnodup Hin).
Qed.

(** What the two helpers return once the host file has been read. *)
Lemma _get_zip_contents_result `{ZipLib} (inode_number start_offset : Z)
    (self : ImageHandler) (content : bytes) (meta : option TSK_FS_META) :
  fst (get_file_content inode_number start_offset self) = Ok (Some content, meta) ->
  content <> [] ->
  fst (_get_zip_contents inode_number start_offset self) =
  Ok (if has_pk_signature content
      then match ZipFile content with
           | Ok members => Some (map (zip_entry inode_number start_offset) members)
           | Raise _ => None
           end
      else None).
Proof.
  intros Hread Hne. unfold _get_zip_contents. py_run.
  destruct (get_file_content inode_number start_offset self) as [r self'].
  cbn in Hread. subst r.
  destruct content as [| b content]; [congruence |].
  cbn [fst no_content content_of].
  destruct (has_pk_signature (b :: content)); cbn; [| reflexivity].
  destruct (ZipFile (b :: content)); reflexivity.
Qed.

Lemma _extract_zip_entry_result `{ZipLib} (inode_number start_offset : Z)
    (zip_path : string)
    (self : ImageHandler) (content : bytes) (meta : option TSK_FS_META) :
  fst (get_file_content inode_number start_offset self) = Ok (Some content, meta) ->
  content <> [] ->
  fst (_extract_zip_entry inode_number start_offset zip_path self) =
  Ok (match ZipFile content with
      | Ok members =>
          match zip_read members zip_path with
          | Ok data => Some data
          | Raise _ => None
          end
      | Raise _ => None
      end).
Proof.
  intros Hread Hne. unfold _extract_zip_entry. py_run.
  destruct (get_file_content inode_number start_offset self) as [r self'].
  cbn in Hread. subst r.
  destruct content as [| b content]; [congruence |].
  cbn [fst no_content content_of].
  destruct (ZipFile (b :: content)) as [members | e]; cbn; [| reflexivity].
  destruct (zip_read members zip_path); reflexivity.
Qed.

(** C8. For a host file whose extracted content is non-empty: if the
    content carries the PK signature and parses as an archive, the
    listing has one entry per stored member, in stored order, each with
    the member's path and size, with is_directory true exactly when the
    stored path ends with the separator and with the trailing
    separators stripped from the name; reading a member by its path
    returns exactly the bytes stored for it (for the member the name
    table holds under that path, which is the member itself when stored
    paths are distinct); and if the signature does not match or the
    archive does not parse, the listing is None. *)
Theorem zip_archive_transparency `{ZipLib} (inode_number start_offset : Z)
    (self : ImageHandler) (content : bytes) (meta : option TSK_FS_META) :
  fst (get_file_content inode_number start_offset self) = Ok (Some content, meta) ->
  content <> [] ->
  (forall members,
     has_pk_signature content = true -> ZipFile content = Ok members ->
     exists entries,
       fst (_get_zip_contents inode_number start_offset self) = Ok (Some entries) /\
       length entries = length members /\
       Forall2 (fun e m =>
                  ze_zip_path e = zi_filename m /\
                  ze_size e = zi_file_size m /\
                  (ze_is_directory e = true <->
                   exists p, zi_filename m = p +:+ "/") /\
                  endswith_slash (ze_name e) = false /\
                  (exists n, zi_filename m =
                     ze_name e +:+ string_of_list_ascii (repeat "/"%char n)) /\
                  ze_zip_parent_inode e = inode_number /\
                  ze_zip_parent_offset e = start_offset)
         entries members) /\
  (forall members m data,
     ZipFile content = Ok members ->
     zi_data m = Ok data ->
     (getinfo members (zi_filename m) = Some m \/
      (List.NoDup (map zi_filename members) /\ In m members)) ->
     fst (_extract_zip_entry inode_number start_offset (zi_filename m) self)
       = Ok (Some data)) /\
  ((has_pk_signature content = false \/ is_Ok (ZipFile content) = false) ->
   fst (_get_zip_contents inode_number start_offset self) = Ok None).
Proof.
  intros Hread Hne.
  pose proof (_get_zip_contents_result inode_number start_offset self content
                meta Hread Hne) as Hlist.
  split; [| split].
  - intros members Hpk Hzip. rewrite Hpk, Hzip in Hlist.
    eexists. split; [exact Hlist |]. split; [apply length_map |].
    clear. induction members as [| m members IH]; cbn [map]; constructor.
    + cbn. repeat split; try reflexivity.
      * apply endswith_slash_spec.
      * apply endswith_slash_spec.
      * apply rstrip_slash_spec.
      * apply rstrip_slash_spec.
    + exact IH.
  - intros members m data Hzip Hdata Hfound.
    rewrite (_extract_zip_entry_result inode_number start_offset _ self content
               meta Hread Hne), Hzip.
    assert (Hget : getinfo members (zi_filename m) = Some m).
    { destruct Hfound as [Hget | [Hnodup Hin]]; [exact Hget |].
      now apply getinfo_NoDup. }
    unfold zip_read. now rewrite Hget, Hdata.
  - intros [Hpk | Hbad]; rewrite Hlist.
    + now rewrite Hpk.
    + destruct (has_pk_signature content); [| reflexivity].
      destruct (ZipFile content); [discriminate Hbad | reflexivity].
Qed.

Lemma zip_archive_transparency_witness :
  (exists entries,
     fst (@_get_zip_contents example_zip_lib 72 0 (new_handler "a.dd" archive_img))
       = Ok (Some entries) /\
     map (fun e => (ze_name e, ze_is_directory e)) entries
       = [("a.txt", false); ("dir", true); ("dir/b.txt", false)]) /\
  fst (@_extract_zip_entry example_zip_lib 72 0 "dir/b.txt"
         (new_handler "a.dd" archive_img)) = Ok (Some (encode "beta")).
Proof.
  destruct (@zip_archive_transparency example_zip_lib 72 0
              (new_handler "a.dd" archive_img) example_zip_blob
              (Some (example_reg 72
                       (len example_zip_blob) (Some 1700000000))))
    as (Hlist & Hread & _).
  - reflexivity.
  - discriminate.
  - split.
    + destruct (Hlist example_members eq_refl eq_refl) as (entries & Hentries & _).
      exists entries. split; [exact Hentries |].
      vm_compute in Hentries. injection Hentries as <-. reflexivity.
    + apply (Hread example_members
               (mk_zipinfo "dir/b.txt" 4 (Some (2024, 2, 29, 23, 59, 58))
                  (Ok (encode "beta")))
               (encode "beta") eq_refl eq_refl).
      left. reflexivity.
Defined.

Example zip_listing_rejects_bad_signature :
  fst (@_get_zip_contents example_zip_lib 64 0 (new_handler "a.dd" archive_img))
    = Ok None /\
  fst (@_get_zip_contents example_zip_lib 73 0 (new_handler "a.dd" archive_img))
    = Ok None.
Proof. split; reflexivity. Qed.

(** ** The temporary hive file *)

(** Once the hive has been extracted, [get_windows_version] writes it
    to a fresh temporary file; the file is removed when parsing
    succeeds and stays behind when anything raises while parsing. *)
Lemma get_windows_version_temp_file `{RegistryLib} (start_offset : Z)
    (hs : HostState) (fs : FS_Info) (b : byte) (hive : bytes) :
  fst (get_fs_info start_offset (hs_handler hs)) = Ok (Some fs) ->
  ftype fs = TSK_FS_TYPE_NTFS ->
  get_registry_hive fs "/Windows/System32/config/SOFTWARE" = Some (b :: hive) ->
  hs_tmp hs !! hs_next hs = None ->
  let '(r, hs') := get_windows_version start_offset hs in
  match parse_os_version (b :: hive) with
  | Ok os_version =>
      r = Ok (Some os_version) /\ hs_tmp hs' = hs_tmp hs
  | Raise _ =>
      r = Ok (Some "Error in parsing OS version") /\
      hs_tmp hs' = <[hs_next hs := b :: hive]> (hs_tmp hs)
  end.
Proof.
  intros Hmount Hntfs Hhive Hfresh.
  unfold get_windows_version, on_handler, get_fs_type.
  py_run.
  assert (Hagain : exists h,
             get_fs_info start_offset (hs_handler hs) = (Ok (Some fs), h) /\
             get_fs_info start_offset h = (Ok (Some fs), h)).
  { revert Hmount. unfold get_fs_info.
    destruct (fs_info_cache (hs_handler hs) !! start_offset) as [fs0 |] eqn:Hc.
    - cbn. intros [= ->]. exists (hs_handler hs). now rewrite Hc.
    - destruct (FS_Info_at _ _) as [fs0 | e]; cbn; [| discriminate].
      intros [= ->]. eexists. split; [reflexivity |]. cbn.
      now rewrite lookup_insert_eq. }
  destruct Hagain as (h & -> & Hsecond). cbn. rewrite Hsecond. cbn.
  rewrite Hntfs. cbn. rewrite Hhive.
  unfold NamedTemporaryFile_write, read_tmp, os_path_exists, os_remove.
  cbn. rewrite lookup_insert_eq.
  destruct (parse_os_version (b :: hive)) as [os_version | e]; cbn.
  - rewrite lookup_insert_eq. rewrite bool_decide_true by eauto. cbn.
    split; [reflexivity |]. rewrite delete_insert_eq. now apply delete_id.
  - split; reflexivity.
Qed.

(** C9 (failing input). An NTFS volume whose SOFTWARE hive does not
    parse: the call answers "Error in parsing OS version" and the
    temporary file it wrote is still in the temporary directory; with a
    hive that parses, the directory is empty again. *)
Theorem temp_hive_left_behind :
  (let '(r, hs) := @get_windows_version example_registry_lib 0
                     (windows_host (encode "regf:damaged")) in
   r = Ok (Some "Error in parsing OS version") /\
   hs_tmp hs = {[ 1%positive := encode "regf:damaged" ]}) /\
  (let '(r, hs) := @get_windows_version example_registry_lib 0
                     (windows_host (encode "regf:software")) in
   is_Ok r = true /\ hs_tmp hs = ∅).
Proof.
  split.
  - pose proof (@get_windows_version_temp_file example_registry_lib 0
                  (windows_host (encode "regf:damaged"))
                  (windows_fs (encode "regf:damaged")) "r"%byte
                  (encode "egf:damaged")
                  eq_refl eq_refl eq_refl eq_refl) as Hrun.
    destruct (get_windows_version 0 _) as [r hs]. exact Hrun.
  - pose proof (@get_windows_version_temp_file example_registry_lib 0
                  (windows_host (encode "regf:software"))
                  (windows_fs (encode "regf:software")) "r"%byte
                  (encode "egf:software")
                  eq_refl eq_refl eq_refl eq_refl) as Hrun.
    destruct (get_windows_version 0 _) as [r hs].
    cbn in Hrun. destruct Hrun as [-> ->]. split; reflexivity.
Qed.


(** * Further properties of the access layer *)

(** ** Memoisation of mounted filesystems *)

(** X1. [get_fs_info] is memoised under the start sector: a second call
    answers the same and leaves the handler as the first call left it;
    the entries of other sectors and the directory cache are untouched;
    a failed mount stores nothing, so that the handler is unchanged; a
    successful one is found in the cache afterwards. *)
Theorem get_fs_info_memoised (start_offset : Z) (self : ImageHandler) :
  let '(r, self1) := get_fs_info start_offset self in
  get_fs_info start_offset self1 = (r, self1) /\
  (forall o, o <> start_offset ->
     fs_info_cache self1 !! o = fs_info_cache self !! o) /\
  directory_cache self1 = directory_cache self /\
  (r = Ok None -> self1 = self) /\
  (forall fs, r = Ok (Some fs) ->
     fs_info_cache self1 !! start_offset = Some fs).
Proof.
  unfold get_fs_info.
  destruct (fs_info_cache self !! start_offset) as [fs |] eqn:Hcache.
  - rewrite Hcache.
    split; [reflexivity | split; [reflexivity | split; [reflexivity |]]].
    split; [discriminate | now intros fs' [= <-]].
  - destruct (FS_Info_at (img_info self) (start_offset * 512))
      as [fs | e] eqn:Hm.
    + cbn. rewrite lookup_insert_eq.
      split; [reflexivity | split; [| split; [reflexivity |]]].
      * intros o Hne. now rewrite lookup_insert_ne.
      * split; [discriminate | now intros fs' [= <-]].
    + rewrite Hcache, Hm.
      split; [reflexivity | split; [reflexivity | split; [reflexivity |]]].
      split; [reflexivity | discriminate].
Qed.

(** ** The listing cache is transparent *)

Lemma get_directory_contents_listing `{Codec} (img : Img_Info)
    (self : ImageHandler) (start_offset : Z) (inode_number : option Z) :
  cache_sound img self ->
  fst (get_directory_contents start_offset inode_number self)
  = Ok (listing_of img start_offset inode_number).
Proof.
  intros Hsound.
  destruct (get_directory_contents_sound img self start_offset inode_number
              Hsound) as (self' & _ & Hcase).
  unfold listing_of.
  destruct (FS_Info_at img (start_offset * 512)) as [fs | e].
  - destruct (open_directory fs inode_number) as [directory | e].
    + destruct Hcase as (-> & _). cbn. now rewrite list_entries_rows.
    + now destruct Hcase as (-> & _).
  - now destruct Hcase as (-> & _).
Qed.

(** X2. Caching never changes what a listing returns: two handlers
    reached on the same image, whatever was called on them (mounts,
    listings, [clear_cache]), answer the same listing for the same
    key; and a listing leaves behind a handler that answers it again. *)
Theorem listing_independent_of_cache `{Codec} (path : string)
    (img : Img_Info) (self1 self2 : ImageHandler)
    (start_offset : Z) (inode_number : option Z) :
  reachable path img self1 ->
  reachable path img self2 ->
  fst (get_directory_contents start_offset inode_number self1)
  = fst (get_directory_contents start_offset inode_number self2) /\
  fst (get_directory_contents start_offset inode_number
         (snd (get_directory_contents start_offset inode_number self1)))
  = fst (get_directory_contents start_offset inode_number self1) /\
  fst (get_directory_contents start_offset inode_number
         (snd (clear_cache self1)))
  = fst (get_directory_contents start_offset inode_number self1).
Proof.
  intros H1 H2.
  pose proof (reachable_sound path img self1 H1) as Hs1.
  pose proof (reachable_sound path img self2 H2) as Hs2.
  assert (Hs3 : cache_sound img
                  (snd (get_directory_contents start_offset inode_number self1)))
    by exact (after_sound img
                (Call_get_directory_contents start_offset inode_number) self1 Hs1).
  assert (Hs4 : cache_sound img (snd (clear_cache self1)))
    by exact (after_sound img Call_clear_cache self1 Hs1).
  now rewrite !(get_directory_contents_listing img) by assumption.
Qed.

Lemma listing_independent_of_cache_witness :
  let fresh := new_handler "disk.dd" example_img in
  let used := @after ascii_codec Call_clear_cache
                (@after ascii_codec (Call_get_directory_contents 2048 (Some 65))
                   (@after ascii_codec (Call_get_fs_type 2048) fresh)) in
  fst (@get_directory_contents ascii_codec 2048 (Some 65) fresh)
  = fst (@get_directory_contents ascii_codec 2048 (Some 65) used).
Proof.
  intros fresh used.
  apply (@listing_independent_of_cache ascii_codec "disk.dd" example_img).
  - apply (@reachable_init ascii_codec).
  - repeat apply (@reachable_call ascii_codec). apply (@reachable_init ascii_codec).
Defined.

(** ** Provenance of the rows *)

Lemma bytes_eqb_eq (a b : bytes) : bytes_eqb a b = true <-> a = b.
Proof.
  revert b. induction a as [| x a IH]; intros [| y b]; cbn;
    try (split; [discriminate | discriminate]); [tauto |].
  rewrite andb_true_iff, IH. split.
  - intros [Hxy ->]. apply Byte.byte_dec_bl in Hxy. now subst.
  - intros [= -> ->]. split; [now apply Byte.byte_dec_lb | reflexivity].
Qed.

Lemma name_is_dot_spec (name : bytes) :
  name_is_dot name = true <-> name = [x2e] \/ name = [x2e; x2e].
Proof. unfold name_is_dot. now rewrite orb_true_iff, !bytes_eqb_eq. Qed.

(** X3. Every row of a listing stems from an entry of the directory
    that mounted and opened, whose raw name is neither [.] nor [..]:
    the row's name is the decoded raw name, it is a directory row
    exactly when the meta block says so, and an entry without meta
    block is listed with no inode, size 0 and "N/A" timestamps. *)
Theorem listing_rows_provenance `{Codec} (path : string) (img : Img_Info)
    (self : ImageHandler) (start_offset : Z) (inode_number : option Z)
    (entries : list DirEntry) (d : DirEntry) :
  reachable path img self ->
  fst (get_directory_contents start_offset inode_number self) = Ok entries ->
  In d entries ->
  exists fs directory entry name meta,
    FS_Info_at img (start_offset * 512) = Ok fs /\
    open_directory fs inode_number = Ok directory /\
    In entry directory /\
    info_name entry = Ok name /\ info_meta entry = Ok meta /\
    name <> [x2e] /\ name <> [x2e; x2e] /\
    de_name d = Some (decode_ignore name) /\
    de_is_directory d = meta_has_type meta TSK_FS_META_TYPE_DIR /\
    de_inode_number d = meta_addr <$> meta /\
    (meta = None ->
     de_size d = 0 /\ de_accessed d = "N/A" /\ de_modified d = "N/A" /\
     de_created d = "N/A" /\ de_changed d = "N/A").
Proof.
  intros Hreach Hcall Hin.
  rewrite (get_directory_contents_listing img) in Hcall
    by (eapply reachable_sound; eauto).
  injection Hcall as <-. unfold listing_of in Hin.
  destruct (FS_Info_at img (start_offset * 512)) as [fs | e] eqn:Hmount;
    [| destruct Hin].
  destruct (open_directory fs inode_number) as [directory | e] eqn:Hopen;
    [| destruct Hin].
  apply list_elem_of_In, list_elem_of_omap in Hin.
  destruct Hin as (entry & Hentry & Hrow). apply list_elem_of_In in Hentry.
  unfold entry_row, listing_entry in Hrow.
  destruct (info_name entry) as [name | e] eqn:Hname; [| discriminate].
  unfold mbind, res_bind in Hrow.
  destruct (name_is_dot name) eqn:Hdot; [discriminate |]. cbn [negb] in Hrow.
  destruct (info_meta entry) as [meta | e] eqn:Hmeta; [| discriminate].
  injection Hrow as <-.
  assert (Hnd : name <> [x2e] /\ name <> [x2e; x2e]).
  { split; intros ->; discriminate Hdot. }
  destruct Hnd as [Hnd1 Hnd2].
  exists fs, directory, entry, name, meta. cbn.
  repeat (split; [first [assumption | reflexivity] |]).
  intros ->. repeat split; reflexivity.
Qed.

Lemma listing_rows_provenance_witness :
  let d := mk_dir_entry (Some "docs") true (Some 65) 0 "N/A" "N/A" "N/A" "N/A" in
  exists fs directory entry name meta,
    FS_Info_at example_img (2048 * 512) = Ok fs /\
    open_directory fs None = Ok directory /\
    In entry directory /\
    info_name entry = Ok name /\ info_meta entry = Ok meta /\
    name <> [x2e] /\ name <> [x2e; x2e] /\
    de_name d = Some (@decode_ignore ascii_codec name) /\
    de_is_directory d = meta_has_type meta TSK_FS_META_TYPE_DIR /\
    de_inode_number d = meta_addr <$> meta /\
    (meta = None ->
     de_size d = 0 /\ de_accessed d = "N/A" /\ de_modified d = "N/A" /\
     de_created d = "N/A" /\ de_changed d = "N/A").
Proof.
  intros d.
  eapply (@listing_rows_provenance ascii_codec "disk.dd" example_img
            (new_handler "disk.dd" example_img) 2048 None).
  - apply (@reachable_init ascii_codec).
  - reflexivity.
  - cbn. auto.
Defined.


(** ** Filesystem type sentinels *)

Lemma fs_type_name_cases (t : TSK_FS_TYPE) :
  fs_type_name t <> "N/A" /\
  (fs_type_name t = "Unknown" <-> exists code, t = TSK_FS_TYPE_OTHER code) /\
  (fs_type_name t = "NTFS" <-> t = TSK_FS_TYPE_NTFS).
Proof.
  destruct t; cbn; (split; [discriminate |]); split; split;
    try discriminate; try reflexivity; try (intros (code & Hc); discriminate Hc);
    eauto.
Qed.

(** X4. [get_fs_type] never raises and keeps its sentinels apart: it
    answers "N/A" exactly when the filesystem does not mount,
    "Unknown" exactly when it mounts with a type code outside the
    table, "NTFS" exactly when it mounts as NTFS; and [has_filesystem]
    answers true exactly when the type is not "N/A". *)
Theorem get_fs_type_sentinels `{Codec} (path : string) (img : Img_Info)
    (self : ImageHandler) (start_offset : Z) :
  reachable path img self ->
  exists name,
    fst (get_fs_type start_offset self) = Ok name /\
    (name = "N/A" <-> is_Ok (FS_Info_at img (start_offset * 512)) = false) /\
    (name = "Unknown" <->
       exists fs code, FS_Info_at img (start_offset * 512) = Ok fs /\
                       ftype fs = TSK_FS_TYPE_OTHER code) /\
    (name = "NTFS" <->
       exists fs, FS_Info_at img (start_offset * 512) = Ok fs /\
                  ftype fs = TSK_FS_TYPE_NTFS) /\
    fst (has_filesystem start_offset self)
      = Ok (negb (String.eqb name "N/A")).
Proof.
  intros Hreach. pose proof (reachable_sound path img self Hreach) as Hsound.
  destruct (get_fs_info_sound img self start_offset Hsound)
    as (self' & Hget & _ & _).
  unfold get_fs_type, has_filesystem. py_run. rewrite Hget.
  destruct (FS_Info_at img (start_offset * 512)) as [fs | e]; cbn.
  - destruct (fs_type_name_cases (ftype fs)) as (Hna & Hunknown & Hntfs).
    exists (fs_type_name (ftype fs)).
    split; [reflexivity |]. split; [| split; [| split]].
    + split; [contradiction | discriminate].
    + rewrite Hunknown. split.
      * intros (code & Hcode). eauto.
      * intros (fs' & code & [= <-] & Hcode). eauto.
    + rewrite Hntfs. split.
      * intros Ht. eauto.
      * now intros (fs' & [= <-] & Ht).
    + destruct (String.eqb_spec (fs_type_name (ftype fs)) "N/A");
        [contradiction | reflexivity].
  - exists "N/A". split; [reflexivity |]. split; [| split; [| split]].
    + split; reflexivity.
    + split; [discriminate | intros (fs & code & Hm & _); discriminate Hm].
    + split; [discriminate | intros (fs & Hm & _); discriminate Hm].
    + reflexivity.
Qed.

Lemma get_fs_type_sentinels_witness :
  exists name,
    fst (get_fs_type 2048 (new_handler "disk.dd" example_img)) = Ok name /\
    (name = "N/A" <-> is_Ok (FS_Info_at example_img (2048 * 512)) = false) /\
    (name = "Unknown" <->
       exists fs code, FS_Info_at example_img (2048 * 512) = Ok fs /\
                       ftype fs = TSK_FS_TYPE_OTHER code) /\
    (name = "NTFS" <->
       exists fs, FS_Info_at example_img (2048 * 512) = Ok fs /\
                  ftype fs = TSK_FS_TYPE_NTFS) /\
    fst (has_filesystem 2048 (new_handler "disk.dd" example_img))
      = Ok (negb (String.eqb name "N/A")).
Proof.
  apply (@get_fs_type_sentinels ascii_codec "disk.dd" example_img).
  apply (@reachable_init ascii_codec).
Defined.

(** ** An empty partition *)

(** X5. When [check_partition_contents] answers false, the listing of
    the root directory is empty; the converse fails, since the check
    also counts the synthetic entries: it answers true exactly when the
    filesystem mounts and iterating its root yields an entry. *)
Theorem check_partition_contents_listing `{Codec} (path : string)
    (img : Img_Info) (self : ImageHandler) (start_offset : Z) :
  reachable path img self ->
  exists b,
    fst (check_partition_contents start_offset self) = Ok b /\
    (b = true <->
       exists fs entry rest,
         FS_Info_at img (start_offset * 512) = Ok fs /\
         open_dir_path fs "/" = Ok (entry :: rest)) /\
    (b = false ->
       fst (get_directory_contents start_offset None self) = Ok []).
Proof.
  intros Hreach. pose proof (reachable_sound path img self Hreach) as Hsound.
  destruct (get_fs_info_sound img self start_offset Hsound)
    as (self' & Hget & _ & _).
  rewrite (get_directory_contents_listing img) by exact Hsound.
  unfold check_partition_contents, listing_of. py_run. rewrite Hget.
  destruct (FS_Info_at img (start_offset * 512)) as [fs | e]; cbn.
  - destruct (open_dir_path fs "/") as [[| entry rest] | e] eqn:Hopen; cbn.
    + exists false. split; [reflexivity |]. split; [| reflexivity].
      split; [discriminate | intros (fs' & x & r & [= <-] & Hx); congruence].
    + exists true. split; [reflexivity |]. split; [| discriminate].
      split; [eauto | reflexivity].
    + exists false. split; [reflexivity |]. split; [| reflexivity].
      split; [discriminate | intros (fs' & x & r & [= <-] & Hx); congruence].
  - exists false. split; [reflexivity |]. split; [| reflexivity].
    split; [discriminate | intros (fs' & x & r & Hm & _); discriminate Hm].
Qed.

Lemma check_partition_contents_listing_witness :
  exists b,
    fst (check_partition_contents 0 (new_handler "disk.dd" example_img)) = Ok b /\
    (b = true <->
       exists fs entry rest,
         FS_Info_at example_img (0 * 512) = Ok fs /\
         open_dir_path fs "/" = Ok (entry :: rest)) /\
    (b = false ->
       fst (@get_directory_contents ascii_codec 0 None
              (new_handler "disk.dd" example_img)) = Ok []).
Proof.
  apply (@check_partition_contents_listing ascii_codec "disk.dd" example_img).
  apply (@reachable_init ascii_codec).
Defined.

(** ** Volume discovery is evaluated once *)

Lemma new_handler_volume_sound (path : string) (img : Img_Info) :
  volume_sound img (new_handler path img).
Proof. split; [reflexivity |]. cbn. auto. Qed.

Lemma _ensure_volume_info_loaded_sound (img : Img_Info) (self : ImageHandler) :
  volume_sound img self ->
  volume_sound img (snd (_ensure_volume_info_loaded self)) /\
  _volume_info_loaded (snd (_ensure_volume_info_loaded self)) = true.
Proof.
  intros (Himg & Hvol). unfold _ensure_volume_info_loaded, volume_sound.
  destruct (_volume_info_loaded self) eqn:Hloaded.
  - cbn. split; [| exact Hloaded]. split; [exact Himg |]. now rewrite Hloaded.
  - cbn. rewrite Himg. destruct Hvol as (_ & Hfs & Hw).
    destruct (Volume_Info img) as [v | e]; cbn.
    + repeat split; auto.
    + destruct (FS_Info_at img 0); cbn; repeat split; auto.
Qed.

Lemma get_fs_info_volume_sound (img : Img_Info) (self : ImageHandler) (o : Z) :
  volume_sound img self -> volume_sound img (snd (get_fs_info o self)).
Proof.
  intros Hs. unfold get_fs_info.
  destruct (fs_info_cache self !! o); [exact Hs |].
  destruct (FS_Info_at _ _); exact Hs.
Qed.

Lemma after_volume_sound `{Codec} (img : Img_Info) (c : call)
    (self : ImageHandler) :
  volume_sound img self -> volume_sound img (after c self).
Proof.
  intros Hs. destruct c as [| | o | o | o | o i | i o |]; cbn [after].
  - now apply _ensure_volume_info_loaded_sound.
  - unfold get_partitions. py_run.
    destruct (_ensure_volume_info_loaded_sound img self Hs) as [Hs' _].
    destruct (_ensure_volume_info_loaded self) as [[[] | e] self']; cbn in *;
      [| exact Hs'].
    destruct (volume_info self'); [| destruct (is_wiped self')]; exact Hs'.
  - now apply get_fs_info_volume_sound.
  - unfold has_filesystem. py_run.
    pose proof (get_fs_info_volume_sound img self o Hs) as Hs'.
    destruct (get_fs_info o self) as [[[fs |] | e] self']; exact Hs'.
  - unfold get_fs_type. py_run.
    pose proof (get_fs_info_volume_sound img self o Hs) as Hs'.
    destruct (get_fs_info o self) as [[[fs |] | e] self']; exact Hs'.
  - unfold get_directory_contents. py_run.
    destruct (directory_cache self !! (o, i)); [exact Hs |].
    pose proof (get_fs_info_volume_sound img self o Hs) as Hs'.
    destruct (get_fs_info o self) as [[[fs |] | e] self']; cbn in *;
      try exact Hs'.
    destruct (open_directory fs i); exact Hs'.
  - unfold get_file_content. py_run.
    pose proof (get_fs_info_volume_sound img self o Hs) as Hs'.
    destruct (get_fs_info o self) as [[[fs |] | e] self']; exact Hs'.
  - exact Hs.
Qed.

Lemma reachable_volume_sound `{Codec} (path : string) (img : Img_Info)
    (self : ImageHandler) :
  reachable path img self -> volume_sound img self.
Proof.
  induction 1 as [| c self Hreach IH].
  - apply new_handler_volume_sound.
  - now apply after_volume_sound.
Qed.




(** ** The read strategy is invisible *)

Lemma LARGE_FILE_THRESHOLD_pos : 0 < LARGE_FILE_THRESHOLD.
Proof. reflexivity. Qed.

(** What the size-adaptive read returns for a file whose reads return
    the requested bytes: the first [file_size] bytes, on either side of
    the threshold. *)
Lemma adaptive_read_range (file_obj : File) (data : bytes) (file_size : Z) :
  reads_return_requested file_obj data ->
  0 <= file_size ->
  (if file_size >? LARGE_FILE_THRESHOLD
   then read_chunks (Z.to_nat file_size) file_obj [] file_size 0
   else read_random file_obj 0 file_size)
  = Ok (byte_range data 0 file_size).
Proof.
  intros Hreads Hsize. destruct (file_size >? LARGE_FILE_THRESHOLD).
  - apply (read_chunks_range file_obj data file_size Hreads); cbn; try lia.
    reflexivity.
  - apply Hreads; lia.
Qed.

(** X7. For every file of size at least 1 whose reads return the
    requested bytes, [get_file_content] returns the first [file_size]
    bytes of the content together with the meta block, whichever of the
    two read strategies the size selects; the result has
    [min file_size (len data)] bytes, so that it is empty only when the
    file has no content at all. *)
Theorem get_file_content_range
    (inode_number offset : Z) (self : ImageHandler)
    (fs : FS_Info) (file_obj : File) (meta : TSK_FS_META)
    (data : bytes) (file_size : Z) :
  fst (get_fs_info offset self) = Ok (Some fs) ->
  open_meta fs inode_number = Ok file_obj ->
  file_meta file_obj = Some meta ->
  meta_size meta = Some file_size ->
  1 <= file_size ->
  reads_return_requested file_obj data ->
  fst (get_file_content inode_number offset self)
    = Ok (Some (byte_range data 0 file_size), Some meta) /\
  len (byte_range data 0 file_size) = Z.min file_size (len data).
Proof.
  intros Hfs Hopen Hmeta Hsize Hpos Hreads. split.
  - rewrite get_file_content_result, Hfs. unfold try_except, read_content.
    rewrite Hopen. py_run. rewrite Hmeta. py_run. rewrite Hsize.
    destruct (file_size =? 0) eqn:Hz; [apply Z.eqb_eq in Hz; lia |].
    pose proof (adaptive_read_range file_obj data file_size Hreads
                  ltac:(lia)) as Hread.
    destruct (file_size >? LARGE_FILE_THRESHOLD); now rewrite Hread.
  - rewrite len_byte_range by lia. pose proof (len_nonneg data). lia.
Qed.

Lemma get_file_content_range_witness :
  fst (get_file_content 64 2048 (new_handler "disk.dd" example_img))
    = Ok (Some (byte_range (encode "hello") 0 5),
          Some (example_reg 64 5 (Some 1700000000))) /\
  len (byte_range (encode "hello") 0 5) = Z.min 5 (len (encode "hello")).
Proof.
  apply (get_file_content_range 64 2048 (new_handler "disk.dd" example_img)
           example_fs
           (file_of (Some (example_reg 64 5 (Some 1700000000))) (encode "hello"))).
  - reflexivity.
  - reflexivity.
  - reflexivity.
  - reflexivity.
  - lia.
  - intros o n _ _. reflexivity.
Defined.

(** X8. [get_registry_hive] never raises: it answers [None] when the
    hive cannot be opened or has no meta block, and for a hive whose
    reads return the requested bytes it answers the first [file_size]
    bytes whichever read strategy the size selects, the empty sequence
    for a hive of size 0. *)
Theorem get_registry_hive_range (fs_info : FS_Info) (hive_path : string) :
  (forall e, fs_open fs_info hive_path = Raise e ->
     get_registry_hive fs_info hive_path = None) /\
  (forall registry_file,
     fs_open fs_info hive_path = Ok registry_file ->
     (file_meta registry_file = None ->
      get_registry_hive fs_info hive_path = None) /\
     (forall meta data file_size,
        file_meta registry_file = Some meta ->
        meta_size meta = Some file_size ->
        0 <= file_size ->
        reads_return_requested registry_file data ->
        get_registry_hive fs_info hive_path
          = Some (byte_range data 0 file_size) /\
        (file_size = 0 -> get_registry_hive fs_info hive_path = Some []))).
Proof.
  unfold get_registry_hive. split.
  - intros e ->. reflexivity.
  - intros registry_file ->. py_run. split.
    + intros ->. reflexivity.
    + intros meta data file_size -> Hsize Hpos Hreads. py_run. rewrite Hsize.
      rewrite (adaptive_read_range registry_file data file_size Hreads Hpos).
      split; [reflexivity |]. intros ->. reflexivity.
Qed.

Lemma get_registry_hive_range_witness :
  get_registry_hive (windows_fs (encode "regf:software"))
    "/Windows/System32/config/SOFTWARE"
  = Some (byte_range (encode "regf:software") 0 13) /\
  get_registry_hive (windows_fs (encode "regf:software")) "/pagefile.sys" = None.
Proof.
  destruct (get_registry_hive_range (windows_fs (encode "regf:software"))
              "/Windows/System32/config/SOFTWARE") as (_ & Hopen).
  destruct (get_registry_hive_range (windows_fs (encode "regf:software"))
              "/pagefile.sys") as (Hmissing & _).
  split.
  - destruct (Hopen _ eq_refl) as (_ & Hread).
    apply (Hread _ (encode "regf:software") 13 eq_refl eq_refl); [lia |].
    intros o n _ _. reflexivity.
  - apply (Hmissing IOError). reflexivity.
Defined.

(** ** Unallocated space *)

(** X9. [read_unallocated_space] always requests at least one sector:
    for every sector range, inverted ranges included, it reads
    [max ((end - start) * 512 + 1, 512)] bytes from byte [start * 512]
    (the branch adjusting a non-positive size is never taken); it
    answers [None] when the read raises or returns nothing, and never
    an empty sequence. *)
Theorem read_unallocated_space_request (start_offset end_offset : Z)
    (self : ImageHandler) :
  let size_in_bytes :=
    Z.max ((end_offset - start_offset) * SECTOR_SIZE + 1) SECTOR_SIZE in
  SECTOR_SIZE <= size_in_bytes /\
  read_unallocated_space start_offset end_offset self =
    match img_read (img_info self) (start_offset * SECTOR_SIZE) size_in_bytes with
    | Ok (Some (b :: data)) => Some (b :: data)
    | _ => None
    end /\
  read_unallocated_space start_offset end_offset self <> Some [].
Proof.
  intros size_in_bytes. unfold read_unallocated_space.
  assert (Hsector : SECTOR_SIZE = 512) by reflexivity.
  set (requested := Z.max (end_offset * SECTOR_SIZE)
                      (start_offset * SECTOR_SIZE + SECTOR_SIZE - 1)
                    - start_offset * SECTOR_SIZE + 1).
  assert (Hsame : requested = size_in_bytes)
    by (unfold requested, size_in_bytes; lia).
  assert (Hpos : SECTOR_SIZE <= size_in_bytes)
    by (unfold size_in_bytes; lia).
  rewrite Hsame.
  destruct (size_in_bytes <=? 0) eqn:Hle; [apply Z.leb_le in Hle; lia |].
  split; [exact Hpos | split; [reflexivity |]].
  destruct (img_read _ _ _) as [[[| b data] |] | e]; discriminate.
Qed.


(** ** The recursive walk *)

(** One iteration of the loop of [recursive_file_search]. *)
Lemma recursive_file_search_step `{Unicode} `{Codec}
    (fuel : nat) (fs_info : FS_Info)
    (extensions : option (list string)) (search_query : option string)
    (directory : list TSK_FS_FILE) (parent_path : string)
    (files_list : list FileInfo) :
  recursive_file_search (S fuel) fs_info extensions search_query
    directory parent_path files_list
  = Ok (fold_left
          (fun files_list entry =>
             match search_entry
                     (recursive_file_search fuel fs_info extensions search_query)
                     fs_info parent_path extensions search_query
                     files_list entry with
             | Ok files_list' => files_list'
             | Raise _ => files_list
             end)
          directory files_list).
Proof. reflexivity. Qed.

(** An entry adds to the list it is given, whatever that list is. *)
Lemma search_entry_appends `{Unicode} `{Codec}
    (rec : list TSK_FS_FILE -> string -> list FileInfo -> res (list FileInfo))
    (fs_info : FS_Info) (parent_path : string)
    (extensions : option (list string)) (search_query : option string)
    (files_list : list FileInfo) (entry : TSK_FS_FILE) :
  (forall d p f, rec d p f = (added ← rec d p []; Ok (f ++ added))) ->
  search_entry rec fs_info parent_path extensions search_query files_list entry
  = (added ← search_entry rec fs_info parent_path extensions search_query
               [] entry;
     Ok (files_list ++ added)).
Proof.
  intros Hrec. unfold search_entry.
  destruct (info_name entry) as [name | e]; py_run; [| reflexivity].
  destruct (name_is_dot name); cbn; [now rewrite app_nil_r |].
  destruct (info_meta entry) as [meta | e]; cbn; [| reflexivity].
  destruct (meta_has_type meta TSK_FS_META_TYPE_DIR).
  - destruct meta as [m |]; cbn; [| now rewrite app_nil_r].
    destruct (open_dir_inode fs_info (meta_addr m)) as [sub | e]; cbn;
      [| now rewrite app_nil_r].
    rewrite (Hrec sub _ files_list).
    destruct (rec sub _ []) as [added | e]; cbn;
      [reflexivity | now rewrite app_nil_r].
  - destruct (meta_has_type meta TSK_FS_META_TYPE_REG && _); cbn.
    + destruct (get_file_metadata entry parent_path); reflexivity.
    + now rewrite app_nil_r.
Qed.

Lemma fold_left_appends {A B : Type} (step : list A -> B -> list A)
    (l : list B) (acc : list A) :
  (forall acc x, step acc x = acc ++ step [] x) ->
  fold_left step l acc = acc ++ fold_left step l [].
Proof.
  intros Hstep. revert acc. induction l as [| x l IH]; intros acc; cbn.
  - now rewrite app_nil_r.
  - rewrite (IH (step acc x)), (IH (step [] x)), (Hstep acc x).
    now rewrite app_assoc.
Qed.

Lemma recursive_file_search_appends `{Unicode} `{Codec}
    (fuel : nat) (fs_info : FS_Info)
    (extensions : option (list string)) (search_query : option string) :
  forall (directory : list TSK_FS_FILE) (parent_path : string)
         (files_list : list FileInfo),
    recursive_file_search fuel fs_info extensions search_query
      directory parent_path files_list
    = (added ← recursive_file_search fuel fs_info extensions search_query
                 directory parent_path [];
       Ok (files_list ++ added)).
Proof.
  induction fuel as [| fuel IH]; intros directory parent_path files_list.
  - reflexivity.
  - rewrite !recursive_file_search_step. py_run. f_equal.
    apply fold_left_appends. intros acc entry.
    rewrite (search_entry_appends _ _ _ _ _ acc entry IH).
    destruct (search_entry _ _ _ _ _ [] entry) as [added | e]; cbn;
      [reflexivity | now rewrite app_nil_r].
Qed.

(** X10. The walk only appends: whatever list of results it is handed,
    it returns that list followed by the records it finds, and the
    records found do not depend on the list handed in. *)
Theorem walk_only_appends `{Unicode} `{Codec} (fuel : nat) (fs_info : FS_Info)
    (extensions : option (list string)) (search_query : option string)
    (directory : list TSK_FS_FILE) (parent_path : string)
    (files_list : list FileInfo) :
  exists added,
    recursive_file_search (S fuel) fs_info extensions search_query
      directory parent_path [] = Ok added /\
    recursive_file_search (S fuel) fs_info extensions search_query
      directory parent_path files_list = Ok (files_list ++ added).
Proof.
  rewrite (recursive_file_search_appends (S fuel) _ _ _ _ _ files_list).
  rewrite recursive_file_search_step. eexists. split; reflexivity.
Qed.

(** A sub-directory that does not open leaves the results as they
    are. *)
Lemma search_entry_unopenable `{Unicode} `{Codec}
    (rec : list TSK_FS_FILE -> string -> list FileInfo -> res (list FileInfo))
    (fs_info : FS_Info) (parent_path : string)
    (extensions : option (list string)) (search_query : option string)
    (files_list : list FileInfo) (entry : TSK_FS_FILE)
    (name : bytes) (meta : TSK_FS_META) (e : exn) :
  info_name entry = Ok name ->
  info_meta entry = Ok (Some meta) ->
  meta_type meta = TSK_FS_META_TYPE_DIR ->
  open_dir_inode fs_info (meta_addr meta) = Raise e ->
  search_entry rec fs_info parent_path extensions search_query files_list entry
  = Ok files_list.
Proof.
  intros Hname Hmeta Htype Hopen. unfold search_entry. rewrite Hname. py_run.
  destruct (name_is_dot name); [reflexivity |]. rewrite Hmeta. cbn.
  rewrite Htype. cbn. now rewrite Hopen.
Qed.

(** X11. A sub-directory that cannot be opened is skipped and nothing
    else: the walk over a directory holding such an entry returns what
    the walk over the directory without it returns. *)
Theorem walk_skips_unopenable_subdirectory `{Unicode} `{Codec} (fuel : nat)
    (fs_info : FS_Info)
    (extensions : option (list string)) (search_query : option string)
    (before : list TSK_FS_FILE) (entry : TSK_FS_FILE)
    (rest : list TSK_FS_FILE) (parent_path : string)
    (files_list : list FileInfo)
    (name : bytes) (meta : TSK_FS_META) (e : exn) :
  info_name entry = Ok name ->
  info_meta entry = Ok (Some meta) ->
  meta_type meta = TSK_FS_META_TYPE_DIR ->
  open_dir_inode fs_info (meta_addr meta) = Raise e ->
  recursive_file_search (S fuel) fs_info extensions search_query
    (before ++ entry :: rest) parent_path files_list
  = recursive_file_search (S fuel) fs_info extensions search_query
      (before ++ rest) parent_path files_list.
Proof.
  intros Hname Hmeta Htype Hopen. rewrite !recursive_file_search_step.
  f_equal. rewrite !fold_left_app. cbn [fold_left].
  now rewrite (search_entry_unopenable _ _ _ _ _ _ entry name meta e).
Qed.

Lemma walk_skips_unopenable_subdirectory_witness :
  let locked := example_entry "locked" (Some (example_dir 99)) in
  @recursive_file_search ascii_case ascii_codec 5 example_fs None None
    (firstn 3 example_root ++ locked :: skipn 3 example_root) "/" []
  = @recursive_file_search ascii_case ascii_codec 5 example_fs None None
      (firstn 3 example_root ++ skipn 3 example_root) "/" [].
Proof.
  intros locked.
  apply (@walk_skips_unopenable_subdirectory ascii_case ascii_codec 4
      example_fs None None
           (firstn 3 example_root) locked (skipn 3 example_root) "/" []
           (encode "locked") (example_dir 99) IOError);
    reflexivity.
Defined.

(** An entry that is not a sub-directory adds its row, if it has one. *)
Lemma search_entry_flat `{Unicode} `{Codec}
    (rec : list TSK_FS_FILE -> string -> list FileInfo -> res (list FileInfo))
    (fs_info : FS_Info) (parent_path : string)
    (extensions : option (list string)) (search_query : option string)
    (files_list : list FileInfo) (entry : TSK_FS_FILE) :
  is_subdirectory entry = false ->
  match search_entry rec fs_info parent_path extensions search_query
          files_list entry with
  | Ok files_list' => files_list'
  | Raise _ => files_list
  end
  = files_list ++
    match walk_row parent_path extensions search_query entry with
    | Some file_info => [file_info]
    | None => []
    end.
Proof.
  unfold is_subdirectory, search_entry, walk_row.
  destruct (info_name entry) as [name | e]; py_run;
    [| now rewrite app_nil_r].
  destruct (info_meta entry) as [meta | e]; cbn.
  - destruct (name_is_dot name); cbn; [now rewrite app_nil_r |].
    intros ->. cbn.
    destruct (meta_has_type meta TSK_FS_META_TYPE_REG && _); cbn;
      [| now rewrite app_nil_r].
    destruct (get_file_metadata entry parent_path); cbn;
      [reflexivity | now rewrite app_nil_r].
  - intros _. destruct (name_is_dot name); cbn; now rewrite app_nil_r.
Qed.

Lemma fold_left_rows {A B : Type} (step : list A -> B -> list A)
    (row : B -> option A) (l : list B) (acc : list A) :
  (forall acc x, In x l ->
     step acc x = acc ++ match row x with Some a => [a] | None => [] end) ->
  fold_left step l acc = acc ++ omap row l.
Proof.
  revert acc. induction l as [| x l IH]; intros acc Hstep; cbn.
  - now rewrite app_nil_r.
  - rewrite IH by (intros; apply Hstep; now right).
    rewrite (Hstep acc x) by now left.
    destruct (row x); cbn; [now rewrite <- app_assoc | now rewrite app_nil_r].
Qed.

(** X12. Over a directory without sub-directories the walk returns, in
    directory order, one record for each entry that is a regular file,
    is not [.] or [..], passes the filter and whose name decodes; each
    record carries the decoded name, the path joined to the parent path
    and the inode of the entry. *)
Theorem walk_flat_directory `{Unicode} `{Codec} (fuel : nat) (fs_info : FS_Info)
    (extensions : option (list string)) (search_query : option string)
    (directory : list TSK_FS_FILE) (parent_path : string)
    (files_list : list FileInfo) :
  (forall entry, In entry directory -> is_subdirectory entry = false) ->
  recursive_file_search (S fuel) fs_info extensions search_query
    directory parent_path files_list
  = Ok (files_list
        ++ omap (walk_row parent_path extensions search_query) directory) /\
  (forall file_info,
     In file_info
        (omap (walk_row parent_path extensions search_query) directory) ->
     exists entry name meta,
       In entry directory /\
       info_name entry = Ok name /\ name <> [x2e] /\ name <> [x2e; x2e] /\
       info_meta entry = Ok (Some meta) /\
       meta_type meta = TSK_FS_META_TYPE_REG /\
       query_matches search_query extensions (decode_ignore name) = true /\
       decode_strict name = Ok (fi_name file_info) /\
       fi_path file_info = path_join parent_path (fi_name file_info) /\
       fi_inode_item file_info = meta_addr meta /\
       fi_size file_info = meta_size meta).
Proof.
  intros Hflat. split.
  - rewrite recursive_file_search_step. f_equal.
    apply fold_left_rows. intros acc entry Hin.
    apply search_entry_flat. now apply Hflat.
  - intros file_info Hin. apply list_elem_of_In, list_elem_of_omap in Hin.
    destruct Hin as (entry & Hentry & Hrow). apply list_elem_of_In in Hentry.
    unfold walk_row in Hrow.
    destruct (info_name entry) as [name | e] eqn:Hname; [| discriminate].
    destruct (info_meta entry) as [meta | e] eqn:Hmeta; [| discriminate].
    destruct (name_is_dot name) eqn:Hdot; [discriminate |].
    destruct (meta_has_type meta TSK_FS_META_TYPE_REG) eqn:Hreg;
      [| discriminate].
    destruct (query_matches _ _ _) eqn:Hmatch; [| discriminate].
    cbn in Hrow. unfold get_file_metadata in Hrow.
    rewrite Hname, Hmeta in Hrow. py_run.
    destruct (decode_strict name) as [file_name | e] eqn:Hdecode;
      [| discriminate].
    destruct meta as [m |]; [| discriminate]. cbn in Hrow, Hreg.
    injection Hrow as <-. exists entry, name, m. cbn.
    assert (Hnd : name <> [x2e] /\ name <> [x2e; x2e])
      by (split; intros ->; discriminate Hdot).
    destruct Hnd as [Hnd1 Hnd2].
    assert (Htype : meta_type m = TSK_FS_META_TYPE_REG)
      by (destruct (meta_type m); (reflexivity || discriminate Hreg)).
    repeat (split; [first [assumption | reflexivity] |]). reflexivity.
Qed.

Lemma walk_flat_directory_witness :
  @recursive_file_search ascii_case ascii_codec 1 example_fs
    (Some [".jpg"]) None example_docs "/docs" []
  = Ok ([] ++ omap (@walk_row ascii_case ascii_codec "/docs"
                      (Some [".jpg"]) None)
                example_docs) /\
  (forall file_info,
     In file_info
        (omap (@walk_row ascii_case ascii_codec "/docs" (Some [".jpg"]) None)
           example_docs) ->
     exists entry name meta,
       In entry example_docs /\
       info_name entry = Ok name /\ name <> [x2e] /\ name <> [x2e; x2e] /\
       info_meta entry = Ok (Some meta) /\
       meta_type meta = TSK_FS_META_TYPE_REG /\
       @query_matches ascii_case None (Some [".jpg"])
         (@decode_ignore ascii_codec name) = true /\
       @decode_strict ascii_codec name = Ok (fi_name file_info) /\
       fi_path file_info = path_join "/docs" (fi_name file_info) /\
       fi_inode_item file_info = meta_addr meta /\
       fi_size file_info = meta_size meta).
Proof.
  apply (@walk_flat_directory ascii_case ascii_codec 0 example_fs
           (Some [".jpg"]) None example_docs "/docs" []).
  intros entry Hin. cbn in Hin.
  repeat (destruct Hin as [<- | Hin]; [reflexivity |]). destruct Hin.
Defined.


(** ** Members that cannot be extracted *)

(** X13. [_extract_zip_entry] never raises and answers [None] whenever
    the member cannot be produced: the host file has no content, the
    content does not parse as an archive, no member is stored under the
    path, or extracting the member fails. *)
Theorem extract_zip_entry_failures `{ZipLib}
    (zip_parent_inode zip_parent_offset : Z) (zip_path : string)
    (self : ImageHandler) :
  let result :=
    fst (_extract_zip_entry zip_parent_inode zip_parent_offset zip_path self) in
  (exists r, result = Ok r) /\
  (forall meta,
     fst (get_file_content zip_parent_inode zip_parent_offset self)
       = Ok (None, meta) ->
     result = Ok None) /\
  (forall content meta,
     fst (get_file_content zip_parent_inode zip_parent_offset self)
       = Ok (Some content, meta) ->
     content <> [] ->
     (is_Ok (ZipFile content) = false -> result = Ok None) /\
     (forall members,
        ZipFile content = Ok members ->
        (~ In zip_path (map zi_filename members) -> result = Ok None) /\
        (forall m e,
           getinfo members zip_path = Some m -> zi_data m = Raise e ->
           result = Ok None))).
Proof.
  intros result. split; [| split].
  - subst result. unfold _extract_zip_entry. py_run.
    destruct (get_file_content _ _ self) as [[r | e] self']; cbn; [| eauto].
    destruct (no_content (fst r)); cbn; [eauto |].
    destruct (ZipFile _); cbn; [| eauto].
    destruct (zip_read _ _); cbn; eauto.
  - intros meta Hread. subst result. unfold _extract_zip_entry. py_run.
    destruct (get_file_content _ _ self) as [r self']. cbn in Hread.
    subst r. reflexivity.
  - intros content meta Hread Hne. subst result.
    rewrite (_extract_zip_entry_result zip_parent_inode zip_parent_offset
               zip_path self content meta Hread Hne).
    split.
    + destruct (ZipFile content); [discriminate | reflexivity].
    + intros members ->. unfold zip_read. split.
      * intros Hnot. now rewrite (getinfo_None members zip_path Hnot).
      * intros m e -> ->. reflexivity.
Qed.

Lemma extract_zip_entry_failures_witness :
  fst (@_extract_zip_entry example_zip_lib 72 0 "missing.txt"
         (new_handler "a.dd" archive_img)) = Ok None /\
  fst (@_extract_zip_entry example_zip_lib 73 0 "a.txt"
         (new_handler "a.dd" archive_img)) = Ok None /\
  fst (@_extract_zip_entry example_zip_lib 99 0 "a.txt"
         (new_handler "a.dd" archive_img)) = Ok None.
Proof.
  destruct (@extract_zip_entry_failures example_zip_lib 72 0 "missing.txt"
              (new_handler "a.dd" archive_img)) as (_ & _ & Hzip).
  destruct (@extract_zip_entry_failures example_zip_lib 73 0 "a.txt"
              (new_handler "a.dd" archive_img)) as (_ & _ & Hjunk).
  destruct (@extract_zip_entry_failures example_zip_lib 99 0 "a.txt"
              (new_handler "a.dd" archive_img)) as (_ & Hnone & _).
  split; [| split].
  - destruct (Hzip example_zip_blob _ eq_refl ltac:(discriminate)) as (_ & Hm).
    destruct (Hm example_members eq_refl) as (Hmissing & _).
    apply Hmissing. cbn. intros [Hx | [Hx | [Hx | []]]]; discriminate Hx.
  - destruct (Hjunk (encode "PKjunk") _ eq_refl ltac:(discriminate))
      as (Hbad & _).
    apply Hbad. reflexivity.
  - apply (Hnone None). reflexivity.
Defined.

(** ** The OS identity *)

(** After a call of [get_fs_info] the mounted filesystem is found
    again, in the same handler. *)
Lemma get_fs_info_again (start_offset : Z) (self : ImageHandler)
    (fs : FS_Info) :
  fst (get_fs_info start_offset self) = Ok (Some fs) ->
  exists h,
    get_fs_info start_offset self = (Ok (Some fs), h) /\
    get_fs_info start_offset h = (Ok (Some fs), h).
Proof.
  unfold get_fs_info.
  destruct (fs_info_cache self !! start_offset) as [fs0 |] eqn:Hc.
  - cbn. intros [= ->]. exists self. now rewrite Hc.
  - destruct (FS_Info_at _ _) as [fs0 | e]; cbn; [| discriminate].
    intros [= ->]. eexists. split; [reflexivity |]. cbn.
    now rewrite lookup_insert_eq.
Qed.

(** X14. [get_windows_version] answers [None] and touches nothing in
    the temporary directory when the filesystem does not mount, when it
    is not NTFS, and when the SOFTWARE hive is missing, unreadable or
    empty. *)
Theorem get_windows_version_not_applicable `{RegistryLib}
    (start_offset : Z) (hs : HostState) :
  let mounted := fst (get_fs_info start_offset (hs_handler hs)) in
  let '(r, hs') := get_windows_version start_offset hs in
  (mounted = Ok None \/
   (exists fs, mounted = Ok (Some fs) /\
      (ftype fs <> TSK_FS_TYPE_NTFS \/
       get_registry_hive fs "/Windows/System32/config/SOFTWARE" = None \/
       get_registry_hive fs "/Windows/System32/config/SOFTWARE" = Some []))) ->
  r = Ok None /\ hs_tmp hs' = hs_tmp hs /\ hs_next hs' = hs_next hs.
Proof.
  intros mounted. subst mounted.
  unfold get_windows_version, on_handler, get_fs_type. py_run.
  destruct (get_fs_info start_offset (hs_handler hs)) as [[[fs |] | e] h] eqn:Hget;
    cbn.
  - destruct (get_fs_info_again start_offset (hs_handler hs) fs)
      as (h' & Hfirst & Hsecond); [now rewrite Hget |].
    rewrite Hget in Hfirst. injection Hfirst as <-. rewrite Hsecond. cbn.
    destruct (fs_type_name_cases (ftype fs)) as (_ & _ & Hntfs).
    destruct (String.eqb_spec (fs_type_name (ftype fs)) "NTFS") as [Hname | Hname];
      cbn.
    + destruct (get_registry_hive fs "/Windows/System32/config/SOFTWARE")
        as [[| b hive] |] eqn:Hhive; cbn; [auto | | auto].
      match goal with
      | |- (let '(_, _) := ?run in _) => destruct run as [r hs']
      end.
      intros [Hnone | (fs' & [= <-] & [Htype | [Hh | Hh]])];
        try discriminate; try congruence.
      apply Hntfs in Hname. contradiction.
    + auto.
  - auto.
  - intros [Hnone | (fs' & Hsome & _)]; discriminate.
Qed.

Lemma get_windows_version_not_applicable_witness :
  let hs := mk_host (new_handler "disk.dd" archive_img) ∅ 1%positive in
  let '(r, hs') := @get_windows_version example_registry_lib 0 hs in
  r = Ok None /\ hs_tmp hs' = hs_tmp hs /\ hs_next hs' = hs_next hs.
Proof.
  intros hs.
  pose proof (@get_windows_version_not_applicable example_registry_lib 0 hs)
    as Hskip.
  cbv zeta in Hskip.
  destruct (get_windows_version 0 hs) as [r hs']. apply Hskip.
  right. exists archive_fs. split; [reflexivity |]. left. discriminate.
Defined.

Lemma get_reg_value_placeholder (reg_key : RegistryKey) (value_name : string) :
  (is_Ok (key_value reg_key value_name) = true \/
   key_value reg_key value_name = Raise RegistryValueNotFoundException) ->
  get_reg_value reg_key value_name = Ok (value_or_na reg_key value_name).
Proof.
  unfold get_reg_value, value_or_na.
  destruct (key_value reg_key value_name) as [v | e]; [reflexivity |].
  intros [Hok | [= ->]]; [discriminate Hok | reflexivity].
Qed.

(** X15. On an NTFS volume whose SOFTWARE hive parses and holds the
    CurrentVersion key, [get_windows_version] answers the formatted
    identity in which every value the key lacks reads "N/A", and
    leaves the temporary directory as it found it; a lookup that raises
    anything but value-not-found makes the whole call answer the error
    text instead. *)
Theorem get_windows_version_identity `{RegistryLib}
    (start_offset : Z) (hs : HostState) (fs : FS_Info)
    (b : byte) (hive : bytes) (reg : RegistryHive) (key : RegistryKey) :
  fst (get_fs_info start_offset (hs_handler hs)) = Ok (Some fs) ->
  ftype fs = TSK_FS_TYPE_NTFS ->
  get_registry_hive fs "/Windows/System32/config/SOFTWARE" = Some (b :: hive) ->
  hs_tmp hs !! hs_next hs = None ->
  Registry_Registry (b :: hive) = Ok reg ->
  reg_open reg "Microsoft\Windows NT\CurrentVersion" = Ok key ->
  let '(r, hs') := get_windows_version start_offset hs in
  ((forall value_name, In value_name identity_values ->
      is_Ok (key_value key value_name) = true \/
      key_value key value_name = Raise RegistryValueNotFoundException) ->
   r = Ok (Some (value_or_na key "ProductName" +:+ " Version " +:+
                 value_or_na key "CurrentVersion" +:+ nl +:+
                 "Build " +:+ value_or_na key "CurrentBuild" +:+ " " +:+
                 value_or_na key "CSDVersion" +:+ nl +:+
                 "Owner: " +:+ value_or_na key "RegisteredOwner" +:+ nl +:+
                 "Product ID: " +:+ value_or_na key "ProductId")) /\
   hs_tmp hs' = hs_tmp hs) /\
  (forall e, key_value key "ProductName" = Raise e ->
     e <> RegistryValueNotFoundException ->
     r = Ok (Some "Error in parsing OS version")).
Proof.
  intros Hmount Hntfs Hhive Hfresh Hreg Hkey.
  pose proof (get_windows_version_temp_file start_offset hs fs b hive
                Hmount Hntfs Hhive Hfresh) as Hrun.
  destruct (get_windows_version start_offset hs) as [r hs'].
  unfold parse_os_version in Hrun. rewrite Hreg in Hrun. py_run.
  rewrite Hkey in Hrun. py_run. split.
  - intros Hvalues.
    rewrite !get_reg_value_placeholder in Hrun
      by (apply Hvalues; unfold identity_values; cbn; tauto).
    exact Hrun.
  - intros e Hraise Hother. unfold get_reg_value in Hrun at 1.
    rewrite Hraise in Hrun.
    destruct e; try (now destruct Hrun); contradiction.
Qed.

Lemma get_windows_version_identity_witness :
  let '(r, hs') := @get_windows_version example_registry_lib 0
                     (windows_host (encode "regf:software")) in
  r = Ok (Some ("Windows 10 Pro Version 6.3" +:+ nl +:+
                "Build 19045 N/A" +:+ nl +:+
                "Owner: analyst" +:+ nl +:+
                "Product ID: 00330-80000")) /\
  hs_tmp hs' = ∅.
Proof.
  pose proof (@get_windows_version_identity example_registry_lib 0
                (windows_host (encode "regf:software"))
                (windows_fs (encode "regf:software")) "r"%byte
                (encode "egf:software") example_hive example_key
                eq_refl eq_refl eq_refl eq_refl eq_refl eq_refl) as Hrun.
  destruct (get_windows_version 0 _) as [r hs'].
  destruct Hrun as (Hident & _). apply Hident.
  intros value_name Hin. unfold identity_values in Hin. cbn in Hin.
  repeat (destruct Hin as [<- | Hin]; [first [left; reflexivity | right; reflexivity] |]).
  destruct Hin.
Defined.


(** ** Reads over a segmented container *)

Lemma READ_BUFFER_SIZE_pos : 0 < READ_BUFFER_SIZE.
Proof. reflexivity. Qed.

Lemma byte_range_shift (media : bytes) (start rel size : Z) :
  0 <= start -> 0 <= rel ->
  byte_range media (start + rel) size
  = byte_range (skipn (Z.to_nat start) media) rel size.
Proof.
  intros Hs Hr. unfold byte_range. rewrite skipn_skipn. do 2 f_equal. lia.
Qed.

(** The loop of [EWFImgInfo.read], started with the cursor on
    [current_offset]: it gathers the requested range, leaves the cursor
    after the last byte read and returns that offset. *)
Lemma ewf_read_chunks_range (media : bytes) (start size : Z) :
  0 <= start ->
  forall (fuel : nat) (data : bytes) (remaining current_offset : Z)
         (self : EWFImgInfo),
    ewf_media (_ewf_handle self) = media ->
    ewf_position (_ewf_handle self) = current_offset ->
    start <= current_offset -> 0 <= remaining ->
    current_offset + remaining = start + size ->
    data = byte_range media start (current_offset - start) ->
    (Z.to_nat remaining <= fuel)%nat ->
    exists self',
      ewf_read_chunks fuel data remaining current_offset self
      = (Ok (byte_range media start size,
             ewf_position (_ewf_handle self')), self') /\
      ewf_media (_ewf_handle self') = media /\
      _last_offset self' = _last_offset self.
Proof.
  intros Hstart fuel.
  induction fuel as [| fuel IH];
    intros data remaining off self Hmedia Hposition Hoff Hrem Hsum Hdata Hfuel.
  - exists self. cbn. rewrite Hposition.
    split; [| split; [exact Hmedia | reflexivity]].
    subst data. replace (off - start) with size by lia. reflexivity.
  - cbn [ewf_read_chunks]. destruct (remaining >? 0) eqn:Hpos.
    + rewrite Z.gtb_ltb in Hpos. apply Z.ltb_lt in Hpos.
      pose proof READ_BUFFER_SIZE_pos as Hbuf.
      set (m := Z.min remaining READ_BUFFER_SIZE).
      assert (Hm : 0 < m <= remaining) by (unfold m; lia).
      unfold ewf_seek, ewf_handle_read. py_run.
      destruct (off <? 0) eqn:Hneg; [apply Z.ltb_lt in Hneg; lia |].
      cbn. rewrite Hmedia.
      pose proof (len_byte_range media off m ltac:(lia) ltac:(lia)) as Hlen.
      destruct (byte_range media off m) as [| b chunk] eqn:Hrange.
      * exists (mk_ewf_img (mk_ewf_handle media (off + len (@nil byte)))
                  (_last_offset self)).
        split; [| split; reflexivity].
        change (len (@nil byte)) with 0. cbn. rewrite Z.add_0_r.
        do 3 f_equal. subst data.
        unfold len in Hlen. cbn [length] in Hlen. unfold byte_range.
        rewrite !firstn_all2; [reflexivity | |];
          rewrite length_skipn; lia.
      * rewrite <- Hrange in *.
        assert (Hpos' : 0 < len (byte_range media off m)).
        { rewrite Hrange. unfold len. cbn [length]. lia. }
        assert (Hle : len (byte_range media off m) <= m) by lia.
        destruct (IH (data ++ byte_range media off m)
                    (remaining - len (byte_range media off m))
                    (off + len (byte_range media off m))
                    (mk_ewf_img
                       (mk_ewf_handle media
                          (off + len (byte_range media off m)))
                       (_last_offset self)))
          as (self' & Hrun & Hmedia' & Hlast'); cbn; try lia; try reflexivity.
        -- subst data.
           replace off with (start + (off - start)) at 2 by lia.
           rewrite byte_range_shift by lia.
           set (tail := skipn (Z.to_nat start) media).
           set (n := len (byte_range media off m)) in *.
           unfold byte_range. cbn [Z.to_nat skipn Pos.to_nat].
           change (Z.to_nat 0) with 0%nat. cbn [skipn].
           fold tail. rewrite firstn_extend.
           destruct (Z.le_gt_cases m (len media - off)) as [Hfull | Hshort].
           ++ f_equal. lia.
           ++ rewrite !firstn_all2; [reflexivity | |];
                unfold tail; rewrite length_skipn; unfold len in *; lia.
        -- exists self'. split; [exact Hrun | split; [exact Hmedia' |]].
           exact Hlast'.
    + rewrite Z.gtb_ltb in Hpos. apply Z.ltb_ge in Hpos.
      exists self. cbn. rewrite Hposition.
      split; [| split; [exact Hmedia | reflexivity]].
      subst data. replace (off - start) with size by lia. reflexivity.
Qed.

(** One read keeps the cached offset on the cursor and returns the
    requested range. *)
Lemma EWFImgInfo_read_range (self : EWFImgInfo) (offset size : Z) :
  ewf_cursor_cached self -> 0 <= offset -> 0 <= size ->
  exists self',
    EWFImgInfo_read offset size self
    = (Ok (byte_range (ewf_media (_ewf_handle self)) offset size), self') /\
    ewf_cursor_cached self' /\
    ewf_media (_ewf_handle self') = ewf_media (_ewf_handle self).
Proof.
  intros Hcached Hoffset Hsize. unfold EWFImgInfo_read. py_run.
  destruct self as [[media pos] last]. unfold ewf_cursor_cached in Hcached.
  cbn in Hcached |- *.
  (* either way the cursor and the cached offset are on [offset] *)
  destruct (last =? offset) eqn:Hlast; cbn;
    [ apply Z.eqb_eq in Hlast; subst last;
      assert (pos = offset) by lia; subst pos
    | unfold ewf_seek, set_last_offset;
      destruct (offset <? 0) eqn:Hneg; [apply Z.ltb_lt in Hneg; lia |];
      cbn ].
  all: destruct (size >? READ_BUFFER_SIZE) eqn:Hbig.
  all: try (destruct (ewf_read_chunks_range media offset size Hoffset
                        (Z.to_nat size) [] size offset
                        (mk_ewf_img (mk_ewf_handle media offset) offset)
                        eq_refl eq_refl)
              as (self' & Hrun & Hmedia' & _);
            [lia | lia | lia | now rewrite Z.sub_diag | lia |];
            rewrite Hrun; cbn;
            eexists; split; [reflexivity |];
            split; [right; reflexivity | exact Hmedia']).
  all: eexists; split; [reflexivity |]; split; [| reflexivity];
    right; cbn; destruct (byte_range media offset size);
    [unfold len; cbn; lia | reflexivity].
Qed.

Lemma EWFImgInfo_reads_ranges (requests : list (Z * Z)) :
  forall self : EWFImgInfo,
    ewf_cursor_cached self ->
    Forall (fun r => 0 <= fst r /\ 0 <= snd r) requests ->
    fst (EWFImgInfo_reads requests self)
    = Ok (map (fun r => byte_range (ewf_media (_ewf_handle self))
                          (fst r) (snd r)) requests).
Proof.
  induction requests as [| [offset size] rest IH]; intros self Hcached Hvalid.
  - reflexivity.
  - apply Forall_cons_iff in Hvalid as [[Ho Hn] Hrest]. cbn in Ho, Hn.
    destruct (EWFImgInfo_read_range self offset size Hcached Ho Hn)
      as (self' & Hread & Hcached' & Hmedia).
    cbn [EWFImgInfo_reads]. py_run. rewrite Hread.
    specialize (IH self' Hcached' Hrest). rewrite Hmedia in IH.
    destruct (EWFImgInfo_reads rest self') as [r self'']. cbn in IH.
    subst r. reflexivity.
Qed.

(** X16. Skipping the seek when the cached offset equals the requested
    one never changes a result: whatever reads are made one after the
    other on an [EWFImgInfo], from its creation on, each returns the
    bytes of the media at its offset, through the single read as
    through the loop of one-megabyte reads; a read is shorter than
    asked exactly at the end of the media, where its length is what is
    left from the offset on. *)
Theorem ewf_reads_return_ranges (media : bytes) (requests : list (Z * Z)) :
  Forall (fun r => 0 <= fst r /\ 0 <= snd r) requests ->
  fst (EWFImgInfo_reads requests (EWFImgInfo_init media))
  = Ok (map (fun r => byte_range media (fst r) (snd r)) requests) /\
  Forall (fun r =>
            len (byte_range media (fst r) (snd r))
            = Z.min (snd r) (Z.max 0 (len media - fst r)))
    requests.
Proof.
  intros Hvalid. split.
  - apply (EWFImgInfo_reads_ranges requests (EWFImgInfo_init media));
      [left; reflexivity | exact Hvalid].
  - eapply Forall_impl; [exact Hvalid |].
    intros [o n] [Ho Hn]. cbn in *. now apply len_byte_range.
Qed.

Lemma ewf_reads_return_ranges_witness :
  fst (EWFImgInfo_reads [(0, 4); (4, 3); (2, 100); (40, 8)]
         (EWFImgInfo_init (encode "EVF segment")))
  = Ok (map (fun r => byte_range (encode "EVF segment") (fst r) (snd r))
          [(0, 4); (4, 3); (2, 100); (40, 8)]) /\
  Forall (fun r =>
            len (byte_range (encode "EVF segment") (fst r) (snd r))
            = Z.min (snd r) (Z.max 0 (len (encode "EVF segment") - fst r)))
    [(0, 4); (4, 3); (2, 100); (40, 8)].
Proof.
  apply (ewf_reads_return_ranges (encode "EVF segment")).
  repeat constructor; cbn; lia.
Defined.


(** ** Hashing an image *)

Lemma get_image_type_kinds `{Unicode}
    (image_path : string) (image_type : string) :
  get_image_type image_path = Ok image_type ->
  image_type = "ewf" \/ image_type = "raw".
Proof.
  unfold get_image_type.
  destruct (str_in _ ewf); [intros [= <-]; now left |].
  destruct (str_in _ raw); [intros [= <-]; now right | discriminate].
Qed.

(** The loop invariant: the three hash objects have been fed the
    prefix of the media before [position], and [size] is its length. *)
Lemma hash_chunks_whole `{HashLib} (media : bytes) (a b c : hash_object) :
  forall (fuel : nat) (position : Z),
    0 <= position <= len media ->
    (length media - Z.to_nat position < fuel)%nat ->
    hash_chunks fuel media position
      (update a (firstn (Z.to_nat position) media))
      (update b (firstn (Z.to_nat position) media))
      (update c (firstn (Z.to_nat position) media)) position
    = (update a media, update b media, update c media, len media).
Proof.
  induction fuel as [| fuel IH]; intros position Hposition Hfuel; [lia |].
  cbn [hash_chunks].
  pose proof READ_BUFFER_SIZE_pos as Hbuf.
  generalize dependent READ_BUFFER_SIZE. intros buffer Hbuf.
  pose proof (len_byte_range media position buffer
                ltac:(lia) ltac:(lia)) as Hlen.
  destruct (byte_range media position buffer) as [| x chunk] eqn:Hrange.
  - unfold len in Hlen, Hposition. cbn [length] in Hlen.
    rewrite firstn_all2 by lia. do 3 f_equal. unfold len. lia.
  - rewrite <- Hrange in Hlen |- *.
    assert (Hn : 0 < len (byte_range media position buffer)).
    { rewrite Hrange. unfold len. cbn [length]. lia. }
    clear Hrange x chunk.
    assert (Hprefix :
              (firstn (Z.to_nat position) media
               ++ byte_range media position buffer)%list
              = firstn (Z.to_nat
                          (position
                           + len (byte_range media position buffer)))
                  media).
    { rewrite Hlen. unfold byte_range. rewrite firstn_extend.
      destruct (Z.le_gt_cases buffer (len media - position))
        as [Hfull | Hshort].
      - f_equal. lia.
      - unfold len in *. rewrite !firstn_all2; [reflexivity | |]; lia. }
    rewrite !update_app, Hprefix.
    apply IH; [lia |]. unfold len in *. lia.
Qed.

Lemma hash_chunks_image `{HashLib} (media : bytes) :
  hash_chunks (S (length media)) media 0
    hashlib_md5 hashlib_sha1 hashlib_sha256 0
  = (update hashlib_md5 media, update hashlib_sha1 media,
     update hashlib_sha256 media, len media).
Proof.
  pose proof (hash_chunks_whole media hashlib_md5 hashlib_sha1 hashlib_sha256
                (S (length media)) 0) as Hrun.
  cbn [Z.to_nat firstn] in Hrun. rewrite !update_nil in Hrun.
  apply Hrun; [pose proof (len_nonneg media) | cbn [Z.to_nat]]; lia.
Qed.

(** X17. Hashing in chunks of one megabyte gives the digests of the
    whole image: whatever the size of the media, [calculate_hashes]
    reports for each of the three algorithms the digest of all the bytes
    of the media fed at once, and the number of those bytes as the size;
    a raw image has no stored hashes. *)
Theorem calculate_hashes_whole_image `{Unicode} `{HashLib}
    (ewf_opened : res EwfFile)
    (raw_opened : res bytes) (self : ImageHandler)
    (image_type : string) (media : bytes) :
  get_image_type (image_path self) = Ok image_type ->
  (image_type = "ewf" ->
   exists ewf_handle, ewf_opened = Ok ewf_handle /\ ef_media ewf_handle = media) ->
  (image_type = "raw" -> raw_opened = Ok media) ->
  exists hashes,
    calculate_hashes ewf_opened raw_opened self = Ok hashes /\
    computed_md5 hashes = hexdigest (update hashlib_md5 media) /\
    computed_sha1 hashes = hexdigest (update hashlib_sha1 media) /\
    computed_sha256 hashes = hexdigest (update hashlib_sha256 media) /\
    hashes_size hashes = len media /\
    hashes_path hashes = image_path self /\
    (image_type = "raw" ->
     stored_md5 hashes = None /\ stored_sha1 hashes = None).
Proof.
  intros Htype Hewf Hraw. unfold calculate_hashes. rewrite Htype.
  destruct (get_image_type_kinds _ _ Htype) as [-> | ->].
  - destruct (Hewf eq_refl) as (ewf_handle & -> & <-).
    cbv beta iota delta [mbind res_bind].
    change (String.eqb "ewf" "ewf") with true. cbv beta iota.
    rewrite hash_chunks_image.
    eexists. split; [reflexivity |].
    do 5 (split; [reflexivity |]). discriminate.
  - rewrite (Hraw eq_refl).
    cbv beta iota delta [mbind res_bind].
    change (String.eqb "raw" "ewf") with false.
    change (String.eqb "raw" "raw") with true. cbv beta iota.
    rewrite hash_chunks_image.
    eexists. split; [reflexivity |].
    do 5 (split; [reflexivity |]). intros _. split; reflexivity.
Qed.

Lemma calculate_hashes_whole_image_witness :
  exists hashes,
    @calculate_hashes ascii_case example_hashlib
        (Ok example_ewf_file) (Raise IOError)
      (new_handler "case.E01" example_img) = Ok hashes /\
    computed_md5 hashes
      = @hexdigest example_hashlib
          (@update example_hashlib (@hashlib_md5 example_hashlib)
             (encode "EVF segment")) /\
    hashes_size hashes = 11.
Proof.
  destruct (@calculate_hashes_whole_image ascii_case example_hashlib
              (Ok example_ewf_file) (Raise IOError)
              (new_handler "case.E01" example_img) "ewf"
              (encode "EVF segment") eq_refl)
    as (hashes & Hrun & Hmd5 & _ & _ & Hsize & _).
  - intros _. exists example_ewf_file. split; reflexivity.
  - discriminate.
  - exists hashes. split; [exact Hrun |]. split; [exact Hmd5 | exact Hsize].
Defined.


(** ** Detecting an archive and listing it *)

(** X18. [_is_zip_file] never raises.  A name with an archive
    extension is accepted without reading anything; any other file is
    accepted exactly when its content has at least four bytes and
    starts with PK.  Hence every file of four bytes or more that
    [_get_zip_contents] can list is detected whatever its name, while a
    file that only bears the extension is detected and then lists
    nothing. *)
Theorem is_zip_file_detection `{Unicode} `{ZipLib} (entry_name : string)
    (inode_number start_offset : Z) (self : ImageHandler) :
  let named := existsb (endswith (lower entry_name)) archive_extensions in
  let detected := fst (_is_zip_file entry_name inode_number start_offset self) in
  let listed := fst (_get_zip_contents inode_number start_offset self) in
  (named = true ->
   _is_zip_file entry_name inode_number start_offset self = (Ok true, self)) /\
  (exists b, detected = Ok b) /\
  (forall content meta,
     fst (get_file_content inode_number start_offset self)
       = Ok (Some content, meta) ->
     (named = false ->
      detected = Ok ((4 <=? len content) && has_pk_signature content)) /\
     (forall entries,
        listed = Ok (Some entries) -> 4 <= len content -> detected = Ok true) /\
     (named = true -> has_pk_signature content = false ->
      detected = Ok true /\ listed = Ok None)).
Proof.
  intros named detected listed.
  assert (Hnamed : named = true ->
            _is_zip_file entry_name inode_number start_offset self
            = (Ok true, self)).
  { intros Hn. unfold _is_zip_file. fold named. now rewrite Hn. }
  assert (Hread : forall content meta,
            fst (get_file_content inode_number start_offset self)
              = Ok (Some content, meta) ->
            named = false ->
            detected = Ok ((4 <=? len content) && has_pk_signature content)).
  { intros content meta Hget Hn. subst detected. unfold _is_zip_file.
    fold named. rewrite Hn. py_run.
    destruct (get_file_content inode_number start_offset self) as [r self'].
    cbn in Hget. subst r. cbn [fst content_of].
    rewrite Z.geb_leb.
    destruct content as [| b content]; [reflexivity |].
    cbn [no_content negb andb].
    destruct (4 <=? len (b :: content)); [| reflexivity].
    destruct (has_pk_signature (b :: content)); reflexivity. }
  assert (Hlisted : forall content meta,
            fst (get_file_content inode_number start_offset self)
              = Ok (Some content, meta) ->
            has_pk_signature content = false -> listed = Ok None).
  { intros content meta Hget Hpk. subst listed.
    destruct content as [| b content].
    - unfold _get_zip_contents. py_run.
      destruct (get_file_content inode_number start_offset self) as [r self'].
      cbn in Hget. subst r. reflexivity.
    - rewrite (_get_zip_contents_result inode_number start_offset self
                 (b :: content) meta Hget ltac:(discriminate)).
      now rewrite Hpk. }
  split; [exact Hnamed |]. split.
  - subst detected. destruct named eqn:Hn.
    + rewrite (Hnamed eq_refl). eauto.
    + unfold _is_zip_file. fold named. rewrite Hn. py_run.
      destruct (get_file_content inode_number start_offset self)
        as [[r | e] self']; cbn; [| eauto].
      destruct (negb (no_content (fst r)) && _); [| eauto].
      destruct (has_pk_signature _); eauto.
  - intros content meta Hget. split; [exact (Hread content meta Hget) |]. split.
    + intros entries Hlist Hlen. destruct named eqn:Hn.
      * subst detected. now rewrite (Hnamed eq_refl).
      * rewrite (Hread content meta Hget eq_refl).
        destruct (has_pk_signature content) eqn:Hpk.
        -- apply Z.leb_le in Hlen. now rewrite Hlen.
        -- rewrite (Hlisted content meta Hget Hpk) in Hlist. discriminate.
    + intros Hn Hpk. split.
      * subst detected. now rewrite (Hnamed Hn).
      * exact (Hlisted content meta Hget Hpk).
Qed.

Lemma is_zip_file_detection_witness :
  fst (@_is_zip_file ascii_case "bundle.bin" 72 0
         (new_handler "a.dd" archive_img)) = Ok true /\
  fst (@_is_zip_file ascii_case "notes.ZIP" 64 0
         (new_handler "a.dd" archive_img)) = Ok true /\
  fst (@_get_zip_contents example_zip_lib 64 0
         (new_handler "a.dd" archive_img)) = Ok None.
Proof.
  destruct (@is_zip_file_detection ascii_case example_zip_lib "bundle.bin" 72 0
              (new_handler "a.dd" archive_img)) as (_ & _ & Hmagic).
  destruct (@is_zip_file_detection ascii_case example_zip_lib "notes.ZIP" 64 0
              (new_handler "a.dd" archive_img)) as (_ & _ & Hname).
  destruct (Hmagic example_zip_blob _ eq_refl) as (_ & Hlisted & _).
  destruct (Hname (encode "hello") _ eq_refl) as (_ & _ & Hempty).
  destruct (Hempty eq_refl eq_refl) as (Hdetected & Hnone).
  split; [| split; [exact Hdetected | exact Hnone]].
  apply (Hlisted (map (zip_entry 72 0) example_members));
    [reflexivity | vm_compute; discriminate].
Defined.

(** ** Exporting a file *)

(** X19. [export_file] writes nothing and reports nothing when the
    file has no content: the filesystem does not mount, the file cannot
    be read, or its size is zero.  Otherwise it writes the content at
    [os.path.join(dest_dir, file_name)] and leaves every other path as
    it was, or raises when the host refuses that path; a name that
    starts with a slash is written at that very path, outside
    [dest_dir]. *)
Theorem export_file_outcomes (inode_number offset : Z)
    (dest_dir file_name : string) (hs : ExportHost) :
  let read := fst (get_file_content inode_number offset (eh_handler hs)) in
  let file_path := path_join dest_dir file_name in
  let '(r, hs') := export_file inode_number offset dest_dir file_name hs in
  (forall meta,
     read = Ok (None, meta) \/ read = Ok (Some [], meta) ->
     r = Ok tt /\ eh_files hs' = eh_files hs) /\
  (forall fs file_obj m,
     fst (get_fs_info offset (eh_handler hs)) = Ok (Some fs) ->
     open_meta fs inode_number = Ok file_obj ->
     file_meta file_obj = Some m -> meta_size m = Some 0 ->
     r = Ok tt /\ eh_files hs' = eh_files hs) /\
  (forall content meta,
     read = Ok (Some content, meta) -> content <> [] ->
     if eh_refused hs file_path
     then r = Raise IOError /\ eh_files hs' = eh_files hs
     else r = Ok tt /\
          eh_files hs' = <[file_path := content]> (eh_files hs)) /\
  (forall rest, file_name = String "/" rest -> file_path = file_name).
Proof.
  intros read file_path.
  assert (Hempty : forall meta,
            read = Ok (None, meta) \/ read = Ok (Some [], meta) ->
            export_file inode_number offset dest_dir file_name hs
            = (Ok tt,
               mk_export_host
                 (snd (get_file_content inode_number offset (eh_handler hs)))
                 (eh_files hs) (eh_refused hs))).
  { intros meta Hread. subst read. unfold export_file, on_image_handler.
    py_run.
    destruct (get_file_content inode_number offset (eh_handler hs))
      as [r h]. cbn in Hread |- *.
    destruct Hread as [-> | ->]; reflexivity. }
  assert (Hzero : forall fs file_obj m,
            fst (get_fs_info offset (eh_handler hs)) = Ok (Some fs) ->
            open_meta fs inode_number = Ok file_obj ->
            file_meta file_obj = Some m -> meta_size m = Some 0 ->
            read = Ok (None, None)).
  { intros fs file_obj m Hfs Hopen Hmeta Hsize. subst read.
    unfold get_file_content. py_run.
    destruct (get_fs_info offset (eh_handler hs)) as [r h]. cbn in Hfs.
    subst r. cbn. unfold read_content. rewrite Hopen. py_run.
    rewrite Hmeta. cbn. rewrite Hsize. reflexivity. }
  destruct (export_file inode_number offset dest_dir file_name hs)
    as [r hs'] eqn:Hrun.
  split; [| split; [| split]].
  - intros meta Hread. injection (Hempty meta Hread) as -> ->.
    split; reflexivity.
  - intros fs file_obj m Hfs Hopen Hmeta Hsize.
    injection (Hempty None
                 (or_introl (Hzero fs file_obj m Hfs Hopen Hmeta Hsize)))
      as -> ->.
    split; reflexivity.
  - intros content meta Hread Hne. subst read.
    unfold export_file, on_image_handler, open_wb_write in Hrun. py_run.
    destruct (get_file_content inode_number offset (eh_handler hs))
      as [r0 h]. cbn in Hread. subst r0.
    destruct content as [| b content]; [congruence |].
    cbn in Hrun. fold file_path in Hrun.
    destruct (eh_refused hs file_path); injection Hrun as <- <-;
      split; reflexivity.
  - intros rest ->. reflexivity.
Qed.

Lemma export_file_outcomes_witness :
  let hs := mk_export_host (new_handler "a.dd" archive_img) ∅ (fun _ => false) in
  eh_files (snd (export_file 64 0 "/cases/out" "hello.txt" hs))
    = {[ "/cases/out/hello.txt" := encode "hello" ]} /\
  eh_files (snd (export_file 99 0 "/cases/out" "gone.txt" hs)) = ∅.
Proof.
  intros hs.
  pose proof (export_file_outcomes 64 0 "/cases/out" "hello.txt" hs) as Hfull.
  pose proof (export_file_outcomes 99 0 "/cases/out" "gone.txt" hs) as Hnone.
  cbv zeta in Hfull, Hnone.
  destruct (export_file 64 0 "/cases/out" "hello.txt" hs) as [r1 hs1].
  destruct (export_file 99 0 "/cases/out" "gone.txt" hs) as [r2 hs2].
  destruct Hfull as (_ & _ & Hwritten & _).
  destruct Hnone as (Hskipped & _).
  split.
  - exact (proj2 (Hwritten (encode "hello") _ eq_refl ltac:(discriminate))).
  - exact (proj2 (Hskipped None (or_introl eq_refl))).
Defined.


(** ** The volumes as the tree receives them *)

Lemma get_partitions_reachable `{Codec} (path : string) (img : Img_Info)
    (self : ImageHandler) :
  reachable path img self ->
  exists self1,
    get_partitions self = (Ok (partitions_of img), self1) /\
    reachable path img self1.
Proof.
  intros Hreach. exists (after Call_get_partitions self).
  split; [| now apply reachable_call]. cbn [after].
  pose proof (reachable_volume_sound path img self Hreach) as Hs.
  destruct (_ensure_volume_info_loaded_sound img self Hs) as [Hs' Hloaded].
  unfold get_partitions, partitions_of. py_run.
  assert (Hrun : _ensure_volume_info_loaded self
                 = (Ok tt, snd (_ensure_volume_info_loaded self))).
  { unfold _ensure_volume_info_loaded.
    destruct (_volume_info_loaded self); reflexivity. }
  rewrite Hrun. set (self1 := snd (_ensure_volume_info_loaded self)) in *.
  destruct Hs' as (Himg & Hvol). rewrite Hloaded in Hvol.
  destruct (Volume_Info img) as [v | e].
  - destruct Hvol as (Hv & _). rewrite Hv. reflexivity.
  - destruct Hvol as (Hv & _). rewrite Hv. cbn.
    destruct (is_wiped self1); reflexivity.
Qed.

(** The loop over the volumes appends one row for each of them, or
    stops at the first whose size or description raises. *)
Lemma partition_rows_rows `{Codec}
    (get_readable_size : Z -> res (option string))
    (partitions : list (Z * bytes * Z * Z)) :
  forall partition_data : list PartitionRow,
    Forall (fun p => is_Ok (get_readable_size (p.2 * SECTOR_SIZE)) = true /\
                     is_Ok (decode_strict p.1.1.2) = true) partitions ->
    exists rows,
      partition_rows get_readable_size partitions partition_data
        = Ok (partition_data ++ rows)%list /\
      Forall2 (row_of get_readable_size) partitions rows.
Proof.
  induction partitions as [| [[[addr desc] start] length] rest IH];
    intros partition_data Hall.
  - exists []. split; [cbn; now rewrite app_nil_r | constructor].
  - apply Forall_cons_iff in Hall as [[Hsize Hdesc] Hrest].
    cbn in Hsize, Hdesc. cbn [partition_rows].
    destruct (get_readable_size (length * SECTOR_SIZE)) as [size |] eqn:Es;
      [| discriminate].
    destruct (decode_strict desc) as [desc_str |] eqn:Ed; [| discriminate].
    py_run.
    destruct (IH (partition_data ++
                    [mk_partition_row addr desc_str start
                       (start + length - 1) length size])%list Hrest)
      as (rows & Hrun & Hrows).
    rewrite Hrun.
    exists (mk_partition_row addr desc_str start
              (start + length - 1) length size :: rows).
    split; [now rewrite <- app_assoc |].
    constructor; [| exact Hrows].
    cbn. rewrite Es, Ed. repeat split; reflexivity.
Qed.

Lemma partition_rows_undecodable `{Codec}
    (get_readable_size : Z -> res (option string))
    (partitions : list (Z * bytes * Z * Z)) :
  forall partition_data : list PartitionRow,
    Exists (fun p => is_Ok (get_readable_size (p.2 * SECTOR_SIZE)) = false \/
                     is_Ok (decode_strict p.1.1.2) = false) partitions ->
    exists e, partition_rows get_readable_size partitions partition_data
              = Raise e.
Proof.
  induction partitions as [| [[[addr desc] start] length] rest IH];
    intros partition_data Hsome.
  - inversion Hsome.
  - cbn [partition_rows].
    destruct (get_readable_size (length * SECTOR_SIZE)) as [size | e] eqn:Es;
      [| cbn; eauto].
    destruct (decode_strict desc) as [desc_str | e] eqn:Ed; [| cbn; eauto].
    py_run. apply IH.
    apply Exists_cons in Hsome as [[Hs | Hd] | Hrest]; [| | exact Hrest];
      cbn in *; [rewrite Es in Hs | rewrite Ed in Hd]; discriminate.
Qed.

(** X20. The worker never raises.  On every reachable handler: when
    the image gives no described volume, also when its table parses,
    the worker probes for a filesystem at offset 0 and reports whether
    one mounts there; otherwise it reports one row for each described
    volume, in order, ending at [start + length - 1], unless a size or
    a description raises, in which case every volume is dropped and the
    error is reported instead. *)
Theorem load_partitions_worker_tiers `{Codec}
    (get_readable_size : Z -> res (option string))
    (path : string) (img : Img_Info) (self : ImageHandler) :
  reachable path img self ->
  let result := fst (_load_partitions_worker get_readable_size self) in
  (exists w, result = Ok w) /\
  (partitions_of img = [] ->
   result = Ok (worker_result false (is_Ok (FS_Info_at img 0)) [])) /\
  (partitions_of img <> [] ->
   (Forall (fun p => is_Ok (get_readable_size (p.2 * SECTOR_SIZE)) = true /\
                     is_Ok (decode_strict p.1.1.2) = true)
      (partitions_of img) ->
    exists rows,
      result = Ok (worker_result true false rows) /\
      Forall2 (row_of get_readable_size) (partitions_of img) rows) /\
   (Exists (fun p => is_Ok (get_readable_size (p.2 * SECTOR_SIZE)) = false \/
                     is_Ok (decode_strict p.1.1.2) = false)
      (partitions_of img) ->
    exists e, result = Ok (worker_error e))).
Proof.
  intros Hreach result.
  destruct (get_partitions_reachable path img self Hreach)
    as (self1 & Hparts & Hreach1).
  pose proof (reachable_sound path img self1 Hreach1) as Hsound.
  destruct (get_fs_info_sound img self1 0 Hsound) as (self2 & Hfs & _).
  rewrite Z.mul_0_l in Hfs.
  assert (Hrun : result =
            match partitions_of img with
            | [] => Ok (worker_result false (is_Ok (FS_Info_at img 0)) [])
            | _ :: _ =>
                match partition_rows get_readable_size (partitions_of img) []
                with
                | Ok rows => Ok (worker_result true false rows)
                | Raise e => Ok (worker_error e)
                end
            end).
  { subst result. unfold _load_partitions_worker, has_filesystem. py_run.
    rewrite Hparts. cbn.
    destruct (partitions_of img) as [| p rest]; cbn.
    - rewrite Hfs. cbn. destruct (FS_Info_at img 0); reflexivity.
    - destruct p as [[[addr desc] start] length]. py_run.
      destruct (get_readable_size (length * SECTOR_SIZE)); cbn;
        [| reflexivity].
      destruct (decode_strict desc); cbn; [| reflexivity].
      destruct (partition_rows _ _ _); reflexivity. }
  rewrite Hrun. clear Hrun. split; [| split].
  - destruct (partitions_of img); [eauto |].
    destruct (partition_rows _ _ _); eauto.
  - now intros ->.
  - intros Hne. destruct (partitions_of img) as [| p rest] eqn:Ep;
      [congruence |]. split.
    + intros Hall.
      destruct (partition_rows_rows get_readable_size (p :: rest) [] Hall)
        as (rows & -> & Hrows). eauto.
    + intros Hsome.
      destruct (partition_rows_undecodable get_readable_size (p :: rest) []
                  Hsome) as (e & ->). eauto.
Qed.

Lemma load_partitions_worker_tiers_witness :
  fst (@_load_partitions_worker ascii_codec example_readable_size
         (new_handler "disk.dd" empty_table_img))
  = Ok (worker_result false true []) /\
  exists rows,
    fst (@_load_partitions_worker ascii_codec example_readable_size
           (new_handler "disk.dd" example_img))
    = Ok (worker_result true false rows) /\
    Forall2 (@row_of ascii_codec example_readable_size)
      (partitions_of example_img) rows.
Proof.
  destruct (@load_partitions_worker_tiers ascii_codec example_readable_size
              "disk.dd" empty_table_img (new_handler "disk.dd" empty_table_img)
              (@reachable_init ascii_codec _ _)) as (_ & Hprobe & _).
  destruct (@load_partitions_worker_tiers ascii_codec example_readable_size
              "disk.dd" example_img (new_handler "disk.dd" example_img)
              (@reachable_init ascii_codec _ _)) as (_ & _ & Hrows).
  split; [exact (Hprobe eq_refl) |].
  apply Hrows; [discriminate |].
  repeat constructor.
Defined.


(** ** The files of an image, volume by volume *)

(** One volume adds what the walk finds on it, or nothing. *)
Lemma process_partition_with_run `{Unicode} `{Codec}
    (fuel : nat) (img : Img_Info)
    (offset : Z) (extensions : option (list string))
    (search_query : option string) (files_list : list FileInfo) :
  fails_with_IOError img ->
  process_partition_with (S fuel) img offset extensions search_query files_list
  = (Ok tt,
     files_list
       ++ partition_files (S fuel) img offset extensions search_query).
Proof.
  intros (_ & Hmount & Hroot).
  unfold process_partition_with, except_IOError, partition_files.
  cbv beta iota delta [mbind res_bind mret M_ret].
  destruct (FS_Info_at img offset) as [fs_info | e] eqn:Hfs.
  - destruct (open_dir_path fs_info "/") as [root | e] eqn:Hopen.
    + rewrite (recursive_file_search_appends (S fuel) _ _ _ _ _ files_list).
      rewrite !recursive_file_search_step. reflexivity.
    + rewrite (Hroot offset fs_info e Hfs Hopen). now rewrite app_nil_r.
  - rewrite (Hmount offset e Hfs). now rewrite app_nil_r.
Qed.

Lemma for_partitions_run `{Unicode} `{Codec} `{VolumeFlags}
    (fuel : nat) (img : Img_Info)
    (extensions : option (list string)) (search_query : option string) :
  fails_with_IOError img ->
  forall (table : list Partition) (files_list : list FileInfo),
    for_partitions
      (fun offset =>
         process_partition_with (S fuel) img offset extensions search_query)
      table files_list
    = (Ok tt,
       files_list
         ++ flat_map
              (fun p => partition_files (S fuel) img
                          (part_start p * SECTOR_SIZE) extensions search_query)
              (allocated table)).
Proof.
  intros Hfail. induction table as [| p rest IH]; intros files_list.
  - cbn. now rewrite app_nil_r.
  - cbn [for_partitions allocated List.filter]. py_run.
    destruct (part_flags p =? TSK_VS_PART_FLAG_ALLOC).
    + rewrite (process_partition_with_run fuel img _ _ _ files_list Hfail).
      rewrite IH. cbn [flat_map]. now rewrite app_assoc.
    + cbn. apply IH.
Qed.

Lemma files_of_image_run `{Unicode} `{Codec} `{VolumeFlags}
    (fuel : nat) (img : Img_Info)
    (extensions : option (list string)) (search_query : option string)
    (self : ImageHandler) (image_type : string) :
  get_image_type (image_path self) = Ok image_type ->
  fails_with_IOError img ->
  files_of_image
    (fun img_info offset =>
       process_partition_with (S fuel) img_info offset extensions search_query)
    (Ok img) self
  = Ok (match Volume_Info img with
        | Ok volume_info =>
            flat_map
              (fun p => partition_files (S fuel) img
                          (part_start p * SECTOR_SIZE) extensions search_query)
              (allocated volume_info)
        | Raise _ => partition_files (S fuel) img 0 extensions search_query
        end).
Proof.
  intros Htype Hfail. unfold files_of_image, open_image. rewrite Htype.
  unfold except_IOError. py_run.
  destruct (Volume_Info img) as [table | e] eqn:Hvol; cbn.
  - rewrite (for_partitions_run fuel img extensions search_query Hfail
               table []). reflexivity.
  - destruct Hfail as (Hv & Hrest). rewrite (Hv e Hvol).
    rewrite (process_partition_with_run fuel img 0 _ _ []
               (conj Hv Hrest)). reflexivity.
Qed.

(** X21. On an image whose failures the library reports as [IOError],
    [list_files] and [search_files] never raise and return, in the
    order of the table, what the walk finds on each allocated volume:
    a volume that is not flagged as allocated is not looked at, a
    volume whose filesystem does not mount or whose root does not open
    adds nothing and loses nothing of the others, and an image without
    a volume table is walked as one filesystem at offset 0. *)
Theorem list_files_by_partition `{Unicode} `{Codec} `{VolumeFlags} (fuel : nat)
    (img : Img_Info) (extensions : option (list string))
    (search_query : option string) (self : ImageHandler)
    (image_type : string) :
  get_image_type (image_path self) = Ok image_type ->
  fails_with_IOError img ->
  let found extensions search_query :=
    match Volume_Info img with
    | Ok volume_info =>
        flat_map
          (fun p => partition_files (S fuel) img
                      (part_start p * SECTOR_SIZE) extensions search_query)
          (allocated volume_info)
    | Raise _ => partition_files (S fuel) img 0 extensions search_query
    end in
  list_files (S fuel) (Ok img) extensions self = Ok (found extensions None) /\
  search_files (S fuel) (Ok img) search_query self
    = Ok (found None search_query).
Proof.
  intros Htype Hfail found. split.
  - exact (files_of_image_run fuel img extensions None self image_type
             Htype Hfail).
  - exact (files_of_image_run fuel img None search_query self image_type
             Htype Hfail).
Qed.

Lemma list_files_by_partition_witness :
  @list_files ascii_case ascii_codec example_flags 10 (Ok example_img) None
    (new_handler "disk.dd" example_img)
  = Ok (@partition_files ascii_case ascii_codec 10 example_img
          (2048 * 512) None None) /\
  @search_files ascii_case ascii_codec example_flags 10 (Ok example_img)
    (Some ".txt") (new_handler "disk.dd" example_img)
  = Ok (@partition_files ascii_case ascii_codec 10 example_img
          (2048 * 512) None (Some ".txt")).
Proof.
  assert (Hfail : fails_with_IOError example_img).
  { split; [| split].
    - intros e. cbn. discriminate.
    - intros offset e. cbn.
      destruct (_ =? _); intros Hx; [discriminate Hx | now injection Hx].
    - intros offset fs_info e. cbn.
      destruct (_ =? _); intros Hx; [| discriminate Hx].
      injection Hx as <-. cbn. discriminate. }
  destruct (@list_files_by_partition ascii_case ascii_codec example_flags
      9 example_img
              None (Some ".txt") (new_handler "disk.dd" example_img) "raw"
              eq_refl Hfail) as [Hlist Hsearch].
  split.
  - rewrite Hlist. cbn [Volume_Info example_img allocated List.filter flat_map].
    cbn [part_flags example_flags part_addr part_start].
    cbn. now rewrite app_nil_r.
  - rewrite Hsearch. cbn. now rewrite app_nil_r.
Defined.


(** ** The size of a mind map *)

Lemma grows_by_refl (n : nat) (w : MindMapWorker) : grows_by n w w.
Proof. exists []. split; [now rewrite app_nil_r | cbn; lia]. Qed.

Lemma grows_by_same (n : nat) (w w' : MindMapWorker) :
  w_nodes_data w' = w_nodes_data w -> grows_by n w w'.
Proof.
  intros Hsame. exists []. split; [now rewrite app_nil_r | cbn; lia].
Qed.

Lemma grows_by_trans (a b c : nat) (w w1 w2 : MindMapWorker) :
  grows_by a w w1 -> grows_by b w1 w2 -> (a + b <= c)%nat -> grows_by c w w2.
Proof.
  intros (x & Hx & Lx) (y & Hy & Ly) Hc. exists (x ++ y)%list. split.
  - now rewrite Hy, Hx, app_assoc.
  - rewrite length_app. lia.
Qed.

(** An entry adds its node and what the traversal of its directory
    adds, whether that traversal returns or raises. *)
Lemma traverse_entry_grows
    (rec : string -> string -> option Z -> M MindMapWorker unit)
    (path : string) (entry : DirEntry) (n : nat) (w : MindMapWorker) :
  (forall a b c w0, grows_by n w0 (snd (rec a b c w0))) ->
  exists counted w',
    try_catch (traverse_entry rec path entry) (fun _ => mret false) w
      = (Ok counted, w') /\
    grows_by (S n) w w'.
Proof.
  intros Hrec. unfold traverse_entry, nodes_data_append.
  destruct (de_name entry) as [[| c name] |]; py_run;
    try (exists false, w; split; [reflexivity | apply grows_by_refl]).
  set (node := mk_node_data _ _ _ _ _).
  set (w1 := mk_worker (w_image_handler w) (w_nodes_data w ++ [node])).
  assert (H1 : grows_by 1 w w1).
  { exists [node]. split; [reflexivity | cbn; lia]. }
  destruct (de_is_directory entry && truthy (de_inode_number entry)).
  - pose proof (Hrec (if String.eqb path "/"
                      then "/" +:+ String c name
                      else path +:+ "/" +:+ String c name)
                  path (de_inode_number entry) w1) as Hsub.
    destruct (rec _ _ _ w1) as [[[] | e] w2]; cbn in Hsub |- *.
    + exists true, w2. split; [reflexivity |].
      apply (grows_by_trans 1 n _ w w1 w2); [assumption | assumption | lia].
    + exists false, w2. split; [reflexivity |].
      apply (grows_by_trans 1 n _ w w1 w2); [assumption | assumption | lia].
  - cbn. exists true, w1. split; [reflexivity |].
    apply (grows_by_trans 1 0 _ w w1 w1);
      [assumption | apply grows_by_refl | lia].
Qed.

Lemma traverse_entries_grows
    (rec : string -> string -> option Z -> M MindMapWorker unit)
    (max_children : Z) (cancelled : bool) (path : string) (n : nat) :
  (forall a b c w0, grows_by n w0 (snd (rec a b c w0))) ->
  forall (entries : list DirEntry) (child_count : Z) (w : MindMapWorker),
    exists w',
      traverse_entries rec max_children cancelled path entries child_count w
        = (Ok tt, w') /\
      grows_by (length entries * S n) w w' /\
      (cancelled = true \/ max_children <= child_count -> w' = w).
Proof.
  intros Hrec. induction entries as [| entry rest IH]; intros child_count w.
  - exists w. split; [reflexivity |]. split; [apply grows_by_refl | auto].
  - cbn [traverse_entries].
    destruct (cancelled || (child_count >=? max_children)) eqn:Hstop.
    + exists w. split; [reflexivity |]. split; [apply grows_by_refl | auto].
    + apply orb_false_iff in Hstop as [Hc Hcount].
      rewrite Z.geb_leb in Hcount. apply Z.leb_gt in Hcount.
      destruct (traverse_entry_grows rec path entry n w Hrec)
        as (counted & w1 & Hrun & Hgrow).
      unfold mbind, M_bind. rewrite Hrun.
      destruct (IH (if counted then child_count + 1 else child_count) w1)
        as (w2 & Hrest & Hgrow2 & _).
      rewrite Hrest. exists w2. split; [reflexivity |]. split.
      * apply (grows_by_trans (S n) (length rest * S n) _ w w1 w2);
          [assumption | assumption | cbn [length]; lia].
      * intros [Hx | Hx]; [congruence | lia].
Qed.

Lemma length_slice_to {A : Type} (entries : list A) (n : Z) :
  0 <= n -> (length (slice_to entries n) <= Z.to_nat n)%nat.
Proof.
  intros Hn. unfold slice_to.
  destruct (n <? 0) eqn:Hneg; [apply Z.ltb_lt in Hneg; lia |].
  rewrite length_firstn. lia.
Qed.

Lemma _traverse_directory_grows `{Codec} (max_depth max_children : Z)
    (cancelled : bool) (start_offset : Z) :
  forall (fuel : nat) (path : string) (parent_path : option string)
         (current_depth : Z) (parent_inode : option Z) (w : MindMapWorker),
    exists w',
      _traverse_directory fuel max_depth max_children cancelled start_offset
        path parent_path current_depth parent_inode w = (Ok tt, w') /\
      grows_by (node_bound fuel (Z.to_nat max_children)) w w' /\
      (cancelled = true -> w' = w).
Proof.
  induction fuel as [| fuel IH];
    intros path parent_path current_depth parent_inode w.
  - exists w. split; [reflexivity |]. split; [apply grows_by_refl | auto].
  - cbn [_traverse_directory].
    destruct (cancelled || (current_depth >=? max_depth)) eqn:Hstop.
    + exists w. split; [reflexivity |]. split; [apply grows_by_refl | auto].
    + apply orb_false_iff in Hstop as [Hc Hdepth].
      unfold try_catch, on_worker_handler, mbind, M_bind.
      destruct (get_directory_contents start_offset parent_inode
                  (w_image_handler w)) as [[entries | e] h].
      2:{ eexists. split; [reflexivity |].
          split; [now apply grows_by_same | congruence]. }
      set (w0 := mk_worker h (w_nodes_data w)).
      assert (H0 : grows_by 0 w w0) by now apply grows_by_same.
      destruct entries as [| entry rest].
      { exists w0. split; [reflexivity |]. split; [| congruence].
        apply (grows_by_trans 0 0 _ w w0 w0);
          [assumption | apply grows_by_refl | lia]. }
      set (rec := fun full_path path0 entry_inode =>
                    _traverse_directory fuel max_depth max_children cancelled
                      start_offset full_path (Some path0)
                      (current_depth + 1) entry_inode).
      assert (Hrec : forall a b c w1,
                grows_by (node_bound fuel (Z.to_nat max_children)) w1
                  (snd (rec a b c w1))).
      { intros a b c w1. unfold rec.
        destruct (IH a (Some b) (current_depth + 1) c w1)
          as (w2 & -> & Hgrow & _). exact Hgrow. }
      destruct (traverse_entries_grows rec max_children cancelled path _ Hrec
                  (slice_to (entry :: rest) max_children) 0 w0)
        as (w1 & Hrun & Hgrow & Hstopped).
      fold rec. rewrite Hrun. exists w1. split; [reflexivity |].
      split; [| congruence].
      destruct (Z.le_gt_cases max_children 0) as [Hnone | Hsome].
      * rewrite (Hstopped (or_intror Hnone)).
        apply (grows_by_trans 0 0 _ w w0 w0);
          [assumption | apply grows_by_refl | lia].
      * pose proof (length_slice_to (entry :: rest) max_children
                      ltac:(lia)) as Hlen.
        apply (grows_by_trans 0 _ _ w w0 w1 H0 Hgrow).
        cbn [node_bound plus]. apply Nat.mul_le_mono_r. exact Hlen.
Qed.

(** The fuel is immaterial once it covers the levels left. *)
Lemma traverse_entries_ext
    (rec1 rec2 : string -> string -> option Z -> M MindMapWorker unit)
    (max_children : Z) (cancelled : bool) (path : string) :
  (forall a b c w, rec1 a b c w = rec2 a b c w) ->
  forall (entries : list DirEntry) (child_count : Z) (w : MindMapWorker),
    traverse_entries rec1 max_children cancelled path entries child_count w
    = traverse_entries rec2 max_children cancelled path entries child_count w.
Proof.
  intros Hrec. induction entries as [| entry rest IH]; intros child_count w.
  - reflexivity.
  - cbn [traverse_entries].
    destruct (cancelled || (child_count >=? max_children)); [reflexivity |].
    assert (Hentry : try_catch (traverse_entry rec1 path entry)
                       (fun _ => mret false) w
                     = try_catch (traverse_entry rec2 path entry)
                         (fun _ => mret false) w).
    { unfold traverse_entry, nodes_data_append.
      destruct (de_name entry) as [[| c name] |]; try reflexivity.
      py_run.
      destruct (de_is_directory entry && truthy (de_inode_number entry));
        [| reflexivity].
      now rewrite Hrec. }
    unfold mbind, M_bind. rewrite Hentry.
    destruct (try_catch (traverse_entry rec2 path entry) _ w)
      as [[counted | e] w1]; [apply IH | reflexivity].
Qed.

Lemma _traverse_directory_fuel `{Codec} (max_depth max_children : Z)
    (cancelled : bool) (start_offset : Z) :
  forall (fuel fuel' : nat) (path : string) (parent_path : option string)
         (current_depth : Z) (parent_inode : option Z) (w : MindMapWorker),
    (Z.to_nat (max_depth - current_depth) <= fuel)%nat ->
    (Z.to_nat (max_depth - current_depth) <= fuel')%nat ->
    _traverse_directory fuel max_depth max_children cancelled start_offset
      path parent_path current_depth parent_inode w
    = _traverse_directory fuel' max_depth max_children cancelled start_offset
        path parent_path current_depth parent_inode w.
Proof.
  induction fuel as [| fuel IH];
    intros [| fuel'] path parent_path current_depth parent_inode w Hf Hf';
    cbn [_traverse_directory]; try reflexivity.
  - replace (current_depth >=? max_depth) with true
      by (symmetry; rewrite Z.geb_leb; apply Z.leb_le; lia).
    now rewrite orb_true_r.
  - replace (current_depth >=? max_depth) with true
      by (symmetry; rewrite Z.geb_leb; apply Z.leb_le; lia).
    now rewrite orb_true_r.
  - destruct (cancelled || (current_depth >=? max_depth)) eqn:Hstop;
      [reflexivity |].
    apply orb_false_iff in Hstop as [_ Hdepth].
    rewrite Z.geb_leb in Hdepth. apply Z.leb_gt in Hdepth.
    unfold try_catch, mbind, M_bind.
    destruct (on_worker_handler _ w) as [[[| entry rest] | e] w0];
      try reflexivity.
    rewrite (traverse_entries_ext _
               (fun full_path path0 entry_inode =>
                  _traverse_directory fuel' max_depth max_children cancelled
                    start_offset full_path (Some path0)
                    (current_depth + 1) entry_inode));
      [reflexivity |].
    intros a b c w1. apply IH; lia.
Qed.

(** X22. The traversal behind the mind map never raises and only adds
    nodes, and it adds at most [c + c^2 + ... + c^d] of them for a
    depth limit [d] and a limit of [c] children: none when either limit
    is zero or negative, and none when the worker is cancelled. *)
Theorem traverse_image_bounded `{Codec}
    (max_depth max_children start_offset : Z) (cancelled : bool)
    (w : MindMapWorker) :
  let '(r, w') :=
    traverse_image max_depth max_children start_offset cancelled w in
  r = Ok tt /\
  (exists added,
     w_nodes_data w' = (w_nodes_data w ++ added)%list /\
     (length added
      <= node_bound (Z.to_nat max_depth) (Z.to_nat max_children))%nat) /\
  (max_depth <= 0 \/ max_children <= 0 \/ cancelled = true ->
   w_nodes_data w' = w_nodes_data w).
Proof.
  unfold traverse_image.
  destruct (_traverse_directory_grows max_depth max_children cancelled
              start_offset (Z.to_nat max_depth) "/" None 0 None w)
    as (w' & -> & Hgrow & Hcancel).
  split; [reflexivity |]. split; [exact Hgrow |].
  destruct Hgrow as (added & Hadded & Hlen).
  intros [Hd | [Hc | Hx]].
  - replace (Z.to_nat max_depth) with 0%nat in Hlen by lia. cbn in Hlen.
    destruct added; [now rewrite app_nil_r in Hadded | cbn in Hlen; lia].
  - replace (Z.to_nat max_children) with 0%nat in Hlen by lia.
    assert (Hzero : forall levels, node_bound levels 0 = 0%nat)
      by (intros [| levels]; reflexivity).
    rewrite Hzero in Hlen.
    destruct added; [now rewrite app_nil_r in Hadded | cbn in Hlen; lia].
  - now rewrite (Hcancel Hx).
Qed.
